(** * The connection core of the RPC runtime: yb/rpc/connection.cc

    A shallow embedding of [Connection] and of its three subclasses
    ([YBConnection], [RedisConnection], [CQLConnection]).  Every method is a
    function on [State]; [None] is returned where the process aborts on a
    [CHECK], where a pointer that the method dereferences is null, or where a
    precondition that the method states with [DCHECK] does not hold (debug
    build).  Time stamps ([last_activity_time_]), the latency histogram, the
    free-list pool of pending entries ([car_pool_]), [DVLOG] lines and the
    thread-affinity [DCHECK]s are left out: no method below branches on them.
    [socket_.Close()] is taken to succeed.  The SASL set-up, [SetNonBlocking]
    and the tasks that run and complete the negotiation (they hand the
    connection to the negotiation thread and to the reactor) are not
    modelled. *)

From Stdlib Require Import ZArith Lia.
From stdpp Require Import base option list gmap strings pretty.

#[local] Set Warnings "-register-all".

(** ** Status *)

(** Modelled from the spec: [Status] (yb/util/status.h is not part of the
    sources).  The kinds are the ones that the [STATUS] macro is given in
    connection.cc and that the spec's error section lists; a status carries
    two messages and a posix code, -1 when it has none. *)
Inductive StatusCode :=
| kOk | kNetworkError | kRuntimeError | kCorruption | kInvalidArgument
| kTimedOut | kServiceUnavailable.

Record Status := mkStatus {
  code : StatusCode;
  message : string;
  message2 : string;
  posix_code : Z
}.

Definition Status_OK : Status := mkStatus kOk EmptyString EmptyString (-1).
Definition STATUS (c : StatusCode) (msg : string) : Status :=
  mkStatus c msg EmptyString (-1).
Definition STATUS2 (c : StatusCode) (msg msg2 : string) : Status :=
  mkStatus c msg msg2 (-1).

Definition ok (s : Status) : bool :=
  match code s with kOk => true | _ => false end.

(** errno.h *)
Definition ESHUTDOWN : Z := 108.

#[global] Instance StatusCode_eq_dec : EqDecision StatusCode.
Proof. solve_decision. Defined.
#[global] Instance Status_eq_dec : EqDecision Status.
Proof. solve_decision. Defined.

(** ** Calls *)

Inductive Direction := CLIENT | SERVER.
(** The dynamic class of the connection. *)
Inductive Protocol := YB | Redis | CQL.

#[global] Instance Direction_eq_dec : EqDecision Direction.
Proof. solve_decision. Defined.
#[global] Instance Protocol_eq_dec : EqDecision Protocol.
Proof. solve_decision. Defined.

(** A [shared_ptr<OutboundCall>]: the address of a call object in [calls]. *)
Abbreviation Handle := nat.

Record CallResponse := mkCallResponse {
  resp_call_id : Z;
  resp_body : string
}.

(** Modelled from the spec: the states of an [OutboundCall]
    (outbound_call.cc is not part of the sources): queued, sent, timed-out,
    and finished, the latter either responded or failed with a status. *)
Inductive CallState :=
| StReady
| StQueued
| StSent
| StTimedOut
| StResponded (r : CallResponse)
| StFailed (s : Status).

(** The terminal edges of a call, as its caller sees them. *)
Inductive TerminalEdge :=
| EdgeResponse (r : CallResponse)
| EdgeTimedOut
| EdgeFailed (s : Status).

(** Modelled from the spec: [OutboundCall].  [serialized_] is what
    [SerializeTo] returns for the call, [timeout_initialized_] is
    [controller()->timeout().Initialized()], [fired_] lists the terminal
    edges that fired on the call, oldest first. *)
Record OutboundCall := mkOutboundCall {
  call_id_ : option Z;
  state_ : CallState;
  serialized_ : Status * list string;
  timeout_initialized_ : bool;
  fired_ : list TerminalEdge
}.

Definition call_id_assigned (c : OutboundCall) : bool :=
  match call_id_ c with Some _ => true | None => false end.

Definition IsTimedOut (c : OutboundCall) : bool :=
  match state_ c with StTimedOut => true | _ => false end.

(** [NotifyTransferFinished] asserts [IsTimedOut] under [IsFinished]: timed-out
    is one of the finished states. *)
Definition IsFinished (c : OutboundCall) : bool :=
  match state_ c with
  | StTimedOut | StResponded _ | StFailed _ => true
  | StReady | StQueued | StSent => false
  end.

Definition call_set_call_id (id : Z) (c : OutboundCall) : OutboundCall :=
  mkOutboundCall (Some id) (state_ c) (serialized_ c) (timeout_initialized_ c) (fired_ c).

Definition call_set_state (s : CallState) (c : OutboundCall) : OutboundCall :=
  mkOutboundCall (call_id_ c) s (serialized_ c) (timeout_initialized_ c) (fired_ c).

Definition call_finish (s : CallState) (e : TerminalEdge) (c : OutboundCall) : OutboundCall :=
  mkOutboundCall (call_id_ c) s (serialized_ c) (timeout_initialized_ c) (fired_ c ++ [e]).

(** An inbound call as [ParseFrom] builds it; [ic_call_id] is read by
    [YBConnection] only. *)
Record InboundCall := mkInboundCall {
  ic_call_id : Z;
  ic_request : string
}.

#[global] Instance InboundCall_eq_dec : EqDecision InboundCall.
Proof. solve_decision. Defined.

(** [CallAwaitingResponse]: the call, cleared on timeout, and whether the
    one-shot [timeout_timer] is running. *)
Record CallAwaitingResponse := mkCar {
  car_call : option Handle;
  timeout_timer : bool
}.

(** ** Transfers *)

(** What [ParseFrom] makes of a finished inbound transfer. *)
Record Frame := mkFrame {
  frame_status : Status;
  frame_call_id : Z;
  frame_body : string
}.

(** An inbound transfer, by what its methods answer: [TransferStarted],
    [TransferFinished], the outcome of parsing it, and [ExcessData] (Redis). *)
Inductive InboundTransfer :=
| mkInbound (started finished : bool) (frame : Frame) (excess : option InboundTransfer).

Definition TransferStarted (t : InboundTransfer) : bool :=
  match t with mkInbound s _ _ _ => s end.
Definition TransferFinished (t : InboundTransfer) : bool :=
  match t with mkInbound _ f _ _ => f end.
Definition parse (t : InboundTransfer) : Frame :=
  match t with mkInbound _ _ fr _ => fr end.
Definition ExcessData (t : InboundTransfer) : option InboundTransfer :=
  match t with mkInbound _ _ _ e => e end.

(** [new XInboundTransfer()]: nothing read yet. *)
Definition new_InboundTransfer : InboundTransfer :=
  mkInbound false false (mkFrame Status_OK 0 EmptyString) None.

(** The [TransferCallbacks] subclasses of connection.cc. *)
Inductive TransferCallbacks :=
| CallTransferCallbacks (call : Handle)
| YBResponseTransferCallbacks (call : InboundCall)
| RedisResponseTransferCallbacks (call : InboundCall)
| CQLResponseTransferCallbacks (call : InboundCall).

(** The two callback edges of an outbound transfer. *)
Inductive TransferEdge :=
| TransferFinishedEdge
| TransferAbortedEdge (s : Status).

(** Modelled from the spec: [OutboundTransfer] (transfer.cc is not part of the
    sources).  [transfer_id] stands for the address of the object. *)
Record OutboundTransfer := mkOutbound {
  transfer_id : nat;
  slices : list string;
  callbacks : TransferCallbacks;
  finished_ : bool;
  aborted_ : bool
}.

Definition transfer_set_finished (t : OutboundTransfer) : OutboundTransfer :=
  mkOutbound (transfer_id t) (slices t) (callbacks t) true (aborted_ t).
Definition transfer_set_aborted (t : OutboundTransfer) : OutboundTransfer :=
  mkOutbound (transfer_id t) (slices t) (callbacks t) (finished_ t) true.

(** What one [SendBuffer] on the socket comes to. *)
Inductive SendOutcome :=
| SendError (s : Status)
| SendPartial
| SendComplete.

(** ** Log *)

Inductive Severity := WARNING | VLOG1.

Inductive LogMsg :=
| LogShutdownPendingInbound (s : Status)
| LogTornDownBeforeSendCall (call : Handle) (s : Status)
| LogTornDownBeforeSendResponse (call : InboundCall)
| LogRemoteShutdown
| LogRecvError (s : Status)
| LogResponseNotPending (call_id : Z)
| LogResponseAfterTimeout (call_id : Z)
| LogNothingToWrite
| LogSendError (s : Status)
| LogBadData (s : Status)
| LogDuplicateCallId (call_id : Z).

(** ** State *)

(** The members of [Connection] and of its subclasses ([this_] to
    [socket_open_]), then what its methods reach outside the object: the call
    objects it shares with its callers, the log, the messenger's queue of
    inbound calls, the callback edges fired on outbound transfers, the number
    of outbound transfers constructed, and the statuses [Shutdown] was invoked
    with. *)
Record State := mkState {
  this_ : string;
  remote_ : string;
  protocol_ : Protocol;
  direction_ : Direction;
  is_epoll_registered_ : bool;
  next_call_id_ : Z;
  negotiation_complete_ : bool;
  shutdown_status_ : Status;
  awaiting_response_ : gmap Z CallAwaitingResponse;
  calls_being_handled_ : gmap Z InboundCall;
  outbound_transfers_ : list OutboundTransfer;
  inbound_ : option InboundTransfer;
  processing_call_ : bool;
  read_io_ : bool;
  write_io_ : bool;
  socket_open_ : bool;
  calls : gmap Handle OutboundCall;
  log : list (Severity * LogMsg);
  messenger_queue : list InboundCall;
  transfer_edges : list (nat * TransferEdge);
  transfers_made : nat;
  shutdowns : list Status
}.

(** Assignments to one member. *)
Definition set_is_epoll_registered_ (v : bool) (st : State) : State :=
  mkState (this_ st) (remote_ st) (protocol_ st) (direction_ st) v (next_call_id_ st)
    (negotiation_complete_ st) (shutdown_status_ st) (awaiting_response_ st)
    (calls_being_handled_ st) (outbound_transfers_ st) (inbound_ st) (processing_call_
    st) (read_io_ st) (write_io_ st) (socket_open_ st) (calls st) (log st)
    (messenger_queue st) (transfer_edges st) (transfers_made st) (shutdowns st).
Definition set_next_call_id_ (v : Z) (st : State) : State :=
  mkState (this_ st) (remote_ st) (protocol_ st) (direction_ st) (is_epoll_registered_
    st) v (negotiation_complete_ st) (shutdown_status_ st) (awaiting_response_ st)
    (calls_being_handled_ st) (outbound_transfers_ st) (inbound_ st) (processing_call_
    st) (read_io_ st) (write_io_ st) (socket_open_ st) (calls st) (log st)
    (messenger_queue st) (transfer_edges st) (transfers_made st) (shutdowns st).
Definition set_negotiation_complete_ (v : bool) (st : State) : State :=
  mkState (this_ st) (remote_ st) (protocol_ st) (direction_ st) (is_epoll_registered_
    st) (next_call_id_ st) v (shutdown_status_ st) (awaiting_response_ st)
    (calls_being_handled_ st) (outbound_transfers_ st) (inbound_ st) (processing_call_
    st) (read_io_ st) (write_io_ st) (socket_open_ st) (calls st) (log st)
    (messenger_queue st) (transfer_edges st) (transfers_made st) (shutdowns st).
Definition set_shutdown_status_ (v : Status) (st : State) : State :=
  mkState (this_ st) (remote_ st) (protocol_ st) (direction_ st) (is_epoll_registered_
    st) (next_call_id_ st) (negotiation_complete_ st) v (awaiting_response_ st)
    (calls_being_handled_ st) (outbound_transfers_ st) (inbound_ st) (processing_call_
    st) (read_io_ st) (write_io_ st) (socket_open_ st) (calls st) (log st)
    (messenger_queue st) (transfer_edges st) (transfers_made st) (shutdowns st).
Definition set_awaiting_response_ (v : gmap Z CallAwaitingResponse) (st : State) : State :=
  mkState (this_ st) (remote_ st) (protocol_ st) (direction_ st) (is_epoll_registered_
    st) (next_call_id_ st) (negotiation_complete_ st) (shutdown_status_ st) v
    (calls_being_handled_ st) (outbound_transfers_ st) (inbound_ st) (processing_call_
    st) (read_io_ st) (write_io_ st) (socket_open_ st) (calls st) (log st)
    (messenger_queue st) (transfer_edges st) (transfers_made st) (shutdowns st).
Definition set_calls_being_handled_ (v : gmap Z InboundCall) (st : State) : State :=
  mkState (this_ st) (remote_ st) (protocol_ st) (direction_ st) (is_epoll_registered_
    st) (next_call_id_ st) (negotiation_complete_ st) (shutdown_status_ st)
    (awaiting_response_ st) v (outbound_transfers_ st) (inbound_ st) (processing_call_
    st) (read_io_ st) (write_io_ st) (socket_open_ st) (calls st) (log st)
    (messenger_queue st) (transfer_edges st) (transfers_made st) (shutdowns st).
Definition set_outbound_transfers_ (v : list OutboundTransfer) (st : State) : State :=
  mkState (this_ st) (remote_ st) (protocol_ st) (direction_ st) (is_epoll_registered_
    st) (next_call_id_ st) (negotiation_complete_ st) (shutdown_status_ st)
    (awaiting_response_ st) (calls_being_handled_ st) v (inbound_ st) (processing_call_
    st) (read_io_ st) (write_io_ st) (socket_open_ st) (calls st) (log st)
    (messenger_queue st) (transfer_edges st) (transfers_made st) (shutdowns st).
Definition set_inbound_ (v : option InboundTransfer) (st : State) : State :=
  mkState (this_ st) (remote_ st) (protocol_ st) (direction_ st) (is_epoll_registered_
    st) (next_call_id_ st) (negotiation_complete_ st) (shutdown_status_ st)
    (awaiting_response_ st) (calls_being_handled_ st) (outbound_transfers_ st) v
    (processing_call_ st) (read_io_ st) (write_io_ st) (socket_open_ st) (calls st) (log
    st) (messenger_queue st) (transfer_edges st) (transfers_made st) (shutdowns st).
Definition set_processing_call_ (v : bool) (st : State) : State :=
  mkState (this_ st) (remote_ st) (protocol_ st) (direction_ st) (is_epoll_registered_
    st) (next_call_id_ st) (negotiation_complete_ st) (shutdown_status_ st)
    (awaiting_response_ st) (calls_being_handled_ st) (outbound_transfers_ st) (inbound_
    st) v (read_io_ st) (write_io_ st) (socket_open_ st) (calls st) (log st)
    (messenger_queue st) (transfer_edges st) (transfers_made st) (shutdowns st).
Definition set_read_io_ (v : bool) (st : State) : State :=
  mkState (this_ st) (remote_ st) (protocol_ st) (direction_ st) (is_epoll_registered_
    st) (next_call_id_ st) (negotiation_complete_ st) (shutdown_status_ st)
    (awaiting_response_ st) (calls_being_handled_ st) (outbound_transfers_ st) (inbound_
    st) (processing_call_ st) v (write_io_ st) (socket_open_ st) (calls st) (log st)
    (messenger_queue st) (transfer_edges st) (transfers_made st) (shutdowns st).
Definition set_write_io_ (v : bool) (st : State) : State :=
  mkState (this_ st) (remote_ st) (protocol_ st) (direction_ st) (is_epoll_registered_
    st) (next_call_id_ st) (negotiation_complete_ st) (shutdown_status_ st)
    (awaiting_response_ st) (calls_being_handled_ st) (outbound_transfers_ st) (inbound_
    st) (processing_call_ st) (read_io_ st) v (socket_open_ st) (calls st) (log st)
    (messenger_queue st) (transfer_edges st) (transfers_made st) (shutdowns st).
Definition set_socket_open_ (v : bool) (st : State) : State :=
  mkState (this_ st) (remote_ st) (protocol_ st) (direction_ st) (is_epoll_registered_
    st) (next_call_id_ st) (negotiation_complete_ st) (shutdown_status_ st)
    (awaiting_response_ st) (calls_being_handled_ st) (outbound_transfers_ st) (inbound_
    st) (processing_call_ st) (read_io_ st) (write_io_ st) v (calls st) (log st)
    (messenger_queue st) (transfer_edges st) (transfers_made st) (shutdowns st).
Definition set_calls (v : gmap Handle OutboundCall) (st : State) : State :=
  mkState (this_ st) (remote_ st) (protocol_ st) (direction_ st) (is_epoll_registered_
    st) (next_call_id_ st) (negotiation_complete_ st) (shutdown_status_ st)
    (awaiting_response_ st) (calls_being_handled_ st) (outbound_transfers_ st) (inbound_
    st) (processing_call_ st) (read_io_ st) (write_io_ st) (socket_open_ st) v (log st)
    (messenger_queue st) (transfer_edges st) (transfers_made st) (shutdowns st).
Definition set_log (v : list (Severity * LogMsg)) (st : State) : State :=
  mkState (this_ st) (remote_ st) (protocol_ st) (direction_ st) (is_epoll_registered_
    st) (next_call_id_ st) (negotiation_complete_ st) (shutdown_status_ st)
    (awaiting_response_ st) (calls_being_handled_ st) (outbound_transfers_ st) (inbound_
    st) (processing_call_ st) (read_io_ st) (write_io_ st) (socket_open_ st) (calls st)
    v (messenger_queue st) (transfer_edges st) (transfers_made st) (shutdowns st).
Definition set_messenger_queue (v : list InboundCall) (st : State) : State :=
  mkState (this_ st) (remote_ st) (protocol_ st) (direction_ st) (is_epoll_registered_
    st) (next_call_id_ st) (negotiation_complete_ st) (shutdown_status_ st)
    (awaiting_response_ st) (calls_being_handled_ st) (outbound_transfers_ st) (inbound_
    st) (processing_call_ st) (read_io_ st) (write_io_ st) (socket_open_ st) (calls st)
    (log st) v (transfer_edges st) (transfers_made st) (shutdowns st).
Definition set_transfer_edges (v : list (nat * TransferEdge)) (st : State) : State :=
  mkState (this_ st) (remote_ st) (protocol_ st) (direction_ st) (is_epoll_registered_
    st) (next_call_id_ st) (negotiation_complete_ st) (shutdown_status_ st)
    (awaiting_response_ st) (calls_being_handled_ st) (outbound_transfers_ st) (inbound_
    st) (processing_call_ st) (read_io_ st) (write_io_ st) (socket_open_ st) (calls st)
    (log st) (messenger_queue st) v (transfers_made st) (shutdowns st).
Definition set_transfers_made (v : nat) (st : State) : State :=
  mkState (this_ st) (remote_ st) (protocol_ st) (direction_ st) (is_epoll_registered_
    st) (next_call_id_ st) (negotiation_complete_ st) (shutdown_status_ st)
    (awaiting_response_ st) (calls_being_handled_ st) (outbound_transfers_ st) (inbound_
    st) (processing_call_ st) (read_io_ st) (write_io_ st) (socket_open_ st) (calls st)
    (log st) (messenger_queue st) (transfer_edges st) v (shutdowns st).
Definition set_shutdowns (v : list Status) (st : State) : State :=
  mkState (this_ st) (remote_ st) (protocol_ st) (direction_ st) (is_epoll_registered_
    st) (next_call_id_ st) (negotiation_complete_ st) (shutdown_status_ st)
    (awaiting_response_ st) (calls_being_handled_ st) (outbound_transfers_ st) (inbound_
    st) (processing_call_ st) (read_io_ st) (write_io_ st) (socket_open_ st) (calls st)
    (log st) (messenger_queue st) (transfer_edges st) (transfers_made st) v.

(** ** Helpers *)

Definition LOG (sev : Severity) (msg : LogMsg) (st : State) : State :=
  set_log (log st ++ [(sev, msg)]) st.

Definition log_warnings (st : State) : list LogMsg :=
  omap (fun l => match fst l with WARNING => Some (snd l) | VLOG1 => None end) (log st).

(** [Connection::ToString] *)
Definition ToString (st : State) : string :=
  "Connection (" +:+ this_ st +:+ ") " +:+
  (match direction_ st with
   | SERVER => "server connection from"
   | CLIENT => "client connection to"
   end) +:+ " " +:+ remote_ st.

(** A method of the call object behind [h]; [None] when [h] is dangling. *)
Definition update_call (h : Handle) (f : OutboundCall -> OutboundCall) (st : State)
  : option State :=
  c ← calls st !! h; Some (set_calls (<[h := f c]> (calls st)) st).

(** Modelled from the spec: the setters of [OutboundCall] (outbound_call.cc is
    not part of the sources).  [SetResponse], [SetTimedOut] and [SetFailed]
    move the call to a finished state and fire its terminal edge. *)
Definition set_call_id (h : Handle) (id : Z) : State -> option State :=
  update_call h (call_set_call_id id).
Definition SetQueued (h : Handle) : State -> option State :=
  update_call h (call_set_state StQueued).
Definition SetSent (h : Handle) : State -> option State :=
  update_call h (call_set_state StSent).
Definition SetTimedOut (h : Handle) : State -> option State :=
  update_call h (call_finish StTimedOut EdgeTimedOut).
Definition SetFailed (h : Handle) (s : Status) : State -> option State :=
  update_call h (call_finish (StFailed s) (EdgeFailed s)).
Definition SetResponse (h : Handle) (r : CallResponse) : State -> option State :=
  update_call h (call_finish (StResponded r) (EdgeResponse r)).

(** A callback edge fires on the transfer [id]. *)
Definition fire_transfer_edge (id : nat) (e : TransferEdge) (st : State) : State :=
  set_transfer_edges (transfer_edges st ++ [(id, e)]) st.

(** [new OutboundTransfer(slices, cb, ...)] *)
Definition new_OutboundTransfer (sl : list string) (cb : TransferCallbacks) (st : State)
  : OutboundTransfer * State :=
  (mkOutbound (transfers_made st) sl cb false false,
   set_transfers_made (S (transfers_made st)) st).

(** ** Construction and registration *)

(** [Connection::Connection], with the subclass constructors. *)
Definition Connection_new (this remote : string) (p : Protocol) (d : Direction)
    (heap : gmap Handle OutboundCall) : State :=
  mkState this remote p d
    false 1%Z false Status_OK ∅ ∅ [] None false false false true
    heap [] [] [] 0 [].

(** [Connection::EpollRegister] *)
Definition EpollRegister (st : State) : State :=
  let st :=
    if bool_decide (direction_ st = CLIENT) && negotiation_complete_ st
    then set_write_io_ true st else st in
  set_is_epoll_registered_ true (set_read_io_ true st).

(** [Connection::MarkNegotiationComplete] *)
Definition MarkNegotiationComplete (st : State) : State :=
  set_negotiation_complete_ true st.

(** [Connection::Idle] *)
Definition Idle (st : State) : bool :=
  match inbound_ st with
  | Some t => if TransferStarted t then false else true
  | None => true
  end
  && bool_decide (outbound_transfers_ st = [])
  && bool_decide (awaiting_response_ st = ∅)
  && bool_decide (calls_being_handled_ st = ∅)
  && negotiation_complete_ st.

(** [Connection::~Connection]: the two [CHECK]s of the destructor. *)
Definition Connection_delete (st : State) : option unit :=
  if negb (bool_decide (outbound_transfers_ st = [])) then None else
  if is_epoll_registered_ st then None else Some ().

(** ** Introspection *)

(** Modelled from the spec: [RpcConnectionPB] (rpc_introspection.proto is not
    part of the sources), by the fields that [DumpPB] sets.  An entry of
    [calls_in_flight] is named by the call whose [DumpPB] fills it. *)
Inductive StateType := NEGOTIATING | OPEN.

Inductive RpcCallInProgressPB :=
| OutboundCallPB (call : Handle)
| InboundCallPB (call : InboundCall).

Record RpcConnectionPB := mkRpcConnectionPB {
  remote_ip : string;
  state : StateType;
  remote_user_credentials : option string;
  calls_in_flight : list RpcCallInProgressPB
}.

(** [user_credentials_], the member that [set_user_credentials] writes and
    that [DumpPB] prints, kept beside the state.  Modelled from the spec:
    [UserCredentials] (not part of the sources), by what its [ToString]
    prints. *)
Record Credentialed := mkCredentialed {
  connection : State;
  user_credentials_ : string
}.

(** [Connection::set_user_credentials] *)
Definition set_user_credentials (user_credentials : string) (c : Credentialed)
  : Credentialed :=
  mkCredentialed (connection c) user_credentials.

(** [Connection::DumpPB]; the entries of [calls_in_flight] come in the order
    in which the map is walked. *)
Definition DumpPB (c : Credentialed) : Status * RpcConnectionPB :=
  let st := connection c in
  (Status_OK,
   mkRpcConnectionPB
     (remote_ st)
     (if negotiation_complete_ st then OPEN else NEGOTIATING)
     (if negotiation_complete_ st then Some (user_credentials_ c) else None)
     (match direction_ st with
      | CLIENT =>
          omap (fun entry : Z * CallAwaitingResponse => OutboundCallPB <$> car_call entry.2)
            (map_to_list (awaiting_response_ st))
      | SERVER =>
          (fun entry : Z * InboundCall => InboundCallPB entry.2)
            <$> map_to_list (calls_being_handled_ st)
      end)).

(** ** The methods *)

Section Model.

(** The status that [~OutboundTransfer] hands to [NotifyTransferAborted] when a
    transfer is destroyed before it was sent or aborted (transfer.cc is not
    part of the sources).  [Shutdown] destroys the queued transfers with a
    plain [delete t], the destructor takes no argument, and a transfer is
    constructed from its slices, its callbacks and a histogram only: whatever
    the status is, it is one status, the same for every [Shutdown]. *)
Variable transfer_destroyed : Status.

(** [Connection::Shutdown], given the loop that clears [outbound_transfers_]
    (defined below, once the destructors it runs are). *)
Fixpoint fail_awaiting (status : Status) (cars : list (Z * CallAwaitingResponse))
    (st : State) : option State :=
  match cars with
  | [] => Some st
  | (_, c) :: cars' =>
      st1 ← match car_call c with
            | Some h => SetFailed h status st
            | None => Some st
            end;
      fail_awaiting status cars' st1
  end.

Definition Shutdown_with (clear : State -> option State) (status : Status) (st : State)
  : option State :=
  let st := set_shutdowns (shutdowns st ++ [status]) (set_shutdown_status_ status st) in
  let st :=
    match inbound_ st with
    | Some t =>
        if TransferStarted t then LOG WARNING (LogShutdownPendingInbound status) st else st
    | None => st
    end in
  st ← fail_awaiting status (map_to_list (awaiting_response_ st)) st;
  let st := set_awaiting_response_ ∅ st in
  st ← clear st;
  Some (set_socket_open_ false
         (set_is_epoll_registered_ false (set_write_io_ false (set_read_io_ false st)))).

(** [Connection::HandleOutboundCallTimeout], the entry named by its key. *)
Definition HandleOutboundCallTimeout (id : Z) (st : State) : option State :=
  car ← awaiting_response_ st !! id;
  h ← car_call car;
  call ← calls st !! h;
  if IsFinished call then None else
  st ← SetTimedOut h st;
  Some (set_awaiting_response_
          (<[id := mkCar None (timeout_timer car)]> (awaiting_response_ st)) st).

(** [Connection::HandleCallResponse] *)
Definition HandleCallResponse (transfer : InboundTransfer) (st : State) : option State :=
  let f := parse transfer in
  if negb (ok (frame_status f)) then None else
  let resp := mkCallResponse (frame_call_id f) (frame_body f) in
  match awaiting_response_ st !! resp_call_id resp with
  | None => Some (LOG WARNING (LogResponseNotPending (resp_call_id resp)) st)
  | Some car =>
      let st := set_awaiting_response_ (delete (resp_call_id resp) (awaiting_response_ st)) st in
      match car_call car with
      | None => Some (LOG VLOG1 (LogResponseAfterTimeout (resp_call_id resp)) st)
      | Some h => SetResponse h resp st
      end
  end.

(** [Messenger::QueueInboundCall] *)
Definition QueueInboundCall (call : InboundCall) (st : State) : State :=
  set_messenger_queue (messenger_queue st ++ [call]) st.

Section Handlers.

(** Modelled from the spec: [ReactorThread::DestroyConnection] (reactor.cc is
    not part of the sources), the request for terminal tear-down.  It is a
    variable here because the tear-down runs destructors that call back into
    the methods of this section; it is bound to [Shutdown] below. *)
Variable DestroyConnection : Status -> State -> option State.

(** [YBConnection::HandleIncomingCall] *)
Definition YB_HandleIncomingCall (transfer : InboundTransfer) (st : State) : option State :=
  let s := frame_status (parse transfer) in
  let call := mkInboundCall (frame_call_id (parse transfer)) (frame_body (parse transfer)) in
  if negb (ok s) then DestroyConnection s (LOG WARNING (LogBadData s) st) else
  match calls_being_handled_ st !! ic_call_id call with
  | Some _ =>
      DestroyConnection
        (STATUS2 kRuntimeError "Received duplicate call id" (pretty (ic_call_id call)))
        (LOG WARNING (LogDuplicateCallId (ic_call_id call)) st)
  | None =>
      Some (QueueInboundCall call
              (set_calls_being_handled_
                 (<[ic_call_id call := call]> (calls_being_handled_ st)) st))
  end.

(** [RedisConnection::HandleIncomingCall] *)
Definition Redis_HandleIncomingCall (transfer : InboundTransfer) (st : State)
  : option State :=
  let s := frame_status (parse transfer) in
  let call := mkInboundCall (frame_call_id (parse transfer)) (frame_body (parse transfer)) in
  if negb (ok s) then DestroyConnection s (LOG WARNING (LogBadData s) st) else
  Some (QueueInboundCall call (set_processing_call_ true st)).

(** [CQLConnection::HandleIncomingCall] *)
Definition CQL_HandleIncomingCall (transfer : InboundTransfer) (st : State) : option State :=
  let s := frame_status (parse transfer) in
  let call := mkInboundCall (frame_call_id (parse transfer)) (frame_body (parse transfer)) in
  if negb (ok s) then Some (LOG WARNING (LogBadData s) st) else
  Some (QueueInboundCall call st).

(** [YBConnection::HandleFinishedTransfer] *)
Definition YB_HandleFinishedTransfer (st : State) : option State :=
  transfer ← inbound_ st;
  let st := set_inbound_ None st in
  match direction_ st with
  | CLIENT => HandleCallResponse transfer st
  | SERVER => YB_HandleIncomingCall transfer st
  end.

(** [RedisConnection::HandleFinishedTransfer] *)
Definition Redis_HandleFinishedTransfer (st : State) : option State :=
  if processing_call_ st then Some st else
  if negb (bool_decide (direction_ st = SERVER)) then None else
  transfer ← inbound_ st;
  let next_transfer := ExcessData transfer in
  st ← Redis_HandleIncomingCall transfer (set_inbound_ None st);
  Some (set_inbound_ next_transfer st).

(** [CQLConnection::HandleFinishedTransfer] *)
Definition CQL_HandleFinishedTransfer (st : State) : option State :=
  if negb (bool_decide (direction_ st = SERVER)) then None else
  transfer ← inbound_ st;
  CQL_HandleIncomingCall transfer (set_inbound_ None st).

(** The virtual [HandleFinishedTransfer]. *)
Definition HandleFinishedTransfer (st : State) : option State :=
  match protocol_ st with
  | YB => YB_HandleFinishedTransfer st
  | Redis => Redis_HandleFinishedTransfer st
  | CQL => CQL_HandleFinishedTransfer st
  end.

(** [RedisConnection::FinishedHandlingACall] *)
Definition Redis_FinishedHandlingACall (st : State) : option State :=
  let st := set_processing_call_ false st in
  match inbound_ st with
  | Some t => if TransferFinished t then Redis_HandleFinishedTransfer st else Some st
  | None => Some st
  end.

(** [CQLConnection::FinishedHandlingACall] *)
Definition CQL_FinishedHandlingACall (st : State) : option State :=
  match inbound_ st with
  | Some t => if TransferFinished t then CQL_HandleFinishedTransfer st else Some st
  | None => Some st
  end.

(** [delete this] in a [TransferCallbacks]: the destructors of
    [YBResponseTransferCallbacks], [RedisResponseTransferCallbacks] and
    [CQLResponseTransferCallbacks]; [CallTransferCallbacks] has none. *)
Definition delete_callbacks (cb : TransferCallbacks) (st : State) : option State :=
  match cb with
  | CallTransferCallbacks _ => Some st
  | YBResponseTransferCallbacks call =>
      call_from_map ← calls_being_handled_ st !! ic_call_id call;
      if bool_decide (call_from_map = call)
      then Some (set_calls_being_handled_
                   (delete (ic_call_id call) (calls_being_handled_ st)) st)
      else None
  | RedisResponseTransferCallbacks _ => Redis_FinishedHandlingACall st
  | CQLResponseTransferCallbacks _ => CQL_FinishedHandlingACall st
  end.

(** [CallTransferCallbacks::NotifyTransferFinished],
    [ResponseTransferCallbacks::NotifyTransferFinished] *)
Definition NotifyTransferFinished (cb : TransferCallbacks) (st : State) : option State :=
  match cb with
  | CallTransferCallbacks h =>
      call ← calls st !! h;
      if IsFinished call
      then (if IsTimedOut call then Some st else None)
      else SetSent h st
  | _ => delete_callbacks cb st
  end.

(** [CallTransferCallbacks::NotifyTransferAborted],
    [ResponseTransferCallbacks::NotifyTransferAborted] *)
Definition NotifyTransferAborted (cb : TransferCallbacks) (status : Status) (st : State)
  : option State :=
  match cb with
  | CallTransferCallbacks h =>
      Some (LOG VLOG1 (LogTornDownBeforeSendCall h status) st)
  | YBResponseTransferCallbacks call
  | RedisResponseTransferCallbacks call
  | CQLResponseTransferCallbacks call =>
      delete_callbacks cb (LOG WARNING (LogTornDownBeforeSendResponse call) st)
  end.

(** Modelled from the spec: [OutboundTransfer::Abort] invokes the callback with
    the aborted signal and the status it is given. *)
Definition OutboundTransfer_Abort (t : OutboundTransfer) (status : Status) (st : State)
  : option State :=
  NotifyTransferAborted (callbacks t) status
    (fire_transfer_edge (transfer_id t) (TransferAbortedEdge status) st).

(** Modelled from the spec: [~OutboundTransfer].  A transfer on which neither
    callback edge has fired is aborted by its destruction, so that exactly one
    edge fires per transfer. *)
Definition OutboundTransfer_delete (t : OutboundTransfer) (st : State) : option State :=
  if finished_ t || aborted_ t then Some st
  else OutboundTransfer_Abort t transfer_destroyed st.

(** Modelled from the spec: the [SendBuffer] that completes the transfer at the
    head of the queue.  The transfer is finished from then on, and its
    callback is invoked with the finished signal. *)
Definition SendBuffer_finished (t : OutboundTransfer) (st : State) : option State :=
  let st :=
    set_outbound_transfers_
      (match outbound_transfers_ st with
       | t0 :: rest => transfer_set_finished t0 :: rest
       | [] => []
       end) st in
  NotifyTransferFinished (callbacks t)
    (fire_transfer_edge (transfer_id t) TransferFinishedEdge st).

(** [Connection::QueueOutbound] *)
Definition QueueOutbound (transfer : OutboundTransfer) (st : State) : option State :=
  if negb (ok (shutdown_status_ st)) then
    st ← OutboundTransfer_Abort transfer (shutdown_status_ st) st;
    OutboundTransfer_delete (transfer_set_aborted transfer) st
  else
    let st := set_outbound_transfers_ (outbound_transfers_ st ++ [transfer]) st in
    Some (if negotiation_complete_ st && negb (write_io_ st)
          then set_write_io_ true st else st).

(** [Connection::GetNextCallId].  Modelled from the spec: connection.h is not
    part of the sources; call ids increase by one from the constructor's 1 and
    are not reused. *)
Definition GetNextCallId (st : State) : Z * State :=
  (next_call_id_ st, set_next_call_id_ (next_call_id_ st + 1)%Z st).

(** [Connection::QueueOutboundCall] *)
Definition QueueOutboundCall (h : Handle) (st : State) : option State :=
  call ← calls st !! h;
  if negb (bool_decide (direction_ st = CLIENT)) then None else
  if negb (ok (shutdown_status_ st)) then SetFailed h (shutdown_status_ st) st else
  if call_id_assigned call then None else
  let '(call_id, st) := GetNextCallId st in
  st ← set_call_id h call_id st;
  let '(s, slices_tmp) := serialized_ call in
  if negb (ok s) then SetFailed h s st else
  st ← SetQueued h st;
  let car := mkCar (Some h) (timeout_initialized_ call) in
  let cb := CallTransferCallbacks h in
  let st := set_awaiting_response_ (<[call_id := car]> (awaiting_response_ st)) st in
  let '(transfer, st) := new_OutboundTransfer slices_tmp cb st in
  QueueOutbound transfer st.

(** [YBConnection::GetResponseTransferCallback] and its two overrides. *)
Definition GetResponseTransferCallback (call : InboundCall) (st : State)
  : TransferCallbacks :=
  match protocol_ st with
  | YB => YBResponseTransferCallbacks call
  | Redis => RedisResponseTransferCallbacks call
  | CQL => CQLResponseTransferCallbacks call
  end.

(** [Connection::QueueResponseForCall], followed by the [QueueTransferTask::Run]
    that it schedules; [slices] is what [SerializeResponseTo] yields. *)
Definition QueueResponseForCall (call : InboundCall) (sl : list string) (st : State)
  : option State :=
  if negb (bool_decide (direction_ st = SERVER)) then None else
  let cb := GetResponseTransferCallback call st in
  let '(t, st) := new_OutboundTransfer sl cb st in
  QueueOutbound t st.

(** [QueueTransferTask::Run] *)
Definition QueueTransferTask_Run (transfer : OutboundTransfer) (st : State)
  : option State :=
  QueueOutbound transfer st.

(** [QueueTransferTask::Abort]: the reactor shuts down before the task has
    run; the transfer is aborted and goes with the task. *)
Definition QueueTransferTask_Abort (transfer : OutboundTransfer) (status : Status)
    (st : State) : option State :=
  st ← OutboundTransfer_Abort transfer status st;
  OutboundTransfer_delete (transfer_set_aborted transfer) st.

(** [Connection::ReadHandler].  [recv] is what [ReceiveBuffer] returns and what
    it leaves of the inbound transfer. *)
Definition ReadHandler (ev_error : bool) (recv : Status * InboundTransfer) (st : State)
  : option State :=
  if ev_error then
    DestroyConnection
      (STATUS kNetworkError (ToString st +:+ ": ReadHandler encountered an error")) st
  else
  let st := match inbound_ st with
            | None => set_inbound_ (Some new_InboundTransfer) st
            | Some _ => st
            end in
  let '(status, transfer) := recv in
  if negb (ok status) then
    DestroyConnection status
      (if bool_decide (posix_code status = ESHUTDOWN)
       then LOG VLOG1 LogRemoteShutdown st
       else LOG WARNING (LogRecvError status) st)
  else
  let st := set_inbound_ (Some transfer) st in
  if negb (TransferFinished transfer) then Some st else
  HandleFinishedTransfer st.

(** The [while] loop of [Connection::WriteHandler]; [sends] lists what the
    successive [SendBuffer] calls come to, the socket taking nothing more once
    the list is used up. *)
Fixpoint write_loop (sends : list SendOutcome) (st : State) : option State :=
  match outbound_transfers_ st with
  | [] => Some (set_write_io_ false st)
  | transfer :: _ =>
      match sends with
      | [] | SendPartial :: _ => Some st
      | SendError status :: _ =>
          DestroyConnection status (LOG WARNING (LogSendError status) st)
      | SendComplete :: sends' =>
          st1 ← SendBuffer_finished transfer st;
          let st2 := set_outbound_transfers_ (tail (outbound_transfers_ st1)) st1 in
          st3 ← OutboundTransfer_delete (transfer_set_finished transfer) st2;
          write_loop sends' st3
      end
  end.

(** [Connection::WriteHandler] *)
Definition WriteHandler (ev_error : bool) (sends : list SendOutcome) (st : State)
  : option State :=
  if ev_error then
    DestroyConnection
      (STATUS kNetworkError (ToString st +:+ ": writeHandler encountered an error")) st
  else
  match outbound_transfers_ st with
  | [] => Some (set_write_io_ false (LOG WARNING LogNothingToWrite st))
  | _ :: _ => write_loop sends st
  end.

End Handlers.

(** The loop of [Connection::Shutdown] that pops and deletes the queued
    transfers.  A destructor may tear the connection down again (a Redis
    response callback that finds a parked frame which does not parse): that
    inner [Shutdown] runs the same loop on what is left of the queue.  [n]
    bounds the number of iterations; the queue's length is enough, since
    every iteration pops one transfer and none is added. *)
Fixpoint clear_outbound_transfers (n : nat) (st : State) : option State :=
  match n with
  | O => Some st
  | S n' =>
      match outbound_transfers_ st with
      | [] => Some st
      | t :: rest =>
          st1 ← OutboundTransfer_delete (Shutdown_with (clear_outbound_transfers n'))
                  t (set_outbound_transfers_ rest st);
          clear_outbound_transfers n' st1
      end
  end.

(** [Connection::Shutdown] *)
Definition Shutdown (status : Status) (st : State) : option State :=
  Shutdown_with (clear_outbound_transfers (length (outbound_transfers_ st))) status st.

(** Modelled from the spec: [ReactorThread::DestroyConnection] tears the
    connection down with the status. *)
Definition DestroyConnection : Status -> State -> option State := Shutdown.

(** ** Runs of a connection *)

(** [CallAwaitingResponse::HandleTimeout], run by the reactor when the
    one-shot timer of the entry expires; the timer is stopped by then. *)
Definition HandleTimeout (id : Z) (st : State) : option State :=
  car ← awaiting_response_ st !! id;
  if timeout_timer car then
    HandleOutboundCallTimeout id
      (set_awaiting_response_
         (<[id := mkCar (car_call car) false]> (awaiting_response_ st)) st)
  else None.

(** What the reactor and the callers of a connection do to it. *)
Inductive Event :=
| EvEpollRegister
| EvMarkNegotiationComplete
| EvShutdown (status : Status)
| EvQueueOutboundCall (call : Handle)
| EvQueueResponseForCall (call : InboundCall) (sl : list string)
| EvReadHandler (ev_error : bool) (recv : Status * InboundTransfer)
| EvWriteHandler (ev_error : bool) (sends : list SendOutcome)
| EvTimeout (call_id : Z).

Definition step (e : Event) (st : State) : option State :=
  match e with
  | EvEpollRegister => Some (EpollRegister st)
  | EvMarkNegotiationComplete => Some (MarkNegotiationComplete st)
  | EvShutdown status => Shutdown status st
  | EvQueueOutboundCall h => QueueOutboundCall DestroyConnection h st
  | EvQueueResponseForCall call sl => QueueResponseForCall DestroyConnection call sl st
  | EvReadHandler ev_error recv => ReadHandler DestroyConnection ev_error recv st
  | EvWriteHandler ev_error sends => WriteHandler DestroyConnection ev_error sends st
  | EvTimeout id => HandleTimeout id st
  end.

Fixpoint run (tr : list Event) (st : State) : option State :=
  match tr with
  | [] => Some st
  | e :: tr' => st1 ← step e st; run tr' st1
  end.

(** Every [MarkNegotiationComplete] of the run finds the outbound queue empty. *)
Fixpoint negotiation_completes_idle (tr : list Event) (st : State) : Prop :=
  match tr with
  | [] => True
  | e :: tr' =>
      match e with
      | EvMarkNegotiationComplete => outbound_transfers_ st = []
      | _ => True
      end /\
      match step e st with
      | Some st1 => negotiation_completes_idle tr' st1
      | None => True
      end
  end.

(** The call that an invocation of [QueueOutboundCall] takes on: the one it
    does not reject for shutdown. *)
Definition accepted (e : Event) (st : State) : option Handle :=
  match e with
  | EvQueueOutboundCall h => if ok (shutdown_status_ st) then Some h else None
  | _ => None
  end.

(** [call->call_id()] right after each invocation of [QueueOutboundCall] that
    was not rejected for shutdown, in the order of the invocations. *)
Fixpoint assigned_call_ids (tr : list Event) (st : State) : list (option Z) :=
  match tr with
  | [] => []
  | e :: tr' =>
      match step e st with
      | None => []
      | Some st1 =>
          match accepted e st with
          | Some h => [calls st1 !! h ≫= call_id_]
          | None => []
          end ++ assigned_call_ids tr' st1
      end
  end.

End Model.

(** * Vocabulary of the properties *)

(** [needle] occurs in [hay]. *)
Fixpoint mentions (needle hay : string) : bool :=
  String.prefix needle hay ||
  match hay with
  | EmptyString => false
  | String _ hay' => mentions needle hay'
  end.

(** ** What the methods leave alone *)

(** The members that the handling of inbound calls does not touch by itself:
    everything but [calls_being_handled_], [inbound_], [processing_call_], the
    log and the messenger's queue. *)
Record same_core (st st' : State) : Prop := mk_same_core {
  sc_this : this_ st' = this_ st;
  sc_remote : remote_ st' = remote_ st;
  sc_protocol : protocol_ st' = protocol_ st;
  sc_direction : direction_ st' = direction_ st;
  sc_epoll : is_epoll_registered_ st' = is_epoll_registered_ st;
  sc_next_call_id : next_call_id_ st' = next_call_id_ st;
  sc_negotiation : negotiation_complete_ st' = negotiation_complete_ st;
  sc_shutdown_status : shutdown_status_ st' = shutdown_status_ st;
  sc_awaiting : awaiting_response_ st' = awaiting_response_ st;
  sc_outbound : outbound_transfers_ st' = outbound_transfers_ st;
  sc_read_io : read_io_ st' = read_io_ st;
  sc_write_io : write_io_ st' = write_io_ st;
  sc_socket : socket_open_ st' = socket_open_ st;
  sc_calls : calls st' = calls st;
  sc_edges : transfer_edges st' = transfer_edges st;
  sc_made : transfers_made st' = transfers_made st;
  sc_shutdowns : shutdowns st' = shutdowns st
}.

(** A run of handlers between two states: nothing of the core changes, or the
    connection is torn down once on the way. *)
Inductive via (DC : Status -> State -> option State) (st st' : State) : Prop :=
| via_same : same_core st st' -> via DC st st'
| via_destroy s st0 st1 :
    same_core st st0 -> DC s st0 = Some st1 -> same_core st1 st' -> via DC st st'.

(** The entries of the pending map that hold the call [h]. *)
Definition holders (h : Handle) (m : gmap Z CallAwaitingResponse)
  : list (Z * CallAwaitingResponse) :=
  filter (fun kc => car_call kc.2 = Some h) (map_to_list m).

Definition live (h : Handle) (st : State) : Prop :=
  exists id car, awaiting_response_ st !! id = Some car /\ car_call car = Some h.

(** The edges that destroying the transfers [ts] fires. *)
Definition destroyed_edges (d : Status) (ts : list OutboundTransfer)
  : list (nat * TransferEdge) :=
  omap (fun t => if finished_ t || aborted_ t then None
                 else Some (transfer_id t, TransferAbortedEdge d)) ts.

(** What [Shutdown status] makes of a state. *)
Record torn_down (d status : Status) (st st' : State) : Prop := mk_torn_down {
  td_this : this_ st' = this_ st;
  td_remote : remote_ st' = remote_ st;
  td_protocol : protocol_ st' = protocol_ st;
  td_direction : direction_ st' = direction_ st;
  td_next_call_id : next_call_id_ st' = next_call_id_ st;
  td_negotiation : negotiation_complete_ st' = negotiation_complete_ st;
  td_made : transfers_made st' = transfers_made st;
  td_awaiting : awaiting_response_ st' = ∅;
  td_outbound : outbound_transfers_ st' = [];
  td_epoll : is_epoll_registered_ st' = false;
  td_read_io : read_io_ st' = false;
  td_write_io : write_io_ st' = false;
  td_socket : socket_open_ st' = false;
  td_calls : forall h,
    calls st' !! h
    = Nat.iter (length (holders h (awaiting_response_ st)))
        (call_finish (StFailed status) (EdgeFailed status)) <$> calls st !! h;
  td_valid : forall h,
    holders h (awaiting_response_ st) <> [] -> is_Some (calls st !! h);
  td_edges :
    transfer_edges st' = transfer_edges st ++ destroyed_edges d (outbound_transfers_ st);
  td_shutdowns : exists more,
    shutdowns st' = shutdowns st ++ status :: more /\
    shutdown_status_ st' ∈ status :: more
}.

(** What the loop of [Shutdown] makes of a state with no pending call. *)
Record cleared (d : Status) (st st' : State) : Prop := mk_cleared {
  cl_this : this_ st' = this_ st;
  cl_remote : remote_ st' = remote_ st;
  cl_protocol : protocol_ st' = protocol_ st;
  cl_direction : direction_ st' = direction_ st;
  cl_next_call_id : next_call_id_ st' = next_call_id_ st;
  cl_negotiation : negotiation_complete_ st' = negotiation_complete_ st;
  cl_made : transfers_made st' = transfers_made st;
  cl_awaiting : awaiting_response_ st' = ∅;
  cl_outbound : outbound_transfers_ st' = [];
  cl_calls : calls st' = calls st;
  cl_edges :
    transfer_edges st' = transfer_edges st ++ destroyed_edges d (outbound_transfers_ st);
  cl_shutdowns : exists more,
    shutdowns st' = shutdowns st ++ more /\
    (shutdown_status_ st' ∈ more \/ (more = [] /\ shutdown_status_ st' = shutdown_status_ st))
}.

(** ** Atomic changes *)

(** [QueueOutbound] restarting the write watcher. *)
Definition start_write (st : State) : State :=
  if negotiation_complete_ st && negb (write_io_ st) then set_write_io_ true st else st.

(** The changes that the methods other than [QueueOutboundCall] and
    [MarkNegotiationComplete] make to the core of a state, one at a time. *)
Inductive atom (d : Status) (st st' : State) : Prop :=
| A_core : same_core st st' -> atom d st st'
| A_torn s : torn_down d s st st' -> atom d st st'
| A_epoll : same_core (EpollRegister st) st' -> atom d st st'
| A_write_stop :
    outbound_transfers_ st = [] ->
    same_core (set_write_io_ false st) st' -> atom d st st'
| A_push sl cb :
    ok (shutdown_status_ st) = true ->
    (forall h, cb <> CallTransferCallbacks h) ->
    same_core
      (start_write
         (set_outbound_transfers_
            (outbound_transfers_ st ++ [mkOutbound (transfers_made st) sl cb false false])
            (set_transfers_made (S (transfers_made st)) st))) st' ->
    atom d st st'
| A_abort_new :
    ok (shutdown_status_ st) = false ->
    same_core
      (fire_transfer_edge (transfers_made st) (TransferAbortedEdge (shutdown_status_ st))
         (set_transfers_made (S (transfers_made st)) st)) st' ->
    atom d st st'
| A_response id car h c r :
    awaiting_response_ st !! id = Some car ->
    car_call car = Some h ->
    calls st !! h = Some c ->
    same_core
      (set_calls (<[h := call_finish (StResponded r) (EdgeResponse r) c]> (calls st))
         (set_awaiting_response_ (delete id (awaiting_response_ st)) st)) st' ->
    atom d st st'
| A_late id car :
    awaiting_response_ st !! id = Some car ->
    car_call car = None ->
    same_core (set_awaiting_response_ (delete id (awaiting_response_ st)) st) st' ->
    atom d st st'
| A_timeout id car h c :
    awaiting_response_ st !! id = Some car ->
    timeout_timer car = true ->
    car_call car = Some h ->
    calls st !! h = Some c ->
    IsFinished c = false ->
    same_core
      (set_calls (<[h := call_finish StTimedOut EdgeTimedOut c]> (calls st))
         (set_awaiting_response_ (<[id := mkCar None false]> (awaiting_response_ st)) st))
      st' ->
    atom d st st'
| A_sent_call t rest h c :
    outbound_transfers_ st = t :: rest ->
    callbacks t = CallTransferCallbacks h ->
    calls st !! h = Some c ->
    (IsFinished c = true -> IsTimedOut c = true) ->
    same_core
      (set_outbound_transfers_ rest
         (set_calls
            (if IsFinished c then calls st
             else <[h := call_set_state StSent c]> (calls st))
            (fire_transfer_edge (transfer_id t) TransferFinishedEdge st))) st' ->
    atom d st st'
| A_sent t rest :
    outbound_transfers_ st = t :: rest ->
    same_core
      (set_outbound_transfers_ rest
         (fire_transfer_edge (transfer_id t) TransferFinishedEdge st)) st' ->
    atom d st st'
| A_sent_torn t rest s :
    outbound_transfers_ st = t :: rest ->
    torn_down d s
      (fire_transfer_edge (transfer_id t) TransferFinishedEdge
         (set_outbound_transfers_ (transfer_set_finished t :: rest) st)) st' ->
    atom d st st'.

(** The three outcomes of [QueueOutboundCall h]. *)
Definition enqueue_rejected (h : Handle) (st st' : State) : Prop :=
  exists c,
    direction_ st = CLIENT /\ calls st !! h = Some c /\
    ok (shutdown_status_ st) = false /\
    st' = set_calls
            (<[h := call_finish (StFailed (shutdown_status_ st))
                      (EdgeFailed (shutdown_status_ st)) c]> (calls st)) st.

Definition enqueue_unserialized (h : Handle) (st st' : State) : Prop :=
  exists c,
    direction_ st = CLIENT /\ calls st !! h = Some c /\
    ok (shutdown_status_ st) = true /\ call_id_ c = None /\
    ok (serialized_ c).1 = false /\
    st' = set_calls
            (<[h := call_finish (StFailed (serialized_ c).1) (EdgeFailed (serialized_ c).1)
                      (call_set_call_id (next_call_id_ st) c)]> (calls st))
            (set_next_call_id_ (next_call_id_ st + 1) st).

Definition enqueued (h : Handle) (st st' : State) : Prop :=
  exists c,
    direction_ st = CLIENT /\ calls st !! h = Some c /\
    ok (shutdown_status_ st) = true /\ call_id_ c = None /\
    ok (serialized_ c).1 = true /\
    st' = start_write
            (set_outbound_transfers_
               (outbound_transfers_ st ++
                [mkOutbound (transfers_made st) (serialized_ c).2 (CallTransferCallbacks h)
                   false false])
               (set_transfers_made (S (transfers_made st))
                  (set_awaiting_response_
                     (<[next_call_id_ st := mkCar (Some h) (timeout_initialized_ c)]>
                        (awaiting_response_ st))
                     (set_calls
                        (<[h := call_set_state StQueued
                                  (call_set_call_id (next_call_id_ st) c)]> (calls st))
                        (set_next_call_id_ (next_call_id_ st + 1) st))))).

(** ** Invariants *)

(** The invariant of the write watcher: a queue that is not empty is being
    watched for write readiness, unless negotiation has not completed. *)
Definition write_armed (st : State) : Prop :=
  outbound_transfers_ st = [] \/ write_io_ st = true \/ negotiation_complete_ st = false.

(** The transfers whose callbacks a [YBConnection] creates. *)
Definition yb_callbacks (t : OutboundTransfer) : Prop :=
  match callbacks t with
  | CallTransferCallbacks _ | YBResponseTransferCallbacks _ => True
  | RedisResponseTransferCallbacks _ | CQLResponseTransferCallbacks _ => False
  end.


(** The callback edges fired so far on the transfer [id]. *)
Definition edges_of (id : nat) (st : State) : list (nat * TransferEdge) :=
  filter (fun e => e.1 = id) (transfer_edges st).




(** The calls handed to [QueueOutboundCall] in a run. *)
Definition queued_calls (tr : list Event) : list Handle :=
  omap (fun e => match e with EvQueueOutboundCall h => Some h | _ => None end) tr.

(** The calls of a heap are new: no terminal edge has fired, no call id is
    assigned. *)
Definition fresh_heap (heap : gmap Handle OutboundCall) : Prop :=
  map_Forall (fun _ c => fired_ c = [] /\ call_id_ c = None) heap.

(** The status of a failed edge is one that [Shutdown] was given, or the one
    that serializing the call returned. *)
Definition failure_expected (st : State) (c : OutboundCall) (e : TerminalEdge) : Prop :=
  forall s, e = EdgeFailed s -> s ∈ shutdowns st \/ s = (serialized_ c).1.

(** The invariant of the outbound calls, [P] being the calls handed to
    [QueueOutboundCall] so far: a call in the pending map under a live handle
    has no terminal edge, one that was handed over and is not there has
    exactly one, and a call not yet handed over has none. *)
Record call_inv (P : list Handle) (st : State) : Prop := mk_call_inv {
  ci_keys : forall id car,
    awaiting_response_ st !! id = Some car -> (id < next_call_id_ st)%Z;
  ci_unique : forall id1 id2 car1 car2 h,
    awaiting_response_ st !! id1 = Some car1 ->
    awaiting_response_ st !! id2 = Some car2 ->
    car_call car1 = Some h -> car_call car2 = Some h -> id1 = id2;
  ci_live : forall id car h,
    awaiting_response_ st !! id = Some car -> car_call car = Some h ->
    h ∈ P /\ exists c, calls st !! h = Some c /\ fired_ c = [];
  ci_done : forall h,
    h ∈ P -> ~ live h st ->
    exists c e, calls st !! h = Some c /\ fired_ c = [e] /\ failure_expected st c e;
  ci_fresh : forall h c, calls st !! h = Some c -> h ∉ P -> fired_ c = [];
  ci_status : ok (shutdown_status_ st) = false -> shutdown_status_ st ∈ shutdowns st
}.

(** ** Example runs *)

Definition ex_destroyed : Status := STATUS kRuntimeError "transfer destroyed".
Definition ex_network_error : Status := STATUS kNetworkError "recv error".
Definition ex_not_serializable : Status := STATUS kInvalidArgument "no request".

Definition ex_call (timeout : bool) : OutboundCall :=
  mkOutboundCall None StReady (Status_OK, ["R1"]) timeout [].
Definition ex_bad_call : OutboundCall :=
  mkOutboundCall None StReady (ex_not_serializable, []) false [].

Definition ex_heap : gmap Handle OutboundCall :=
  <[0 := ex_call true]> (<[1 := ex_call true]> (<[2 := ex_call false]> (<[3 := ex_bad_call]> ∅))).

Definition ex_client : State := Connection_new "0x1" "10.0.0.2:7100" YB CLIENT ex_heap.
Definition ex_server (p : Protocol) : State :=
  Connection_new "0x2" "10.0.0.3:51000" p SERVER ∅.

(** A complete frame that parses, with call id [id], and one that does not. *)
Definition ex_frame (id : Z) (body : string) : InboundTransfer :=
  mkInbound true true (mkFrame Status_OK id body) None.
Definition ex_bad_frame : InboundTransfer :=
  mkInbound true true (mkFrame (STATUS kCorruption "bad header") 0 EmptyString) None.

(** Two Redis requests that arrive in one read: the second is the excess data
    of the first. *)
Definition ex_two_requests : InboundTransfer :=
  mkInbound true true (mkFrame Status_OK 0 "GET a") (Some (ex_frame 0 "GET b")).

(** Three calls are queued, negotiation completes, two are sent; the first
    times out, the second is answered, then the late answer to the first
    arrives. *)
Definition ex_client_run : list Event :=
  [EvQueueOutboundCall 0; EvQueueOutboundCall 1; EvQueueOutboundCall 2;
   EvMarkNegotiationComplete; EvEpollRegister;
   EvWriteHandler false [SendComplete; SendComplete; SendPartial];
   EvTimeout 1;
   EvReadHandler false (Status_OK, ex_frame 2 "P2");
   EvReadHandler false (Status_OK, ex_frame 1 "P1")].

(** The state that a run ends in, [st] when it aborts. *)
Definition after (d : Status) (tr : list Event) (st : State) : State :=
  default st (run d tr st).

(** ** Serving, shutting down, introspection *)

(** The call [h] has failed with status [s], this being the last edge fired
    on it. *)
Definition failed_with (h : Handle) (s : Status) (st : State) : Prop :=
  exists c, calls st !! h = Some c /\ state_ c = StFailed s /\
            last (fired_ c) = Some (EdgeFailed s).

(** The connection is torn down with status [s]: nothing is pending or queued
    any more, the watchers are stopped, the socket is closed, and every call
    that was pending under a live handle has failed with [s]. *)
Definition torn_with (s : Status) (st st' : State) : Prop :=
  awaiting_response_ st' = ∅ /\ outbound_transfers_ st' = [] /\
  read_io_ st' = false /\ write_io_ st' = false /\
  is_epoll_registered_ st' = false /\ socket_open_ st' = false /\
  forall id car h,
    awaiting_response_ st !! id = Some car -> car_call car = Some h ->
    failed_with h s st'.

(** The call that [ParseFrom] builds from a transfer. *)
Definition call_of (t : InboundTransfer) : InboundCall :=
  mkInboundCall (frame_call_id (parse t)) (frame_body (parse t)).

(** One request is read whole, its response is queued and sent whole. *)
Definition serve_one (t : InboundTransfer) (sl : list string) : list Event :=
  [EvReadHandler false (Status_OK, t);
   EvQueueResponseForCall (call_of t) sl;
   EvWriteHandler false [SendComplete]].

(** What [ReadHandler] makes of a state when the whole of a request that
    parses is read, by protocol. *)
Definition dispatched (t : InboundTransfer) (st : State) : State :=
  match protocol_ st with
  | YB =>
      QueueInboundCall (call_of t)
        (set_calls_being_handled_
           (<[frame_call_id (parse t) := call_of t]> (calls_being_handled_ st))
           (set_inbound_ None st))
  | Redis =>
      set_inbound_ (ExcessData t) (QueueInboundCall (call_of t) (set_processing_call_ true st))
  | CQL => QueueInboundCall (call_of t) (set_inbound_ None st)
  end.

(** Every [MarkNegotiationComplete] of the run is directly followed by
    [EpollRegister]. *)
Fixpoint registered_on_completion (tr : list Event) : Prop :=
  match tr with
  | [] => True
  | EvMarkNegotiationComplete :: tr' =>
      match tr' with
      | EvEpollRegister :: tr'' => registered_on_completion tr''
      | _ => False
      end
  | _ :: tr' => registered_on_completion tr'
  end.

(** The read watcher runs exactly while the connection is registered, and the
    socket is open exactly as long as [Shutdown] has not run. *)
Definition watching (st : State) : Prop :=
  read_io_ st = is_epoll_registered_ st /\
  (socket_open_ st = true <-> shutdowns st = []).

(** [f] keeps the invariant [I]. *)
Definition keeps (I : State -> Prop) (f : State -> option State) : Prop :=
  forall st st', I st -> f st = Some st' -> I st'.

(** The callbacks that a Redis connection attaches to its responses. *)
Definition redis_callbacks (t : OutboundTransfer) : Prop :=
  match callbacks t with RedisResponseTransferCallbacks _ => True | _ => False end.

(** The calls handed to the messenger and not answered yet: at most one, and
    none unless [processing_call_] is set.  A call is answered when the
    callback edge of a response transfer has fired. *)
Definition one_in_flight (st : State) : Prop :=
  protocol_ st = Redis /\ direction_ st = SERVER /\
  Forall redis_callbacks (outbound_transfers_ st) /\
  length (messenger_queue st)
  <= length (transfer_edges st) + (if processing_call_ st then 1 else 0).

(** The invariant of the calls being served on a connection of protocol [p]:
    every entry of [calls_being_handled_] is filed under the call id of its
    call, which was handed to the messenger; only a YB connection files
    calls; and a connection other than a Redis one never sets
    [processing_call_] and never leaves a finished inbound transfer parked. *)
Definition served (p : Protocol) (st : State) : Prop :=
  protocol_ st = p /\
  map_Forall (fun id c => ic_call_id c = id /\ c ∈ messenger_queue st)
    (calls_being_handled_ st) /\
  (p <> YB -> calls_being_handled_ st = ∅) /\
  (p <> Redis ->
   processing_call_ st = false /\
   forall t, inbound_ st = Some t -> TransferFinished t = false).

(** The pending entry of the call id [id] is the tombstone of a call that
    timed out. *)
Definition tombstone (id : Z) (st : State) : Prop :=
  exists b, awaiting_response_ st !! id = Some (mkCar None b).

(** Since the state [st0], in which the call id [id] had been assigned, the
    tombstone of [id] is still in the pending map, unless the connection has
    been torn down or the late response to [id] has arrived. *)
Definition outstanding (id : Z) (st0 st : State) : Prop :=
  (id < next_call_id_ st0)%Z /\
  (next_call_id_ st0 <= next_call_id_ st)%Z /\
  length (shutdowns st0) <= length (shutdowns st) /\
  (tombstone id st \/
   length (shutdowns st0) < length (shutdowns st) \/
   (VLOG1, LogResponseAfterTimeout id) ∈ log st).

(** The connection is shut down for good: [QueueOutbound] and
    [QueueOutboundCall] see a shutdown status that is not OK, nothing is
    queued or pending, and the socket is closed. *)
Definition shut_down (st : State) : Prop :=
  ok (shutdown_status_ st) = false /\
  outbound_transfers_ st = [] /\ awaiting_response_ st = ∅ /\
  socket_open_ st = false.

(** No [Shutdown] of the run is given an OK status. *)
Definition error_if_shutdown (e : Event) : bool :=
  match e with EvShutdown s => negb (ok s) | _ => true end.
Definition shutdowns_with_errors (tr : list Event) : Prop :=
  Forall (fun e => error_if_shutdown e = true) tr.

(** On a server the write watcher is active only while something is queued. *)
Definition write_on_demand (st : State) : Prop :=
  direction_ st = SERVER /\ (write_io_ st = true -> outbound_transfers_ st <> []).

(** [Shutdown] was given a status that is not OK. *)
Definition shutdown_status_not_ok (st : State) : Prop :=
  ok (shutdown_status_ st) = false.

(** What [QueueOutboundCall h] makes of a state that takes the call [c]. *)
Definition enqueue (h : Handle) (c : OutboundCall) (st : State) : State :=
  start_write
    (set_outbound_transfers_
       (outbound_transfers_ st ++
        [mkOutbound (transfers_made st) (serialized_ c).2 (CallTransferCallbacks h)
           false false])
       (set_transfers_made (S (transfers_made st))
          (set_awaiting_response_
             (<[next_call_id_ st := mkCar (Some h) (timeout_initialized_ c)]>
                (awaiting_response_ st))
             (set_calls
                (<[h := call_set_state StQueued (call_set_call_id (next_call_id_ st) c)]>
                   (calls st))
                (set_next_call_id_ (next_call_id_ st + 1) st))))).

(** A call is queued, sent whole, and its response is read whole. *)
Definition call_and_response (h : Handle) (t : InboundTransfer) : list Event :=
  [EvQueueOutboundCall h;
   EvWriteHandler false [SendComplete];
   EvReadHandler false (Status_OK, t)].

(** Two requests are read whole, one after the other. *)
Definition two_requests (t1 t2 : InboundTransfer) : list Event :=
  [EvReadHandler false (Status_OK, t1); EvReadHandler false (Status_OK, t2)].

(** ** Further example runs *)

(** A connection on which the negotiation has completed and which is
    registered with the event loop. *)
Definition ex_open (st : State) : State :=
  after ex_destroyed [EvMarkNegotiationComplete; EvEpollRegister] st.

(** A client with the calls 0 and 1 pending. *)
Definition ex_two_pending : State :=
  after ex_destroyed [EvQueueOutboundCall 0; EvQueueOutboundCall 1] ex_client.

(** The response to the request 42 of a YB server, before the task that
    queues it has run. *)
Definition ex_response : OutboundTransfer :=
  mkOutbound 0 ["response"] (YBResponseTransferCallbacks (mkInboundCall 42 "request"))
    false false.
Definition ex_serving : State :=
  set_transfers_made 1
    (after ex_destroyed [EvEpollRegister; EvReadHandler false (Status_OK, ex_frame 42 "request")]
       (ex_server YB)).


(** Two Redis requests arrive in one read; the first is answered. *)
Definition ex_redis_run : list Event :=
  [EvMarkNegotiationComplete; EvEpollRegister;
   EvReadHandler false (Status_OK, ex_two_requests);
   EvQueueResponseForCall (mkInboundCall 0 "GET a") ["+a"];
   EvWriteHandler false [SendComplete]].

(** A YB server has read the request 42. *)
Definition ex_request_run : list Event :=
  [EvEpollRegister; EvReadHandler false (Status_OK, ex_frame 42 "request")].

(** The call 0 is pending under the id 1 on an open client connection. *)
Definition ex_one_pending : State :=
  after ex_destroyed [EvQueueOutboundCall 0; EvWriteHandler false [SendComplete]]
    (ex_open ex_client).

(** What happens to a connection after it was shut down. *)
Definition ex_late_run : list Event :=
  [EvEpollRegister; EvQueueOutboundCall 1; EvShutdown ex_destroyed;
   EvReadHandler false (Status_OK, ex_frame 1 "P1"); EvWriteHandler false [SendComplete]].

(** A CQL server has read a request, and its response is queued. *)
Definition ex_cql_run : list Event :=
  [EvMarkNegotiationComplete; EvEpollRegister;
   EvReadHandler false (Status_OK, ex_frame 0 "SELECT 1");
   EvQueueResponseForCall (mkInboundCall 0 "SELECT 1") ["rows"]].

(** * Properties *)

(** ** Basic facts *)

Lemma same_core_refl st : same_core st st.
Proof. by split. Qed.

Lemma same_core_trans st1 st2 st3 :
  same_core st1 st2 -> same_core st2 st3 -> same_core st1 st3.
Proof. intros [] []; split; congruence. Qed.

Lemma via_core_l DC st0 st st' : same_core st0 st -> via DC st st' -> via DC st0 st'.
Proof.
  intros H0 [H|s sta stb Ha Hd Hb].
  - apply via_same. by eapply same_core_trans.
  - eapply via_destroy; [|exact Hd|exact Hb]. by eapply same_core_trans.
Qed.

Lemma via_core_r DC st st' st1 : via DC st st' -> same_core st' st1 -> via DC st st1.
Proof.
  intros [H|s sta stb Ha Hd Hb] H1.
  - apply via_same. by eapply same_core_trans.
  - eapply via_destroy; [exact Ha|exact Hd|]. by eapply same_core_trans.
Qed.

Lemma torn_down_core d s st0 st st' st1 :
  same_core st0 st -> torn_down d s st st' -> same_core st' st1 -> torn_down d s st0 st1.
Proof.
  intros [] [] []. split; try congruence.
  all: try (intros h; congruence).
  all: try (intros h; rewrite <- sc_awaiting0, <- sc_calls0; by apply td_valid0).
  destruct td_shutdowns0 as (more & ? & ?). exists more. split; congruence.
Qed.

#[local] Hint Resolve same_core_refl : core.

Ltac core_tac := split; simpl; reflexivity.

Section HandlerFacts.

Variable DC : Status -> State -> option State.

Lemma YB_HandleIncomingCall_via t st st' :
  YB_HandleIncomingCall DC t st = Some st' -> via DC st st'.
Proof.
  unfold YB_HandleIncomingCall. intros H.
  destruct (ok _).
  - simpl in H. destruct (calls_being_handled_ st !! _).
    + eapply via_destroy; [|exact H|done]. core_tac.
    + injection H as <-. apply via_same. core_tac.
  - simpl in H. eapply via_destroy; [|exact H|done]. core_tac.
Qed.

Lemma Redis_HandleIncomingCall_via t st st' :
  Redis_HandleIncomingCall DC t st = Some st' -> via DC st st'.
Proof.
  unfold Redis_HandleIncomingCall. intros H.
  destruct (ok _); simpl in H.
  - injection H as <-. apply via_same. core_tac.
  - eapply via_destroy; [|exact H|done]. core_tac.
Qed.

Lemma CQL_HandleIncomingCall_via t st st' :
  CQL_HandleIncomingCall t st = Some st' -> same_core st st'.
Proof.
  unfold CQL_HandleIncomingCall. intros H.
  destruct (ok _); simpl in H; injection H as <-; core_tac.
Qed.

Lemma Redis_HandleFinishedTransfer_via st st' :
  Redis_HandleFinishedTransfer DC st = Some st' -> via DC st st'.
Proof.
  unfold Redis_HandleFinishedTransfer. intros H.
  destruct (processing_call_ st).
  { injection H as <-. by apply via_same. }
  destruct (negb _); [done|].
  destruct (inbound_ st) as [t|]; [|done]. simpl in H.
  destruct (Redis_HandleIncomingCall DC t _) as [st1|] eqn:E; [|done].
  simpl in H. injection H as <-.
  apply Redis_HandleIncomingCall_via in E.
  eapply via_core_l; [|eapply via_core_r; [exact E|]]; core_tac.
Qed.

Lemma CQL_HandleFinishedTransfer_via st st' :
  CQL_HandleFinishedTransfer st = Some st' -> same_core st st'.
Proof.
  unfold CQL_HandleFinishedTransfer. intros H.
  destruct (negb _); [done|].
  destruct (inbound_ st) as [t|]; [|done]. simpl in H.
  apply CQL_HandleIncomingCall_via in H.
  eapply same_core_trans; [|exact H]. core_tac.
Qed.

Lemma delete_callbacks_via cb st st' :
  delete_callbacks DC cb st = Some st' -> via DC st st'.
Proof.
  destruct cb as [h|call|call|call]; simpl; intros H.
  - injection H as <-. by apply via_same.
  - destruct (calls_being_handled_ st !! _) as [c|]; [|done]. simpl in H.
    destruct (bool_decide _); [|done]. injection H as <-. apply via_same. core_tac.
  - unfold Redis_FinishedHandlingACall in H. simpl in H.
    destruct (inbound_ st) as [t|].
    + destruct (TransferFinished t).
      * apply Redis_HandleFinishedTransfer_via in H.
        eapply via_core_l; [|exact H]. core_tac.
      * injection H as <-. apply via_same. core_tac.
    + injection H as <-. apply via_same. core_tac.
  - unfold CQL_FinishedHandlingACall in H.
    destruct (inbound_ st) as [t|].
    + destruct (TransferFinished t).
      * apply via_same. by apply CQL_HandleFinishedTransfer_via.
      * injection H as <-. by apply via_same.
    + injection H as <-. by apply via_same.
Qed.

Lemma NotifyTransferAborted_via cb s st st' :
  NotifyTransferAborted DC cb s st = Some st' -> via DC st st'.
Proof.
  destruct cb as [h|call|call|call]; simpl; intros H.
  - injection H as <-. apply via_same. core_tac.
  - destruct (calls_being_handled_ st !! _) as [c|]; [|done]. simpl in H.
    destruct (bool_decide _); [|done]. injection H as <-. apply via_same. core_tac.
  - change (delete_callbacks DC (RedisResponseTransferCallbacks call)
              (LOG WARNING (LogTornDownBeforeSendResponse call) st) = Some st') in H.
    apply delete_callbacks_via in H. eapply via_core_l; [|exact H]. core_tac.
  - change (delete_callbacks DC (CQLResponseTransferCallbacks call)
              (LOG WARNING (LogTornDownBeforeSendResponse call) st) = Some st') in H.
    apply delete_callbacks_via in H. eapply via_core_l; [|exact H]. core_tac.
Qed.

End HandlerFacts.

(** ** Tear-down *)

Lemma update_call_Some h f st st' :
  update_call h f st = Some st' ->
  exists c, calls st !! h = Some c /\ st' = set_calls (<[h := f c]> (calls st)) st.
Proof.
  unfold update_call. destruct (calls st !! h) as [c|]; [|done].
  simpl. intros [= <-]. eauto.
Qed.

Lemma fail_awaiting_spec s l st st' :
  fail_awaiting s l st = Some st' ->
  st' = set_calls (calls st') st /\
  forall h,
    calls st' !! h
    = Nat.iter (length (filter (fun kc : Z * CallAwaitingResponse => car_call kc.2 = Some h) l))
        (call_finish (StFailed s) (EdgeFailed s)) <$> calls st !! h /\
    (filter (fun kc : Z * CallAwaitingResponse => car_call kc.2 = Some h) l <> [] ->
     is_Some (calls st !! h)).
Proof.
  revert st. induction l as [|[k c] l IH]; intros st; simpl.
  - intros [= <-]. split; [by destruct st|]. intros h.
    split; [by destruct (calls st !! h)|done].
  - destruct (car_call c) as [h0|] eqn:Ec.
    + destruct (SetFailed h0 s st) as [st1|] eqn:E1; [|done]. simpl.
      intros H. apply IH in H as [Hst Hc].
      apply update_call_Some in E1 as (c0 & Hc0 & ->). simpl in *.
      split; [by rewrite Hst|].
      intros h. destruct (Hc h) as [Hc1 Hc2]. rewrite Hc1. rewrite filter_cons. simpl.
      rewrite Ec.
      destruct (decide (Some h0 = Some h)) as [[= ->]|Hne].
      * rewrite lookup_insert_eq, Hc0. simpl. by rewrite Nat.iter_swap.
      * rewrite lookup_insert_ne by congruence. split; [done|].
        intros Hne'. specialize (Hc2 Hne'). by rewrite lookup_insert_ne in Hc2 by congruence.
    + simpl. intros H. apply IH in H as [Hst Hc]. split; [done|].
      intros h. destruct (Hc h) as [Hc1 Hc2]. rewrite Hc1, filter_cons. simpl. rewrite Ec.
      by destruct (decide (None = Some h)).
Qed.

Section TearDown.

Variable d : Status.

Lemma holders_empty h : holders h ∅ = [].
Proof. unfold holders. by rewrite map_to_list_empty. Qed.

Lemma Shutdown_with_torn clear s st st' :
  (forall st1 st2,
     outbound_transfers_ st1 = outbound_transfers_ st ->
     awaiting_response_ st1 = ∅ ->
     clear st1 = Some st2 -> cleared d st1 st2) ->
  Shutdown_with clear s st = Some st' -> torn_down d s st st'.
Proof.
  intros Hclear. unfold Shutdown_with.
  set (sta := match inbound_ _ with Some _ => _ | None => _ end).
  assert (Ha : same_core (set_shutdowns (shutdowns st ++ [s]) (set_shutdown_status_ s st)) sta).
  { unfold sta. simpl. destruct (inbound_ st) as [t|]; [destruct (TransferStarted t)|];
      core_tac. }
  destruct (fail_awaiting s _ sta) as [stb|] eqn:Eb; [|done]. simpl.
  apply fail_awaiting_spec in Eb as [Hb Hcalls].
  destruct (clear _) as [stc|] eqn:Ec; [|done]. simpl. intros [= <-].
  destruct Ha. simpl in *.
  apply Hclear in Ec; [|rewrite Hb; simpl; congruence|done].
  destruct Ec. rewrite Hb in *. simpl in *.
  split; simpl; try congruence.
  - intros h. rewrite cl_calls0. destruct (Hcalls h) as [-> _]. unfold holders.
    by rewrite sc_awaiting0, sc_calls0.
  - intros h Hh. destruct (Hcalls h) as [_ Hv]. unfold holders in Hh.
    rewrite sc_awaiting0, sc_calls0 in Hv. by apply Hv.
  - destruct cl_shutdowns0 as (more & Hs & Hm). exists more.
    rewrite Hs, sc_shutdowns0, <- app_assoc. split; [done|].
    destruct Hm as [Hm|[-> Hm]].
    + by apply list_elem_of_further.
    + rewrite Hm, sc_shutdown_status0. apply list_elem_of_here.
Qed.

Lemma OutboundTransfer_delete_via DC t st st' :
  OutboundTransfer_delete d DC t st = Some st' ->
  (finished_ t || aborted_ t = true /\ st' = st) \/
  (finished_ t || aborted_ t = false /\
   via DC (fire_transfer_edge (transfer_id t) (TransferAbortedEdge d) st) st').
Proof.
  unfold OutboundTransfer_delete, OutboundTransfer_Abort.
  destruct (finished_ t || aborted_ t).
  - intros [= <-]. by left.
  - intros H. right. split; [done|]. by eapply NotifyTransferAborted_via.
Qed.

Lemma clear_outbound_transfers_nil n st :
  outbound_transfers_ st = [] -> clear_outbound_transfers d n st = Some st.
Proof. intros H. destruct n; simpl; [done|]. by rewrite H. Qed.

Lemma cleared_nil st :
  awaiting_response_ st = ∅ -> outbound_transfers_ st = [] -> cleared d st st.
Proof.
  intros Ha Ho. split; try done.
  - rewrite Ho. simpl. by rewrite app_nil_r.
  - exists []. rewrite app_nil_r. split; [done|]. by right.
Qed.

Lemma clear_outbound_transfers_spec n :
  forall st st',
    length (outbound_transfers_ st) <= n ->
    awaiting_response_ st = ∅ ->
    clear_outbound_transfers d n st = Some st' -> cleared d st st'.
Proof.
  induction n as [|n IH]; intros st st' Hlen Hempty; simpl.
  - intros [= <-]. apply cleared_nil; [done|].
    destruct (outbound_transfers_ st); [done|simpl in Hlen; lia].
  - destruct (outbound_transfers_ st) as [|t rest] eqn:Eo.
    { intros [= <-]. by apply cleared_nil. }
    simpl in Hlen.
    destruct (OutboundTransfer_delete _ _ t _) as [st1|] eqn:E1; [|done]. simpl.
    intros Hrec.
    apply OutboundTransfer_delete_via in E1 as [[Hfa ->]|[Hfa Hvia]].
    + apply IH in Hrec; [|simpl; lia|done]. destruct Hrec. simpl in *.
      split; try done. rewrite Eo. simpl. by rewrite Hfa.
    + destruct Hvia as [Hsame|s st0 st1' Hsame Hdc Hsame'].
      * destruct Hsame. simpl in *.
        apply IH in Hrec; [|rewrite sc_outbound0; lia|congruence].
        destruct Hrec. split; try congruence.
        -- rewrite Eo. simpl. rewrite Hfa. rewrite cl_edges0, sc_edges0, sc_outbound0.
           by rewrite <- app_assoc.
        -- destruct cl_shutdowns0 as (more & Hs & Hm). exists more.
           rewrite Hs, sc_shutdowns0. split; [done|].
           destruct Hm as [Hm|[-> Hm]]; [by left|right]. split; [done|]. congruence.
      * apply Shutdown_with_torn in Hdc.
        2:{ intros sta stb Hout Haw. apply IH; [|done].
            rewrite Hout. destruct Hsame. simpl in *. rewrite sc_outbound0. lia. }
        assert (Hst1 : outbound_transfers_ st1 = []).
        { destruct Hsame', Hdc. congruence. }
        rewrite clear_outbound_transfers_nil in Hrec by done. injection Hrec as <-.
        destruct Hsame, Hdc, Hsame'. simpl in *.
        split; try congruence.
        -- apply map_eq. intros h. rewrite sc_calls1, td_calls0, sc_awaiting0, Hempty.
           rewrite holders_empty. simpl. rewrite sc_calls0.
           by destruct (calls st !! h).
        -- rewrite Eo. simpl. rewrite Hfa. rewrite sc_edges1, td_edges0, sc_edges0, sc_outbound0.
           by rewrite <- app_assoc.
        -- destruct td_shutdowns0 as (more & Hs & Hm). exists (s :: more).
           rewrite sc_shutdowns1, Hs, sc_shutdowns0. split; [done|].
           left. congruence.
Qed.

Lemma Shutdown_torn_down s st st' :
  Shutdown d s st = Some st' -> torn_down d s st st'.
Proof.
  apply Shutdown_with_torn. intros st1 st2 Ho Ha.
  apply clear_outbound_transfers_spec; [by rewrite Ho|done].
Qed.

(** The loop of [Shutdown] is given enough iterations: more change nothing. *)
Lemma via_Shutdown_torn_down st st' :
  via (DestroyConnection d) st st' ->
  same_core st st' \/ exists s, torn_down d s st st'.
Proof.
  intros [H|s st0 st1 H0 Hd H1]; [by left|right].
  exists s. eapply torn_down_core; [exact H0| |exact H1].
  by apply Shutdown_torn_down.
Qed.

End TearDown.

(** ** Every method as a sequence of atomic changes *)

Section Atoms.

Variable d : Status.

Lemma via_atom st st0 st' :
  same_core st st0 -> via (DestroyConnection d) st0 st' -> atom d st st'.
Proof.
  intros H0 Hv. apply (via_core_l _ _ _ _ H0) in Hv.
  apply via_Shutdown_torn_down in Hv as [H|[s H]]; [by apply A_core|by eapply A_torn].
Qed.

Lemma DestroyConnection_atom s st st0 st' :
  same_core st st0 -> DestroyConnection d s st0 = Some st' -> atom d st st'.
Proof.
  intros H0 H. apply (via_atom _ st0); [done|]. by eapply via_destroy.
Qed.

Lemma QueueOutboundCall_cases h st st' :
  QueueOutboundCall d (DestroyConnection d) h st = Some st' ->
  enqueue_rejected h st st' \/ enqueue_unserialized h st st' \/ enqueued h st st'.
Proof.
  unfold QueueOutboundCall.
  destruct (calls st !! h) as [c|] eqn:Ec; [|done]. simpl.
  destruct (bool_decide (direction_ st = CLIENT)) eqn:Ed; [|done].
  apply bool_decide_eq_true in Ed. simpl.
  destruct (ok (shutdown_status_ st)) eqn:Eok; simpl.
  2:{ intros H. left. apply update_call_Some in H as (c' & Hc' & ->).
      exists c. by simplify_eq. }
  unfold call_id_assigned. destruct (call_id_ c) eqn:Eid; [done|].
  unfold set_call_id, update_call. simpl. rewrite Ec. simpl.
  destruct (serialized_ c) as [s sl] eqn:Es.
  destruct (ok s) eqn:Eoks; simpl.
  - unfold SetQueued, update_call. simpl. rewrite lookup_insert_eq. simpl.
    rewrite insert_insert_eq. unfold QueueOutbound. simpl. rewrite Eok. simpl.
    intros [= <-]. right; right. exists c. rewrite Es. simpl. done.
  - unfold SetFailed, update_call. simpl. rewrite lookup_insert_eq. simpl.
    rewrite insert_insert_eq. intros [= <-]. right; left. exists c. rewrite Es. done.
Qed.

Lemma QueueOutbound_atoms sl cb st st' :
  (forall h, cb <> CallTransferCallbacks h) ->
  QueueOutbound d (DestroyConnection d)
    (mkOutbound (transfers_made st) sl cb false false)
    (set_transfers_made (S (transfers_made st)) st) = Some st' ->
  rtc (atom d) st st'.
Proof.
  intros Hcb. unfold QueueOutbound. simpl.
  destruct (ok (shutdown_status_ st)) eqn:Eok; simpl.
  - intros [= <-]. apply rtc_once. by eapply A_push.
  - unfold OutboundTransfer_Abort. simpl.
    destruct (NotifyTransferAborted _ _ _ _) as [st1|] eqn:E1; [|done]. simpl.
    intros [= <-]. apply NotifyTransferAborted_via in E1.
    eapply rtc_l; [by apply A_abort_new|].
    apply rtc_once. by eapply via_atom.
Qed.

Lemma QueueResponseForCall_atoms call sl st st' :
  QueueResponseForCall d (DestroyConnection d) call sl st = Some st' ->
  rtc (atom d) st st'.
Proof.
  unfold QueueResponseForCall. destruct (negb _); [done|]. simpl.
  apply QueueOutbound_atoms. unfold GetResponseTransferCallback.
  by destruct (protocol_ st).
Qed.

Lemma HandleCallResponse_atom t st0 st st' :
  same_core st st0 ->
  HandleCallResponse t st0 = Some st' -> atom d st st'.
Proof.
  intros Hs. unfold HandleCallResponse.
  destruct (negb _); [done|]. simpl.
  destruct (awaiting_response_ st0 !! _) as [car|] eqn:Ea.
  - destruct (car_call car) as [h|] eqn:Ec.
    + intros H. apply update_call_Some in H as (c & Hc & ->). simpl in *.
      destruct Hs.
      eapply (A_response _ _ _ _ car h c
                (mkCallResponse (frame_call_id (parse t)) (frame_body (parse t))));
        [by rewrite <- sc_awaiting0|done|by rewrite <- sc_calls0|].
      split; simpl; congruence.
    + intros [= <-]. destruct Hs.
      eapply A_late; [by rewrite <- sc_awaiting0|done|]. split; simpl; congruence.
  - intros [= <-]. apply A_core. eapply same_core_trans; [exact Hs|]. core_tac.
Qed.

Lemma ReadHandler_atom ev_error recv st st' :
  ReadHandler (DestroyConnection d) ev_error recv st = Some st' -> atom d st st'.
Proof.
  unfold ReadHandler. destruct ev_error.
  { by apply DestroyConnection_atom. }
  set (sti := match inbound_ st with None => _ | Some _ => st end).
  assert (Hi : same_core st sti).
  { unfold sti. destruct (inbound_ st); core_tac. }
  clearbody sti. destruct recv as [status t].
  destruct (ok status); simpl.
  2:{ apply DestroyConnection_atom. eapply same_core_trans; [exact Hi|].
      destruct (bool_decide _); core_tac. }
  destruct (TransferFinished t); simpl.
  2:{ intros [= <-]. apply A_core. eapply same_core_trans; [exact Hi|]. core_tac. }
  assert (Hj : same_core st (set_inbound_ (Some t) sti)).
  { eapply same_core_trans; [exact Hi|]. core_tac. }
  unfold HandleFinishedTransfer. simpl. destruct (protocol_ sti).
  - unfold YB_HandleFinishedTransfer. simpl.
    assert (Hk : same_core st (set_inbound_ None (set_inbound_ (Some t) sti))).
    { eapply same_core_trans; [exact Hi|]. core_tac. }
    destruct (direction_ sti).
    + by apply HandleCallResponse_atom.
    + intros H. apply YB_HandleIncomingCall_via in H. by eapply via_atom.
  - intros H. apply Redis_HandleFinishedTransfer_via in H. by eapply via_atom.
  - intros H. apply CQL_HandleFinishedTransfer_via in H.
    apply A_core. by eapply same_core_trans.
Qed.

Lemma HandleTimeout_atom id st st' :
  HandleTimeout id st = Some st' -> atom d st st'.
Proof.
  unfold HandleTimeout.
  destruct (awaiting_response_ st !! id) as [car|] eqn:Ea; [|done]. simpl.
  destruct (timeout_timer car) eqn:Et; [|done].
  unfold HandleOutboundCallTimeout. simpl. rewrite lookup_insert_eq. simpl.
  destruct (car_call car) as [h|] eqn:Ec; [|done]. simpl.
  destruct (calls st !! h) as [c|] eqn:Eh; [|done]. simpl.
  destruct (IsFinished c) eqn:Ef; [done|].
  unfold SetTimedOut, update_call. simpl. rewrite Eh. simpl.
  intros [= <-]. eapply A_timeout; try done.
  split; simpl; try reflexivity. by rewrite insert_insert_eq.
Qed.

Lemma write_loop_atoms sends :
  forall st st',
    write_loop d (DestroyConnection d) sends st = Some st' -> rtc (atom d) st st'.
Proof.
  induction sends as [|o sends IH]; intros st st'; simpl.
  - destruct (outbound_transfers_ st) eqn:Eo; intros [= <-].
    + apply rtc_once. by apply A_write_stop.
    + apply rtc_refl.
  - destruct (outbound_transfers_ st) as [|t rest] eqn:Eo.
    { intros [= <-]. apply rtc_once. by apply A_write_stop. }
    destruct o as [s| |].
    + intros H. apply rtc_once. eapply DestroyConnection_atom; [|exact H]. core_tac.
    + intros [= <-]. apply rtc_refl.
    + destruct (SendBuffer_finished _ t st) as [st1|] eqn:E1; [|done]. simpl.
      unfold OutboundTransfer_delete. simpl. intros H. apply IH in H.
      eapply rtc_l; [|exact H]. clear H IH.
      unfold SendBuffer_finished in E1. rewrite Eo in E1.
      destruct (callbacks t) as [h|call|call|call] eqn:Ecb.
      1:{ simpl in E1. destruct (calls st !! h) as [c|] eqn:Eh; [|done]. simpl in E1.
          eapply (A_sent_call _ _ _ t rest h c); try done.
          - intros Hf. rewrite Hf in E1. by destruct (IsTimedOut c).
          - destruct (IsFinished c).
            + destruct (IsTimedOut c); [|done]. injection E1 as <-. core_tac.
            + unfold SetSent, update_call in E1. simpl in E1. rewrite Eh in E1.
              injection E1 as <-. core_tac. }
      all: cbv beta iota delta [NotifyTransferFinished] in E1;
        apply delete_callbacks_via in E1; destruct E1 as [Hs|s st0 st1' Hs Hd Hs'].
      all: try (eapply A_sent; [done|]; destruct Hs; split; simpl in *; try congruence;
                by rewrite sc_outbound0).
      all: eapply (A_sent_torn _ _ _ t rest s); [done|];
        apply Shutdown_torn_down in Hd;
        (eapply torn_down_core; [exact Hs|exact Hd|]);
        destruct Hs', Hd; split; simpl; try congruence;
        by rewrite sc_outbound0, td_outbound0.
Qed.

Lemma WriteHandler_atoms ev_error sends st st' :
  WriteHandler d (DestroyConnection d) ev_error sends st = Some st' ->
  rtc (atom d) st st'.
Proof.
  unfold WriteHandler. destruct ev_error.
  { intros H. apply rtc_once. by eapply DestroyConnection_atom. }
  destruct (outbound_transfers_ st) eqn:Eo.
  - intros [= <-]. apply rtc_once. apply A_write_stop; [done|]. core_tac.
  - intros H. apply write_loop_atoms in H. done.
Qed.

(** Every method, as a sequence of atomic changes. *)
Lemma step_atoms e st st' :
  step d e st = Some st' ->
  match e with
  | EvQueueOutboundCall h =>
      enqueue_rejected h st st' \/ enqueue_unserialized h st st' \/ enqueued h st st'
  | EvMarkNegotiationComplete => st' = MarkNegotiationComplete st
  | _ => rtc (atom d) st st'
  end.
Proof.
  destruct e; simpl.
  - intros [= <-]. apply rtc_once. by apply A_epoll.
  - by intros [= <-].
  - intros H. apply rtc_once. eapply A_torn. by apply Shutdown_torn_down.
  - apply QueueOutboundCall_cases.
  - apply QueueResponseForCall_atoms.
  - intros H. apply rtc_once. by eapply ReadHandler_atom.
  - apply WriteHandler_atoms.
  - intros H. apply rtc_once. by eapply HandleTimeout_atom.
Qed.

End Atoms.

(** ** Single methods *)

Section Methods.

Variable d : Status.

Lemma finish_iter (k : nat) (s : CallState) (e : TerminalEdge) (c : OutboundCall) :
  state_ (Nat.iter (S k) (call_finish s e) c) = s /\
  last (fired_ (Nat.iter (S k) (call_finish s e) c)) = Some e.
Proof. simpl. split; [done|]. apply last_snoc. Qed.

(** C2.  After [Shutdown s] the pending-call map and the outbound queue are
    empty, the connection is no longer registered with epoll, and every call
    that the pending map held with a live handle is in the failed state with
    status [s], the edge fired last on it being [Failed s]. *)
Theorem Shutdown_completeness (s : Status) (st st' : State) :
  Shutdown d s st = Some st' ->
  awaiting_response_ st' = ∅ /\
  outbound_transfers_ st' = [] /\
  is_epoll_registered_ st' = false /\
  forall id car h,
    awaiting_response_ st !! id = Some car ->
    car_call car = Some h ->
    exists c, calls st' !! h = Some c /\
              state_ c = StFailed s /\
              last (fired_ c) = Some (EdgeFailed s).
Proof.
  intros H. apply Shutdown_torn_down in H. destruct H.
  repeat split; try done.
  intros id car h Hid Hh.
  assert (Hin : (id, car) ∈ holders h (awaiting_response_ st)).
  { unfold holders. apply list_elem_of_filter. split; [done|].
    by apply elem_of_map_to_list. }
  assert (Hne : holders h (awaiting_response_ st) <> []).
  { intros E. rewrite E in Hin. by apply not_elem_of_nil in Hin. }
  destruct (td_valid0 h Hne) as [c Hc].
  rewrite td_calls0, Hc.
  destruct (holders h (awaiting_response_ st)) as [|x l]; [done|].
  eexists. split; [reflexivity|]. apply finish_iter.
Qed.

(** C4.  [HandleOutboundCallTimeout] marks the call timed out and clears the
    handle of the pending entry, which stays in the map; a response that
    arrives for an entry whose handle is cleared removes the entry, changes
    no call and adds no warning to the log. *)
Theorem late_response_after_timeout (id : Z) (car : CallAwaitingResponse)
    (h : Handle) (c : OutboundCall) (st : State) :
  awaiting_response_ st !! id = Some car ->
  car_call car = Some h ->
  calls st !! h = Some c ->
  IsFinished c = false ->
  exists st1,
    HandleOutboundCallTimeout id st = Some st1 /\
    (exists c1, calls st1 !! h = Some c1 /\ state_ c1 = StTimedOut /\
                fired_ c1 = fired_ c ++ [EdgeTimedOut]) /\
    awaiting_response_ st1 !! id = Some (mkCar None (timeout_timer car)) /\
    forall transfer st2 car2,
      awaiting_response_ st2 !! id = Some car2 ->
      car_call car2 = None ->
      ok (frame_status (parse transfer)) = true ->
      frame_call_id (parse transfer) = id ->
      exists st3,
        HandleCallResponse transfer st2 = Some st3 /\
        awaiting_response_ st3 !! id = None /\
        calls st3 = calls st2 /\
        log_warnings st3 = log_warnings st2.
Proof.
  intros Ha Hc Hh Hf. unfold HandleOutboundCallTimeout.
  rewrite Ha. simpl. rewrite Hc. simpl. rewrite Hh. simpl. rewrite Hf.
  unfold SetTimedOut, update_call. rewrite Hh. simpl.
  eexists. split; [reflexivity|]. simpl. split; [|split].
  - eexists. split; [apply lookup_insert_eq|]. done.
  - apply lookup_insert_eq.
  - intros transfer st2 car2 Ha2 Hc2 Hok Hid. unfold HandleCallResponse.
    rewrite Hok. simpl. rewrite Hid, Ha2, Hc2.
    eexists. split; [reflexivity|]. simpl. split; [apply lookup_delete_eq|].
    split; [done|]. unfold log_warnings. simpl. rewrite omap_app. simpl.
    by rewrite app_nil_r.
Qed.

(** C10.  A parsed response whose call id has no entry in the pending-call map
    is ignored: the state is the one before with a warning added to the log,
    so that no call changes and the connection is not torn down. *)
Theorem response_not_pending_ignored (transfer : InboundTransfer) (st : State) :
  ok (frame_status (parse transfer)) = true ->
  awaiting_response_ st !! frame_call_id (parse transfer) = None ->
  exists st',
    HandleCallResponse transfer st = Some st' /\
    st' = LOG WARNING (LogResponseNotPending (frame_call_id (parse transfer))) st /\
    calls st' = calls st /\
    awaiting_response_ st' = awaiting_response_ st /\
    shutdowns st' = shutdowns st /\
    shutdown_status_ st' = shutdown_status_ st /\
    is_epoll_registered_ st' = is_epoll_registered_ st /\
    log_warnings st' = log_warnings st ++ [LogResponseNotPending (frame_call_id (parse transfer))].
Proof.
  intros Hok Hnone. unfold HandleCallResponse. rewrite Hok. simpl. rewrite Hnone.
  eexists. split; [reflexivity|]. repeat split.
  unfold log_warnings. simpl. by rewrite omap_app.
Qed.

Lemma clear_outbound_transfers_YB n :
  forall st st',
    Forall yb_callbacks (outbound_transfers_ st) ->
    clear_outbound_transfers d n st = Some st' ->
    messenger_queue st' = messenger_queue st /\ shutdowns st' = shutdowns st /\
    shutdown_status_ st' = shutdown_status_ st.
Proof.
  induction n as [|n IH]; intros st st' Hyb; simpl.
  { by intros [= <-]. }
  destruct (outbound_transfers_ st) as [|t rest] eqn:Eo.
  { by intros [= <-]. }
  apply Forall_cons in Hyb as [Ht Hrest].
  unfold OutboundTransfer_delete, OutboundTransfer_Abort.
  destruct (finished_ t || aborted_ t); simpl.
  - intros H. apply IH in H; [|done]. done.
  - unfold yb_callbacks in Ht. destruct (callbacks t) as [h|call|call|call]; try done; simpl.
    + intros H. apply IH in H; [|done]. done.
    + destruct (calls_being_handled_ st !! _); [|done]. simpl.
      destruct (bool_decide _); [|done]. simpl.
      intros H. apply IH in H; [|done]. done.
Qed.

Lemma Shutdown_YB s st st' :
  Forall yb_callbacks (outbound_transfers_ st) ->
  Shutdown d s st = Some st' ->
  messenger_queue st' = messenger_queue st /\
  shutdown_status_ st' = s /\
  shutdowns st' = shutdowns st ++ [s].
Proof.
  intros Hyb. unfold Shutdown, Shutdown_with.
  set (sta := match inbound_ _ with Some _ => _ | None => _ end).
  assert (Ha : messenger_queue sta = messenger_queue st /\
               shutdowns sta = shutdowns st ++ [s] /\
               shutdown_status_ sta = s /\
               outbound_transfers_ sta = outbound_transfers_ st).
  { unfold sta. simpl. destruct (inbound_ st) as [t|]; [destruct (TransferStarted t)|]; done. }
  destruct Ha as (Hq & Hs & Hss & Ho). clearbody sta.
  destruct (fail_awaiting s _ sta) as [stb|] eqn:Eb; [|done]. simpl.
  apply fail_awaiting_spec in Eb as [Hb _].
  destruct (clear_outbound_transfers _ _ _) as [stc|] eqn:Ec; [|done]. simpl.
  intros [= <-]. simpl.
  apply clear_outbound_transfers_YB in Ec as (Hq' & Hs' & Hss').
  2:{ simpl. rewrite Hb. simpl. by rewrite Ho. }
  rewrite Hb in *. simpl in *. repeat split; congruence.
Qed.

(** C5.  On a YB connection an incoming call that parses and whose call id is
    already in [calls_being_handled_] is not dispatched: the connection is
    torn down with the RuntimeError "Received duplicate call id"; a call id
    seen for the first time is inserted into the map and the call dispatched. *)
Theorem YB_duplicate_call_id (transfer : InboundTransfer) (st : State) :
  ok (frame_status (parse transfer)) = true ->
  Forall yb_callbacks (outbound_transfers_ st) ->
  let call := mkInboundCall (frame_call_id (parse transfer)) (frame_body (parse transfer)) in
  let dup := STATUS2 kRuntimeError "Received duplicate call id" (pretty (ic_call_id call)) in
  (is_Some (calls_being_handled_ st !! ic_call_id call) ->
   YB_HandleIncomingCall (DestroyConnection d) transfer st
   = DestroyConnection d dup (LOG WARNING (LogDuplicateCallId (ic_call_id call)) st) /\
   code dup = kRuntimeError /\
   mentions "duplicate call id" (message dup) = true /\
   forall st',
     YB_HandleIncomingCall (DestroyConnection d) transfer st = Some st' ->
     messenger_queue st' = messenger_queue st /\
     shutdown_status_ st' = dup /\
     shutdowns st' = shutdowns st ++ [dup] /\
     is_epoll_registered_ st' = false /\
     read_io_ st' = false /\ write_io_ st' = false /\ socket_open_ st' = false) /\
  (calls_being_handled_ st !! ic_call_id call = None ->
   exists st',
     YB_HandleIncomingCall (DestroyConnection d) transfer st = Some st' /\
     calls_being_handled_ st' = <[ic_call_id call := call]> (calls_being_handled_ st) /\
     messenger_queue st' = messenger_queue st ++ [call] /\
     shutdowns st' = shutdowns st /\
     is_epoll_registered_ st' = is_epoll_registered_ st).
Proof.
  intros Hok Hyb call dup. unfold YB_HandleIncomingCall. rewrite Hok. simpl. split.
  - intros [c0 Hc0]. fold call. rewrite Hc0. split; [done|]. split; [done|]. split; [done|].
    intros st' H. pose proof (Shutdown_torn_down _ _ _ _ H) as Htd.
    apply Shutdown_YB in H as (Hq & Hs & Hss); [|done].
    destruct Htd. simpl in *. done.
  - intros Hnone. fold call. rewrite Hnone. eexists. split; [reflexivity|]. done.
Qed.

(** C6, on the code.  On a frame that does not parse,
    [CQLConnection::HandleIncomingCall] only logs a warning: the connection is
    not torn down and stays registered, where the YB and Redis methods hand
    the parse status to [DestroyConnection]. *)
Theorem CQL_parse_failure_keeps_connection_open (transfer : InboundTransfer) (st : State) :
  ok (frame_status (parse transfer)) = false ->
  CQL_HandleIncomingCall transfer st
  = Some (LOG WARNING (LogBadData (frame_status (parse transfer))) st) /\
  (forall st', CQL_HandleIncomingCall transfer st = Some st' ->
     shutdowns st' = shutdowns st /\
     shutdown_status_ st' = shutdown_status_ st /\
     is_epoll_registered_ st' = is_epoll_registered_ st /\
     read_io_ st' = read_io_ st /\
     socket_open_ st' = socket_open_ st) /\
  YB_HandleIncomingCall (DestroyConnection d) transfer st
  = DestroyConnection d (frame_status (parse transfer))
      (LOG WARNING (LogBadData (frame_status (parse transfer))) st) /\
  Redis_HandleIncomingCall (DestroyConnection d) transfer st
  = DestroyConnection d (frame_status (parse transfer))
      (LOG WARNING (LogBadData (frame_status (parse transfer))) st).
Proof.
  intros Hok. unfold CQL_HandleIncomingCall, YB_HandleIncomingCall, Redis_HandleIncomingCall.
  rewrite Hok. simpl. split; [done|]. split; [|done].
  by intros st' [= <-].
Qed.

(** C9.  With [processing_call_] set, [RedisConnection::HandleFinishedTransfer]
    changes nothing: the finished transfer stays parked and no call is
    dispatched.  Otherwise a transfer that parses is handed to the messenger
    with [processing_call_] set, and its excess data becomes the inbound
    transfer.  [FinishedHandlingACall] clears [processing_call_] and, when a
    finished transfer is parked, handles it in that way. *)
Theorem Redis_single_call_in_flight (st : State) :
  (processing_call_ st = true ->
   Redis_HandleFinishedTransfer (DestroyConnection d) st = Some st) /\
  (forall t,
     processing_call_ st = false ->
     direction_ st = SERVER ->
     inbound_ st = Some t ->
     ok (frame_status (parse t)) = true ->
     exists st',
       Redis_HandleFinishedTransfer (DestroyConnection d) st = Some st' /\
       processing_call_ st' = true /\
       messenger_queue st'
       = messenger_queue st ++ [mkInboundCall (frame_call_id (parse t)) (frame_body (parse t))] /\
       inbound_ st' = ExcessData t /\
       shutdowns st' = shutdowns st) /\
  (forall t,
     direction_ st = SERVER ->
     inbound_ st = Some t ->
     TransferFinished t = true ->
     ok (frame_status (parse t)) = true ->
     exists st',
       Redis_FinishedHandlingACall (DestroyConnection d) st = Some st' /\
       Redis_HandleFinishedTransfer (DestroyConnection d) (set_processing_call_ false st)
       = Some st' /\
       processing_call_ st' = true /\
       messenger_queue st'
       = messenger_queue st ++ [mkInboundCall (frame_call_id (parse t)) (frame_body (parse t))] /\
       inbound_ st' = ExcessData t) /\
  ((inbound_ st = None \/ exists t, inbound_ st = Some t /\ TransferFinished t = false) ->
   exists st',
     Redis_FinishedHandlingACall (DestroyConnection d) st = Some st' /\
     processing_call_ st' = false /\
     messenger_queue st' = messenger_queue st /\
     inbound_ st' = inbound_ st).
Proof.
  split; [|split; [|split]].
  - intros Hp. unfold Redis_HandleFinishedTransfer. by rewrite Hp.
  - intros t Hp Hd Hi Hok. unfold Redis_HandleFinishedTransfer, Redis_HandleIncomingCall.
    rewrite Hp, Hd, Hi. simpl. rewrite Hok. simpl. eexists. split; [reflexivity|]. done.
  - intros t Hd Hi Hf Hok.
    unfold Redis_FinishedHandlingACall, Redis_HandleFinishedTransfer, Redis_HandleIncomingCall.
    simpl. rewrite Hd, Hi, Hf. simpl. rewrite Hok. simpl.
    eexists. split; [reflexivity|]. done.
  - intros H. unfold Redis_FinishedHandlingACall. simpl.
    destruct H as [E|(t & E & Ef)]; rewrite E, ?Ef; eexists;
      (split; [reflexivity|]); simpl; by rewrite E.
Qed.

End Methods.

(** ** Runs: the write watcher and the call ids *)

Section Runs.

Variable d : Status.

Lemma start_write_core st : 
  this_ (start_write st) = this_ st /\
  protocol_ (start_write st) = protocol_ st /\
  direction_ (start_write st) = direction_ st /\
  next_call_id_ (start_write st) = next_call_id_ st /\
  negotiation_complete_ (start_write st) = negotiation_complete_ st /\
  shutdown_status_ (start_write st) = shutdown_status_ st /\
  awaiting_response_ (start_write st) = awaiting_response_ st /\
  outbound_transfers_ (start_write st) = outbound_transfers_ st /\
  calls (start_write st) = calls st /\
  transfer_edges (start_write st) = transfer_edges st /\
  transfers_made (start_write st) = transfers_made st /\
  shutdowns (start_write st) = shutdowns st.
Proof. unfold start_write. by destruct (_ && _). Qed.

Lemma start_write_armed st : write_armed (start_write st).
Proof.
  unfold write_armed, start_write.
  destruct (negotiation_complete_ st) eqn:En, (write_io_ st) eqn:Ew; simpl; auto.
Qed.

Lemma write_armed_core st st' : same_core st st' -> write_armed st -> write_armed st'.
Proof. intros [] H. unfold write_armed in *. congruence. Qed.

Lemma atom_write_armed st st' : atom d st st' -> write_armed st -> write_armed st'.
Proof.
  intros Ha Hw. destruct Ha as
    [Hs|s Ht|Hs|Ho Hs|sl cb Hok Hcb Hs|Hok Hs|id car h c r Hid Hc Hh Hs|id car Hid Hc Hs
    |id car h c Hid Htm Hc Hh Hf Hs|t rest h c Ho Hcb Hh Hf Hs|t rest Ho Hs|t rest s Ho Ht].
  - by eapply write_armed_core.
  - left. by destruct Ht.
  - eapply write_armed_core; [exact Hs|]. unfold write_armed, EpollRegister in *.
    destruct (bool_decide _ && _); simpl; tauto.
  - eapply write_armed_core; [exact Hs|]. by left.
  - eapply write_armed_core; [exact Hs|]. apply start_write_armed.
  - eapply write_armed_core; [exact Hs|]. done.
  - eapply write_armed_core; [exact Hs|]. done.
  - eapply write_armed_core; [exact Hs|]. done.
  - eapply write_armed_core; [exact Hs|]. done.
  - eapply write_armed_core; [exact Hs|]. unfold write_armed in *. simpl.
    rewrite Ho in Hw. destruct Hw as [?|?]; [done|tauto].
  - eapply write_armed_core; [exact Hs|]. unfold write_armed in *. simpl.
    rewrite Ho in Hw. destruct Hw as [?|?]; [done|tauto].
  - left. by destruct Ht.
Qed.

Lemma atoms_write_armed st st' : rtc (atom d) st st' -> write_armed st -> write_armed st'.
Proof. induction 1; eauto using atom_write_armed. Qed.

Lemma step_write_armed e st st' :
  match e with
  | EvMarkNegotiationComplete => outbound_transfers_ st = []
  | _ => True
  end ->
  step d e st = Some st' -> write_armed st -> write_armed st'.
Proof.
  intros He Hstep Hw. pose proof (step_atoms _ _ _ _ Hstep) as Hat.
  destruct e; try (by eapply atoms_write_armed).
  - subst st'. by left.
  - destruct Hat as [(c & _ & _ & _ & ->)|[(c & _ & _ & _ & _ & _ & ->)
                    |(c & _ & _ & _ & _ & _ & ->)]]; try done.
    apply start_write_armed.
Qed.

Lemma run_write_armed tr :
  forall st st',
    negotiation_completes_idle d tr st ->
    run d tr st = Some st' -> write_armed st -> write_armed st'.
Proof.
  induction tr as [|e tr IH]; intros st st'; simpl.
  - by intros _ [= <-].
  - intros [He Hrest]. destruct (step d e st) as [st1|] eqn:E; [|done]. simpl.
    intros Hrun Hw. eapply IH; [exact Hrest|exact Hrun|]. by eapply step_write_armed.
Qed.

Lemma write_loop_stops sends :
  forall st st',
    write_loop d (DestroyConnection d) sends st = Some st' ->
    outbound_transfers_ st' = [] -> write_io_ st' = false.
Proof.
  induction sends as [|o sends IH]; intros st st'; simpl.
  - destruct (outbound_transfers_ st) eqn:Eo; intros [= <-]; [done|]. by rewrite Eo.
  - destruct (outbound_transfers_ st) as [|t rest] eqn:Eo.
    { by intros [= <-]. }
    destruct o as [s| |].
    + intros H _. apply Shutdown_torn_down in H. by destruct H.
    + intros [= <-]. by rewrite Eo.
    + destruct (SendBuffer_finished _ t st) as [st1|]; [|done]. simpl.
      unfold OutboundTransfer_delete. simpl. apply IH.
Qed.

(** C8, as the code has it.  In a run in which [MarkNegotiationComplete] is
    only invoked while the outbound queue is empty, at every point a queue
    that is not empty has its write watcher active, unless negotiation is not
    complete.  [QueueOutbound] on a connection that is not shut down starts
    the watcher when negotiation is complete, and [WriteHandler] leaves the
    watcher stopped whenever it leaves the queue empty. *)
Theorem write_watcher_follows_queue :
  (forall this remote p dir heap tr st,
     negotiation_completes_idle d tr (Connection_new this remote p dir heap) ->
     run d tr (Connection_new this remote p dir heap) = Some st ->
     write_armed st) /\
  (forall t st st',
     ok (shutdown_status_ st) = true ->
     negotiation_complete_ st = true ->
     QueueOutbound d (DestroyConnection d) t st = Some st' ->
     write_io_ st' = true /\
     outbound_transfers_ st' = outbound_transfers_ st ++ [t]) /\
  (forall ev_error sends st st',
     WriteHandler d (DestroyConnection d) ev_error sends st = Some st' ->
     outbound_transfers_ st' = [] ->
     write_io_ st' = false).
Proof.
  split; [|split].
  - intros this remote p dir heap tr st Hidle Hrun.
    eapply run_write_armed; [exact Hidle|exact Hrun|]. by left.
  - intros t st st' Hok Hneg. unfold QueueOutbound. rewrite Hok. simpl. rewrite Hneg.
    destruct (write_io_ st) eqn:Ew; simpl; intros [= <-]; simpl; by rewrite ?Ew.
  - intros ev_error sends st st'. unfold WriteHandler. destruct ev_error.
    { intros H _. apply Shutdown_torn_down in H. by destruct H. }
    destruct (outbound_transfers_ st) eqn:Eo.
    + by intros [= <-].
    + apply write_loop_stops.
Qed.

Lemma atom_next_call_id st st' : atom d st st' -> next_call_id_ st' = next_call_id_ st.
Proof.
  intros Ha. destruct Ha as
    [Hs|s Ht|Hs|Ho Hs|sl cb Hok Hcb Hs|Hok Hs|id car h c r Hid Hc Hh Hs|id car Hid Hc Hs
    |id car h c Hid Htm Hc Hh Hf Hs|t rest h c Ho Hcb Hh Hf Hs|t rest Ho Hs|t rest s Ho Ht].
  all: try (destruct Hs as [_ _ _ _ _ Hs]; rewrite Hs; simpl; try done).
  all: try (by destruct Ht).
  - unfold EpollRegister. by destruct (_ && _).
  - by destruct (start_write_core
                   (set_outbound_transfers_
                      (outbound_transfers_ st ++
                       [mkOutbound (transfers_made st) sl cb false false])
                      (set_transfers_made (S (transfers_made st)) st))) as (_&_&_&->&_).
Qed.

Lemma atoms_next_call_id st st' :
  rtc (atom d) st st' -> next_call_id_ st' = next_call_id_ st.
Proof.
  induction 1 as [|st st1 st' Ha _ IH]; [done|].
  rewrite IH. by apply atom_next_call_id.
Qed.

Lemma step_call_id e st st' :
  step d e st = Some st' ->
  match accepted e st with
  | Some h =>
      calls st' !! h ≫= call_id_ = Some (next_call_id_ st) /\
      next_call_id_ st' = (next_call_id_ st + 1)%Z
  | None => next_call_id_ st' = next_call_id_ st
  end.
Proof.
  intros Hstep. pose proof (step_atoms _ _ _ _ Hstep) as Hat.
  destruct e; simpl; try (by apply atoms_next_call_id).
  - by subst st'.
  - destruct Hat as [(c & _ & _ & Hok & ->)|[(c & _ & _ & Hok & _ & _ & ->)
                    |(c & _ & _ & Hok & _ & _ & ->)]]; rewrite Hok; simpl.
    + done.
    + by rewrite lookup_insert_eq.
    + match goal with |- context [start_write ?x] =>
        destruct (start_write_core x) as (_&_&_&->&_&_&_&_&->&_) end.
      simpl. by rewrite lookup_insert_eq.
Qed.

Lemma assigned_call_ids_from tr :
  forall st,
    assigned_call_ids d tr st
    = (fun k => Some (next_call_id_ st + Z.of_nat k)%Z)
        <$> seq 0 (length (assigned_call_ids d tr st)).
Proof.
  induction tr as [|e tr IH]; intros st; simpl; [done|].
  destruct (step d e st) as [st1|] eqn:E; [|done].
  apply step_call_id in E. rewrite (IH st1) at 1.
  destruct (accepted e st) as [h|]; simpl.
  - destruct E as [-> E]. rewrite E. f_equal; [f_equal; lia|].
    rewrite <- fmap_S_seq, <- list_fmap_compose.
    apply list_fmap_ext. intros _ k _. simpl. f_equal. lia.
  - by rewrite E.
Qed.

(** C1.  The call ids that the invocations of [QueueOutboundCall] not rejected
    for shutdown assign on one connection are 1, 2, ..., N, in the order of
    the invocations; none is assigned twice. *)
Theorem call_ids_count_up this remote p dir heap tr :
  let ids := assigned_call_ids d tr (Connection_new this remote p dir heap) in
  ids = (fun k => Some (Z.of_nat k)) <$> seq 1 (length ids) /\ NoDup ids.
Proof.
  intros ids.
  assert (H : ids = (fun k => Some (Z.of_nat k)) <$> seq 1 (length ids)).
  { unfold ids. rewrite assigned_call_ids_from at 1. simpl.
    rewrite <- fmap_S_seq, <- list_fmap_compose.
    apply list_fmap_ext. intros _ k _. simpl. f_equal. lia. }
  split; [done|]. rewrite H. apply NoDup_fmap_2; [|apply NoDup_seq].
  intros x y [= Hxy]. lia.
Qed.

End Runs.

(** ** Runs: the callback edges of outbound transfers *)

Section TransferEdges.

Variable d : Status.



Lemma destroyed_edges_other ts id :
  id ∉ transfer_id <$> ts ->
  filter (fun e : nat * TransferEdge => e.1 = id) (destroyed_edges d ts) = [].
Proof.
  induction ts as [|t ts IH]; simpl; [done|].
  intros [Hne Hni]%not_elem_of_cons.
  destruct (finished_ t || aborted_ t); [by apply IH|].
  rewrite filter_cons. simpl. destruct (decide (transfer_id t = id)); [congruence|by apply IH].
Qed.








Lemma EpollRegister_frame st :
  outbound_transfers_ (EpollRegister st) = outbound_transfers_ st /\
  transfer_edges (EpollRegister st) = transfer_edges st /\
  transfers_made (EpollRegister st) = transfers_made st /\
  shutdowns (EpollRegister st) = shutdowns st /\
  shutdown_status_ (EpollRegister st) = shutdown_status_ st /\
  awaiting_response_ (EpollRegister st) = awaiting_response_ st /\
  calls (EpollRegister st) = calls st /\
  next_call_id_ (EpollRegister st) = next_call_id_ st.
Proof. unfold EpollRegister. by destruct (_ && _). Qed.







End TransferEdges.

(** ** Runs: the terminal edges of outbound calls *)

Section CallEdges.

Variable d : Status.

Lemma holders_live h m :
  holders h m <> [] <-> exists id car, m !! id = Some car /\ car_call car = Some h.
Proof.
  unfold holders. split.
  - destruct (filter _ _) as [|[id car] l] eqn:E; [done|]. intros _.
    assert (Hin : (id, car) ∈ filter (fun kc : Z * CallAwaitingResponse => car_call kc.2 = Some h)
                    (map_to_list m)) by (rewrite E; left).
    apply list_elem_of_filter in Hin as [Hc Hin]. apply elem_of_map_to_list in Hin. eauto.
  - intros (id & car & Hid & Hc) E.
    assert (Hin : (id, car) ∈ filter (fun kc : Z * CallAwaitingResponse => car_call kc.2 = Some h)
                    (map_to_list m)).
    { apply list_elem_of_filter. split; [done|]. by apply elem_of_map_to_list. }
    rewrite E in Hin. by apply not_elem_of_nil in Hin.
Qed.

Lemma holders_length h P st :
  call_inv P st -> length (holders h (awaiting_response_ st)) <= 1.
Proof.
  intros Hinv. unfold holders.
  pose proof (NoDup_filter (fun kc : Z * CallAwaitingResponse => car_call kc.2 = Some h) _
                (NoDup_map_to_list (awaiting_response_ st))) as Hnd.
  destruct (filter _ _) as [|[id1 car1] [|[id2 car2] l]] eqn:E; simpl; [lia|lia|].
  exfalso.
  assert (H1 : (id1, car1) ∈ filter (fun kc : Z * CallAwaitingResponse => car_call kc.2 = Some h)
                  (map_to_list (awaiting_response_ st))) by (rewrite E; left).
  assert (H2 : (id2, car2) ∈ filter (fun kc : Z * CallAwaitingResponse => car_call kc.2 = Some h)
                  (map_to_list (awaiting_response_ st))) by (rewrite E; right; left).
  apply list_elem_of_filter in H1 as [Hc1 H1]. apply elem_of_map_to_list in H1.
  apply list_elem_of_filter in H2 as [Hc2 H2]. apply elem_of_map_to_list in H2.
  simpl in *.
  assert (id1 = id2) by (by eapply (ci_unique _ _ Hinv)). subst id2.
  assert (car1 = car2) by congruence. subst car2.
  apply NoDup_cons in Hnd as [Hni _]. apply Hni. left.
Qed.

Lemma agree_lookup {A} (f : OutboundCall -> A) (m m' : gmap Handle OutboundCall) h c :
  f <$> m' !! h = f <$> m !! h -> m !! h = Some c ->
  exists c', m' !! h = Some c' /\ f c' = f c.
Proof.
  intros E Hc. rewrite Hc in E. destruct (m' !! h) as [c'|]; [|done].
  exists c'. simpl in E. split; congruence.
Qed.

Lemma call_inv_agree P st st' :
  awaiting_response_ st' = awaiting_response_ st ->
  (next_call_id_ st <= next_call_id_ st')%Z ->
  shutdowns st' = shutdowns st ->
  shutdown_status_ st' = shutdown_status_ st ->
  (forall h, fired_ <$> calls st' !! h = fired_ <$> calls st !! h) ->
  (forall h, serialized_ <$> calls st' !! h = serialized_ <$> calls st !! h) ->
  call_inv P st -> call_inv P st'.
Proof.
  intros Ea En Es Ess Ef Esr Hinv.
  split; unfold live, failure_expected; rewrite ?Ea, ?Es, ?Ess.
  - intros id car Hid. pose proof (ci_keys _ _ Hinv id car Hid). lia.
  - apply (ci_unique _ _ Hinv).
  - intros id car h Hid Hc. destruct (ci_live _ _ Hinv id car h Hid Hc) as (HP & c & Hh & Hf).
    split; [done|]. destruct (agree_lookup fired_ _ _ h c (Ef h) Hh) as (c' & Hc' & Hf').
    exists c'. split; [done|]. congruence.
  - intros h HP Hnl. destruct (ci_done _ _ Hinv h HP Hnl) as (c & e & Hh & Hf & Hexp).
    destruct (agree_lookup fired_ _ _ h c (Ef h) Hh) as (c' & Hc' & Hf').
    destruct (agree_lookup serialized_ _ _ h c (Esr h) Hh) as (c'' & Hc'' & Hs').
    assert (c'' = c') by congruence. subst c''.
    exists c', e. split; [done|]. split; [congruence|]. intros s Hs. rewrite Hs'. by apply Hexp.
  - intros h c' Hc' HP.
    assert (Hsym : fired_ <$> calls st !! h = fired_ <$> calls st' !! h) by done.
    destruct (agree_lookup fired_ _ _ h c' Hsym Hc') as (c & Hc & Hf).
    rewrite <- Hf. by eapply (ci_fresh _ _ Hinv).
  - apply (ci_status _ _ Hinv).
Qed.

Lemma call_inv_core P st st' : same_core st st' -> call_inv P st -> call_inv P st'.
Proof.
  intros Hs. apply call_inv_agree; try (by destruct Hs).
  - destruct Hs. lia.
  - intros h. by rewrite (sc_calls _ _ Hs).
  - intros h. by rewrite (sc_calls _ _ Hs).
Qed.

Lemma failure_expected_mono st st' c c' e more :
  shutdowns st' = shutdowns st ++ more -> serialized_ c' = serialized_ c ->
  failure_expected st c e -> failure_expected st' c' e.
Proof.
  intros Es Esr H s Hs. rewrite Es, Esr. destruct (H s Hs) as [?|?]; [left|by right].
  apply elem_of_app. by left.
Qed.

Lemma torn_down_call_inv s P st st' :
  call_inv P st -> torn_down d s st st' ->
  call_inv P st' /\
  forall h, h ∈ P ->
    exists c e, calls st' !! h = Some c /\ fired_ c = [e] /\ failure_expected st' c e.
Proof.
  intros Hinv Ht. pose proof Ht as [].
  destruct td_shutdowns0 as (more & Hsh & Hst).
  assert (Hdone : forall h, h ∈ P ->
    exists c e, calls st' !! h = Some c /\ fired_ c = [e] /\ failure_expected st' c e).
  { intros h HP. rewrite td_calls0.
    pose proof (holders_length h P st Hinv) as Hlen.
    destruct (holders h (awaiting_response_ st)) as [|[id car] l] eqn:E.
    - assert (Hnl : ~ live h st).
      { intros Hl. apply holders_live in Hl. by rewrite E in Hl. }
      destruct (ci_done _ _ Hinv h HP Hnl) as (c & e & Hh & Hf & Hexp).
      exists c, e. rewrite Hh. simpl. split; [done|]. split; [done|].
      by eapply failure_expected_mono.
    - destruct l; [|simpl in Hlen; lia].
      assert (Hl : holders h (awaiting_response_ st) <> []) by (by rewrite E).
      apply holders_live in Hl as (id' & car' & Hid' & Hc').
      destruct (ci_live _ _ Hinv id' car' h Hid' Hc') as (_ & c & Hh & Hf).
      rewrite Hh. simpl. eexists _, _. split; [reflexivity|]. simpl. rewrite Hf.
      split; [reflexivity|]. intros s' [= <-]. left. rewrite Hsh.
      apply elem_of_app. right. left. }
  split; [|done]. split.
  - intros id car. by rewrite td_awaiting0, lookup_empty.
  - intros id1 id2 car1 car2 h. by rewrite td_awaiting0, lookup_empty.
  - intros id car h. by rewrite td_awaiting0, lookup_empty.
  - intros h HP _. by apply Hdone.
  - intros h c'. rewrite td_calls0. intros Hc' HP.
    destruct (holders h (awaiting_response_ st)) as [|x l] eqn:E.
    + simpl in Hc'. destruct (calls st !! h) as [c|] eqn:Hh; [|done].
      simpl in Hc'. injection Hc' as <-. by eapply (ci_fresh _ _ Hinv).
    + assert (Hl : holders h (awaiting_response_ st) <> []) by (by rewrite E).
      apply holders_live in Hl as (id' & car' & Hid' & Hc'').
      by destruct (ci_live _ _ Hinv id' car' h Hid' Hc'') as (? & _).
  - intros _. rewrite Hsh. apply elem_of_app. by right.
Qed.

End CallEdges.

Section CallRuns.

Variable d : Status.

(** The call [h], pending under [id], reaches a terminal edge that is no
    failure, and its entry is removed or loses its handle. *)
Lemma finish_call_inv P id car h c cs e st st' :
  awaiting_response_ st !! id = Some car ->
  car_call car = Some h ->
  calls st !! h = Some c ->
  (forall s, e <> EdgeFailed s) ->
  (forall id' car', awaiting_response_ st' !! id' = Some car' ->
     (id' <> id /\ awaiting_response_ st !! id' = Some car') \/
     (id' = id /\ car_call car' = None)) ->
  (forall id' car', awaiting_response_ st !! id' = Some car' -> id' <> id ->
     awaiting_response_ st' !! id' = Some car') ->
  calls st' = <[h := call_finish cs e c]> (calls st) ->
  next_call_id_ st' = next_call_id_ st ->
  shutdowns st' = shutdowns st ->
  shutdown_status_ st' = shutdown_status_ st ->
  call_inv P st -> call_inv P st'.
Proof.
  intros Hid Hc Hh Hne R1 R2 Ec En Es Ess Hinv.
  destruct (ci_live _ _ Hinv id car h Hid Hc) as (HP & c0 & Hh0 & Hf0).
  assert (c0 = c) by congruence. subst c0.
  assert (Hother : forall id' car', awaiting_response_ st' !! id' = Some car' ->
            car_call car' <> Some h).
  { intros id' car' Hid' Hc'. destruct (R1 id' car' Hid') as [[Hn Ho]|[_ Hnone]]; [|congruence].
    apply Hn. by eapply (ci_unique _ _ Hinv). }
  split; unfold live, failure_expected; rewrite ?En, ?Es, ?Ess, ?Ec.
  - intros id' car' Hid'. destruct (R1 id' car' Hid') as [[_ Ho]|[-> _]];
      by eapply (ci_keys _ _ Hinv).
  - intros id1 id2 car1 car2 h' H1 H2 Hc1 Hc2.
    destruct (R1 id1 car1 H1) as [[_ Ho1]|[_ ?]]; [|congruence].
    destruct (R1 id2 car2 H2) as [[_ Ho2]|[_ ?]]; [|congruence].
    by eapply (ci_unique _ _ Hinv).
  - intros id' car' h' Hid' Hc'.
    destruct (R1 id' car' Hid') as [[_ Ho]|[_ ?]]; [|congruence].
    destruct (ci_live _ _ Hinv id' car' h' Ho Hc') as (HP' & c' & Hh' & Hf').
    split; [done|]. exists c'. rewrite lookup_insert_ne; [done|].
    intros <-. by eapply Hother.
  - intros h' HP' Hnl. destruct (decide (h' = h)) as [->|Hneq].
    + rewrite lookup_insert_eq. eexists _, e. split; [reflexivity|]. simpl.
      rewrite Hf0. split; [done|]. intros s ->. by destruct (Hne s).
    + rewrite lookup_insert_ne by done. destruct (ci_done _ _ Hinv h' HP') as (c' & e' & ?).
      { intros (id' & car' & Hid' & Hc'). apply Hnl. exists id', car'. split; [|done].
        apply R2; [done|]. intros ->. congruence. }
      by exists c', e'.
  - intros h' c' Hc' HP'. rewrite lookup_insert_ne in Hc' by (intros <-; done).
    by eapply (ci_fresh _ _ Hinv).
  - apply (ci_status _ _ Hinv).
Qed.

(** The entry [id], whose handle is cleared, is removed. *)
Lemma late_call_inv P id car st st' :
  awaiting_response_ st !! id = Some car ->
  car_call car = None ->
  awaiting_response_ st' = delete id (awaiting_response_ st) ->
  calls st' = calls st ->
  next_call_id_ st' = next_call_id_ st ->
  shutdowns st' = shutdowns st ->
  shutdown_status_ st' = shutdown_status_ st ->
  call_inv P st -> call_inv P st'.
Proof.
  intros Hid Hc Ea Ec En Es Ess Hinv.
  split; unfold live, failure_expected; rewrite ?Ea, ?En, ?Es, ?Ess, ?Ec.
  - intros id' car' [_ Hid']%lookup_delete_Some. by eapply (ci_keys _ _ Hinv).
  - intros id1 id2 car1 car2 h' [_ H1]%lookup_delete_Some [_ H2]%lookup_delete_Some.
    by eapply (ci_unique _ _ Hinv).
  - intros id' car' h' [_ Hid']%lookup_delete_Some. by eapply (ci_live _ _ Hinv).
  - intros h' HP' Hnl. apply (ci_done _ _ Hinv h' HP').
    intros (id' & car' & Hid' & Hc'). apply Hnl. exists id', car'. split; [|done].
    apply lookup_delete_Some. split; [|done]. intros <-. congruence.
  - apply (ci_fresh _ _ Hinv).
  - apply (ci_status _ _ Hinv).
Qed.

Lemma atom_call_inv P st st' : atom d st st' -> call_inv P st -> call_inv P st'.
Proof.
  intros Ha Hinv. destruct Ha as
    [Hs|s Ht|Hs|Ho Hs|sl cb Hok Hcb Hs|Hok Hs|id car h c r Hid Hc Hh Hs|id car Hid Hc Hs
    |id car h c Hid Htm Hc Hh Hf Hs|t rest h c Ho Hcb Hh Hf Hs|t rest Ho Hs|t rest s Ho Ht].
  - by eapply call_inv_core.
  - by eapply torn_down_call_inv.
  - eapply call_inv_core; [exact Hs|].
    destruct (EpollRegister_frame st) as (_ & _ & _ & E4 & E5 & E6 & E7 & E8).
    eapply call_inv_agree; [..|exact Hinv]; try done; try lia.
    all: intros h; by rewrite E7.
  - eapply call_inv_core; [exact Hs|]. eapply call_inv_agree; [..|exact Hinv]; try done.
  - eapply call_inv_core; [exact Hs|].
    match goal with |- context [start_write ?x] =>
      destruct (start_write_core x) as (_&_&_&E0&_&E1&E2&_&E3&_&_&E5) end.
    eapply call_inv_agree; [..|exact Hinv]; rewrite ?E0, ?E1, ?E2, ?E3, ?E5; try done.
  - eapply call_inv_core; [exact Hs|]. eapply call_inv_agree; [..|exact Hinv]; try done.
  - eapply call_inv_core; [exact Hs|].
    eapply (finish_call_inv P id car h c _ _ st); try done; try (by intros ? [=]); simpl.
    + intros id' car' [Hn Ho]%lookup_delete_Some. left. split; [congruence|done].
    + intros id' car' Ho Hn. apply lookup_delete_Some. split; [congruence|done].
  - eapply call_inv_core; [exact Hs|]. by eapply (late_call_inv P id car st).
  - eapply call_inv_core; [exact Hs|].
    eapply (finish_call_inv P id car h c _ _ st); try done; try (by intros ? [=]); simpl.
    + intros id' car' [[<- <-]|[Hn Ho]]%lookup_insert_Some; [by right|left].
      split; [congruence|done].
    + intros id' car' Ho Hn. rewrite lookup_insert_ne; [done|congruence].
  - eapply call_inv_core; [exact Hs|].
    eapply call_inv_agree; [..|exact Hinv]; try done; simpl.
    + intros h'. destruct (IsFinished c); [done|].
      destruct (decide (h = h')) as [<-|]; [|by rewrite lookup_insert_ne].
      by rewrite lookup_insert_eq, Hh.
    + intros h'. destruct (IsFinished c); [done|].
      destruct (decide (h = h')) as [<-|]; [|by rewrite lookup_insert_ne].
      by rewrite lookup_insert_eq, Hh.
  - eapply call_inv_core; [exact Hs|]. eapply call_inv_agree; [..|exact Hinv]; try done.
  - eapply torn_down_call_inv; [|exact Ht].
    eapply call_inv_agree; [..|exact Hinv]; try done.
Qed.

Lemma atoms_call_inv P st st' : rtc (atom d) st st' -> call_inv P st -> call_inv P st'.
Proof. induction 1; eauto using atom_call_inv. Qed.

Lemma enqueue_rejected_call_inv P h st st' :
  enqueue_rejected h st st' -> h ∉ P -> call_inv P st -> call_inv (h :: P) st'.
Proof.
  intros (c & _ & Hh & Hok & ->) HP Hinv.
  assert (Hnl : forall id car, awaiting_response_ st !! id = Some car -> car_call car <> Some h).
  { intros id car Hid Hc. by destruct (ci_live _ _ Hinv id car h Hid Hc) as (? & _). }
  split; unfold live, failure_expected; simpl.
  - apply (ci_keys _ _ Hinv).
  - apply (ci_unique _ _ Hinv).
  - intros id car h' Hid Hc. destruct (ci_live _ _ Hinv id car h' Hid Hc) as (HP' & c' & Hh' & Hf').
    split; [by right|]. exists c'. rewrite lookup_insert_ne; [done|].
    intros <-. by eapply Hnl.
  - intros h' [->|HP']%elem_of_cons Hnl'.
    + rewrite lookup_insert_eq. eexists _, _. split; [reflexivity|]. simpl.
      rewrite (ci_fresh _ _ Hinv h c Hh HP). split; [done|].
      intros s [= <-]. left. by apply (ci_status _ _ Hinv).
    + rewrite lookup_insert_ne by (intros <-; done). by apply (ci_done _ _ Hinv).
  - intros h' c' Hc' [Hn HP']%not_elem_of_cons. rewrite lookup_insert_ne in Hc' by done.
    by eapply (ci_fresh _ _ Hinv).
  - apply (ci_status _ _ Hinv).
Qed.

Lemma enqueue_unserialized_call_inv P h st st' :
  enqueue_unserialized h st st' -> h ∉ P -> call_inv P st -> call_inv (h :: P) st'.
Proof.
  intros (c & _ & Hh & Hok & Hid & Hs & ->) HP Hinv.
  assert (Hnl : forall id car, awaiting_response_ st !! id = Some car -> car_call car <> Some h).
  { intros id car Hid' Hc. by destruct (ci_live _ _ Hinv id car h Hid' Hc) as (? & _). }
  split; unfold live, failure_expected; simpl.
  - intros id car Hid'. pose proof (ci_keys _ _ Hinv id car Hid'). lia.
  - apply (ci_unique _ _ Hinv).
  - intros id car h' Hid' Hc.
    destruct (ci_live _ _ Hinv id car h' Hid' Hc) as (HP' & c' & Hh' & Hf').
    split; [by right|]. exists c'. rewrite lookup_insert_ne; [done|].
    intros <-. by eapply Hnl.
  - intros h' [->|HP']%elem_of_cons Hnl'.
    + rewrite lookup_insert_eq. eexists _, _. split; [reflexivity|]. simpl.
      rewrite (ci_fresh _ _ Hinv h c Hh HP). split; [done|].
      intros s [= <-]. by right.
    + rewrite lookup_insert_ne by (intros <-; done). by apply (ci_done _ _ Hinv).
  - intros h' c' Hc' [Hn HP']%not_elem_of_cons. rewrite lookup_insert_ne in Hc' by done.
    by eapply (ci_fresh _ _ Hinv).
  - apply (ci_status _ _ Hinv).
Qed.

Lemma enqueued_call_inv P h st st' :
  enqueued h st st' -> h ∉ P -> call_inv P st -> call_inv (h :: P) st'.
Proof.
  intros (c & _ & Hh & Hok & Hid & Hs & ->) HP Hinv.
  assert (Hnl : forall id car, awaiting_response_ st !! id = Some car -> car_call car <> Some h).
  { intros id car Hid' Hc. by destruct (ci_live _ _ Hinv id car h Hid' Hc) as (? & _). }
  assert (Hnew : awaiting_response_ st !! next_call_id_ st = None).
  { destruct (awaiting_response_ st !! next_call_id_ st) as [car|] eqn:E; [|done].
    pose proof (ci_keys _ _ Hinv _ _ E). lia. }
  match goal with |- context [start_write ?x] =>
    destruct (start_write_core x) as (_&_&_&E0&_&E1&E2&_&E3&_&_&E5) end.
  split; unfold live, failure_expected; rewrite ?E0, ?E1, ?E2, ?E3, ?E5; simpl.
  - intros id car [[<- _]|[_ Hid']]%lookup_insert_Some; [lia|].
    pose proof (ci_keys _ _ Hinv id car Hid'). lia.
  - intros id1 id2 car1 car2 h' [[<- <-]|[Hn1 H1]]%lookup_insert_Some
      [[<- <-]|[Hn2 H2]]%lookup_insert_Some; simpl; try done.
    + intros [= <-] Hc2. by destruct (Hnl _ _ H2).
    + intros Hc1 [= <-]. by destruct (Hnl _ _ H1).
    + by eapply (ci_unique _ _ Hinv).
  - intros id car h' [[<- <-]|[Hn Hid']]%lookup_insert_Some; simpl.
    + intros [= <-]. split; [by left|]. rewrite lookup_insert_eq. eexists. split; [done|].
      simpl. by eapply (ci_fresh _ _ Hinv).
    + intros Hc. destruct (ci_live _ _ Hinv id car h' Hid' Hc) as (HP' & c' & Hh' & Hf').
      split; [by right|]. exists c'. rewrite lookup_insert_ne; [done|].
      intros <-. by eapply Hnl.
  - intros h' [->|HP']%elem_of_cons Hnl'.
    + exfalso. apply Hnl'. eexists _, _. split; [apply lookup_insert_eq|done].
    + rewrite lookup_insert_ne by (intros <-; done). apply (ci_done _ _ Hinv h' HP').
      intros (id & car & Hid' & Hc). apply Hnl'. exists id, car. split; [|done].
      rewrite lookup_insert_ne; [done|]. intros <-. congruence.
  - intros h' c' Hc' [Hn HP']%not_elem_of_cons. rewrite lookup_insert_ne in Hc' by done.
    by eapply (ci_fresh _ _ Hinv).
  - apply (ci_status _ _ Hinv).
Qed.

Lemma step_call_inv e P st st' :
  step d e st = Some st' ->
  (forall h, e = EvQueueOutboundCall h -> h ∉ P) ->
  call_inv P st ->
  call_inv (match e with EvQueueOutboundCall h => h :: P | _ => P end) st'.
Proof.
  intros Hstep HP Hinv. pose proof (step_atoms _ _ _ _ Hstep) as Hat.
  destruct e; try (by eapply atoms_call_inv).
  - subst st'. eapply call_inv_agree; [..|exact Hinv]; done.
  - specialize (HP call eq_refl).
    destruct Hat as [H|[H|H]];
      eauto using enqueue_rejected_call_inv, enqueue_unserialized_call_inv, enqueued_call_inv.
Qed.

Lemma run_call_inv tr :
  forall P st st',
    call_inv P st ->
    NoDup (queued_calls tr) ->
    (forall h, h ∈ queued_calls tr -> h ∉ P) ->
    run d tr st = Some st' ->
    exists P', call_inv P' st' /\ forall h, h ∈ P' <-> h ∈ queued_calls tr \/ h ∈ P.
Proof.
  induction tr as [|e tr IH]; intros P st st' Hinv Hnd Hfresh; simpl.
  - intros [= <-]. exists P. split; [done|]. intros h. split; [by right|].
    intros [?%not_elem_of_nil|?]; done.
  - destruct (step d e st) as [st1|] eqn:E; [|done]. simpl. intros Hrun.
    pose proof (step_call_inv e P st st1 E) as Hstep. clear E.
    destruct e; simpl in Hnd, Hfresh, Hstep |- *;
      try (eapply (IH P st1 st'); [apply Hstep; [by intros ? [=]|done]|done..]).
    apply NoDup_cons in Hnd as [Hni Hnd].
    destruct (IH (call :: P) st1 st') as (P' & Hinv' & HP'); [|done| |done|].
    { apply Hstep; [|done]. intros h [= <-]. apply Hfresh. by left. }
    { intros h Hq [->|HP]%elem_of_cons; [done|]. eapply Hfresh; [by right|done]. }
    exists P'. split; [done|]. intros h. rewrite HP', !elem_of_cons. tauto.
Qed.

Lemma new_call_inv this remote p dir heap :
  fresh_heap heap -> call_inv [] (Connection_new this remote p dir heap).
Proof.
  intros Hfresh. split; unfold live; simpl; try done.
  - intros h ?%not_elem_of_nil. done.
  - intros h c Hc _. by destruct (Hfresh h c Hc).
Qed.

(** C3, as the code has it.  In a run that hands each call to
    [QueueOutboundCall] at most once, no call ever has more than one terminal
    edge; a call that was handed over is either still pending, with none, or
    has exactly one; and once [Shutdown] has run every call that was handed
    over has exactly one.  When that edge is a failure its status is one that
    [Shutdown] was given, of whatever kind, or the status that serializing the
    call returned. *)
Theorem outbound_call_completes_once this remote p dir heap tr st :
  fresh_heap heap ->
  NoDup (queued_calls tr) ->
  run d tr (Connection_new this remote p dir heap) = Some st ->
  (forall h c, calls st !! h = Some c -> length (fired_ c) <= 1) /\
  (forall h, h ∈ queued_calls tr ->
     exists c, calls st !! h = Some c /\
       ((live h st /\ fired_ c = []) \/
        exists e, fired_ c = [e] /\ failure_expected st c e)) /\
  (forall s st',
     Shutdown d s st = Some st' ->
     forall h, h ∈ queued_calls tr ->
       exists c e, calls st' !! h = Some c /\ fired_ c = [e] /\ failure_expected st' c e).
Proof.
  intros Hfresh Hnd Hrun.
  destruct (run_call_inv tr [] _ st (new_call_inv this remote p dir heap Hfresh) Hnd)
    as (P & Hinv & HP); [by intros h _ ?%not_elem_of_nil|done|].
  assert (Hcases : forall h, h ∈ P ->
    exists c, calls st !! h = Some c /\
      ((live h st /\ fired_ c = []) \/ exists e, fired_ c = [e] /\ failure_expected st c e)).
  { intros h Hh. destruct (holders h (awaiting_response_ st)) as [|x l] eqn:E.
    - destruct (ci_done _ _ Hinv h Hh) as (c & e & Hc & Hf & Hexp).
      { intros Hl. apply holders_live in Hl. by rewrite E in Hl. }
      exists c. split; [done|]. right. by exists e.
    - assert (Hl : holders h (awaiting_response_ st) <> []) by (by rewrite E).
      apply holders_live in Hl. pose proof Hl as (id & car & Hid & Hc).
      destruct (ci_live _ _ Hinv id car h Hid Hc) as (_ & c & Hh' & Hf).
      exists c. split; [done|]. by left. }
  split; [|split].
  - intros h c Hc. destruct (decide (h ∈ P)) as [Hin|Hni].
    + destruct (Hcases h Hin) as (c' & Hc' & [[_ Hf]|(e & Hf & _)]);
        assert (c' = c) by congruence; subst c'; rewrite Hf; simpl; lia.
    + rewrite (ci_fresh _ _ Hinv h c Hc Hni). simpl. lia.
  - intros h Hq. apply Hcases. apply HP. by left.
  - intros s st' Hsh h Hq. apply Shutdown_torn_down in Hsh.
    eapply torn_down_call_inv; [exact Hinv|exact Hsh|]. apply HP. by left.
Qed.

End CallRuns.

(** ** Tear-down on errors, and the destructor *)

Lemma torn_down_torn_with d s st st' : torn_down d s st st' -> torn_with s st st'.
Proof.
  intros H.
  pose proof (td_awaiting _ _ _ _ H). pose proof (td_outbound _ _ _ _ H).
  pose proof (td_read_io _ _ _ _ H). pose proof (td_write_io _ _ _ _ H).
  pose proof (td_epoll _ _ _ _ H). pose proof (td_socket _ _ _ _ H).
  repeat split; try done.
  intros id car h Hid Hh.
  assert (Hin : (id, car) ∈ holders h (awaiting_response_ st)).
  { unfold holders. apply list_elem_of_filter. split; [done|].
    by apply elem_of_map_to_list. }
  assert (Hne : holders h (awaiting_response_ st) <> []).
  { intros E. rewrite E in Hin. by apply not_elem_of_nil in Hin. }
  destruct (td_valid _ _ _ _ H h Hne) as [c Hc].
  unfold failed_with. rewrite (td_calls _ _ _ _ H), Hc.
  destruct (holders h (awaiting_response_ st)) as [|x l]; [done|].
  eexists. split; [reflexivity|]. apply finish_iter.
Qed.

Lemma DestroyConnection_torn_with d s st0 st st' :
  same_core st st0 -> DestroyConnection d s st0 = Some st' -> torn_with s st st'.
Proof.
  intros Hs H. apply Shutdown_torn_down in H.
  eapply torn_down_torn_with, torn_down_core; [exact Hs|exact H|apply same_core_refl].
Qed.

(** X1.  The two [CHECK]s of the destructor pass on a connection that
    [Shutdown] has returned from, whatever its state was before; they fail on
    a connection that has just been registered with epoll. *)
Theorem Shutdown_before_delete d :
  (forall s st st', Shutdown d s st = Some st' -> Connection_delete st' = Some ()) /\
  (forall st, Connection_delete (EpollRegister st) = None).
Proof.
  split.
  - intros s st st' H%Shutdown_torn_down. unfold Connection_delete.
    by rewrite (td_outbound _ _ _ _ H), (td_epoll _ _ _ _ H).
  - intros st. unfold Connection_delete. simpl. by destruct (bool_decide _).
Qed.

(** X2.  An error event on the read or on the write watcher, a receive that
    fails and a send that fails each tear the connection down: the pending map
    and the outbound queue are emptied, both watchers stopped, the socket
    closed, and every call that was pending under a live handle fails with the
    status, which is the NetworkError that names the handler for an error
    event and the status of the receive or of the send otherwise. *)
Theorem io_errors_fail_pending_calls d st st' :
  (forall recv,
     ReadHandler (DestroyConnection d) true recv st = Some st' ->
     torn_with (STATUS kNetworkError (ToString st +:+ ": ReadHandler encountered an error"))
       st st') /\
  (forall status t,
     ok status = false ->
     ReadHandler (DestroyConnection d) false (status, t) st = Some st' ->
     torn_with status st st') /\
  (forall sends,
     WriteHandler d (DestroyConnection d) true sends st = Some st' ->
     torn_with (STATUS kNetworkError (ToString st +:+ ": writeHandler encountered an error"))
       st st') /\
  (forall status sends,
     outbound_transfers_ st <> [] ->
     WriteHandler d (DestroyConnection d) false (SendError status :: sends) st = Some st' ->
     torn_with status st st').
Proof.
  split; [|split; [|split]].
  - intros recv. unfold ReadHandler. by apply DestroyConnection_torn_with.
  - intros status t Hok. unfold ReadHandler. rewrite Hok. simpl.
    apply DestroyConnection_torn_with.
    destruct (inbound_ st), (bool_decide _); split; reflexivity.
  - intros sends. unfold WriteHandler. by apply DestroyConnection_torn_with.
  - intros status sends Hne. unfold WriteHandler.
    destruct (outbound_transfers_ st) as [|t rest] eqn:E; [done|].
    simpl. rewrite E. apply DestroyConnection_torn_with. split; reflexivity.
Qed.

(** ** Idle *)

Lemma Idle_true st :
  Idle st = true <->
  match inbound_ st with Some t => TransferStarted t = false | None => True end /\
  outbound_transfers_ st = [] /\ awaiting_response_ st = ∅ /\
  calls_being_handled_ st = ∅ /\ negotiation_complete_ st = true.
Proof.
  unfold Idle. rewrite !andb_true_iff, !bool_decide_eq_true.
  destruct (inbound_ st) as [t|]; [destruct (TransferStarted t)|]; intuition congruence.
Qed.

(** X3.  An idle server connection that reads the whole of a request that
    parses hands the call to the messenger.  A YB connection is not idle from
    then on, the call being in [calls_being_handled_]; a Redis or a CQL
    connection still is, although the call is being handled. *)
Theorem dispatched_call_and_Idle d t st st' :
  Idle st = true -> direction_ st = SERVER -> processing_call_ st = false ->
  TransferFinished t = true -> ok (frame_status (parse t)) = true ->
  ExcessData t = None ->
  ReadHandler (DestroyConnection d) false (Status_OK, t) st = Some st' ->
  messenger_queue st' = messenger_queue st ++ [call_of t] /\
  Idle st' = match protocol_ st with YB => false | Redis | CQL => true end.
Proof.
  intros (Hin & Ho & Ha & Hh & Hn)%Idle_true Hd Hp Hf Hok Hx.
  unfold ReadHandler. simpl. rewrite Hf. simpl.
  unfold HandleFinishedTransfer.
  assert (Hpr : forall x, protocol_ (set_inbound_ (Some t) x) = protocol_ x) by done.
  rewrite Hpr.
  assert (Hpr' : protocol_ (match inbound_ st with
                            | Some _ => st
                            | None => set_inbound_ (Some new_InboundTransfer) st
                            end) = protocol_ st) by (by destruct (inbound_ st)).
  rewrite Hpr'.
  destruct (protocol_ st).
  - unfold YB_HandleFinishedTransfer, YB_HandleIncomingCall. simpl.
    replace (direction_ _) with SERVER by (by destruct (inbound_ st)).
    rewrite Hok. simpl.
    replace (calls_being_handled_ _) with (∅ : gmap Z InboundCall)
      by (by destruct (inbound_ st)).
    rewrite lookup_empty. intros [= <-]. simpl. split.
    + by destruct (inbound_ st).
    + unfold Idle. simpl. rewrite !andb_false_iff. left; right.
      apply bool_decide_eq_false. apply insert_non_empty.
  - unfold Redis_HandleFinishedTransfer, Redis_HandleIncomingCall. simpl.
    replace (processing_call_ _) with false by (by destruct (inbound_ st)).
    replace (direction_ _) with SERVER by (by destruct (inbound_ st)).
    simpl. rewrite Hok. simpl. intros [= <-]. simpl. split.
    + by destruct (inbound_ st).
    + apply Idle_true. simpl. rewrite Hx. by destruct (inbound_ st).
  - unfold CQL_HandleFinishedTransfer, CQL_HandleIncomingCall. simpl.
    replace (direction_ _) with SERVER by (by destruct (inbound_ st)).
    simpl. rewrite Hok. simpl. intros [= <-]. simpl. split.
    + by destruct (inbound_ st).
    + apply Idle_true. simpl. by destruct (inbound_ st).
Qed.

(** ** Serving a request *)

(** The members of a state that is written as a chain of assignments. *)
Ltac fields :=
  cbn [this_ remote_ protocol_ direction_ is_epoll_registered_ next_call_id_
       negotiation_complete_ shutdown_status_ awaiting_response_ calls_being_handled_
       outbound_transfers_ inbound_ processing_call_ read_io_ write_io_ socket_open_
       calls log messenger_queue transfer_edges transfers_made shutdowns
       set_is_epoll_registered_ set_next_call_id_ set_negotiation_complete_
       set_shutdown_status_ set_awaiting_response_ set_calls_being_handled_
       set_outbound_transfers_ set_inbound_ set_processing_call_ set_read_io_
       set_write_io_ set_socket_open_ set_calls set_log set_messenger_queue
       set_transfer_edges set_transfers_made set_shutdowns
       LOG QueueInboundCall fire_transfer_edge].

Lemma ReadHandler_dispatched DC status t st :
  ok status = true -> direction_ st = SERVER ->
  TransferFinished t = true -> ok (frame_status (parse t)) = true ->
  match protocol_ st with
  | YB => calls_being_handled_ st !! frame_call_id (parse t) = None
  | Redis => processing_call_ st = false
  | CQL => True
  end ->
  ReadHandler DC false (status, t) st = Some (dispatched t st).
Proof.
  intros Hs Hd Hf Hok Hp. unfold ReadHandler, dispatched. rewrite Hs, Hf. simpl.
  unfold HandleFinishedTransfer.
  destruct (inbound_ st) as [i|] eqn:Ei; fields.
  all: destruct (protocol_ st).
  all: unfold YB_HandleFinishedTransfer, YB_HandleIncomingCall,
         Redis_HandleFinishedTransfer, Redis_HandleIncomingCall,
         CQL_HandleFinishedTransfer, CQL_HandleIncomingCall; fields.
  all: repeat first [rewrite Hd | rewrite Hok | rewrite Hp | progress simpl]; reflexivity.
Qed.

Lemma QueueResponseForCall_queued d DC call sl st :
  direction_ st = SERVER -> ok (shutdown_status_ st) = true ->
  QueueResponseForCall d DC call sl st
  = Some (start_write
            (set_outbound_transfers_
               (outbound_transfers_ st ++
                [mkOutbound (transfers_made st) sl (GetResponseTransferCallback call st)
                   false false])
               (set_transfers_made (S (transfers_made st)) st))).
Proof.
  intros Hd Hs. unfold QueueResponseForCall. rewrite Hd. simpl.
  unfold QueueOutbound. simpl. rewrite Hs. reflexivity.
Qed.

Lemma WriteHandler_one d DC tr st :
  outbound_transfers_ st = [tr] ->
  WriteHandler d DC false [SendComplete] st
  = st1 ← NotifyTransferFinished DC (callbacks tr)
            (fire_transfer_edge (transfer_id tr) TransferFinishedEdge
               (set_outbound_transfers_ [transfer_set_finished tr] st));
    Some (let st2 := set_outbound_transfers_ (tail (outbound_transfers_ st1)) st1 in
          match outbound_transfers_ st2 with
          | [] => set_write_io_ false st2
          | _ :: _ => st2
          end).
Proof.
  intros Ho. unfold WriteHandler. rewrite Ho. simpl. rewrite Ho.
  unfold SendBuffer_finished. rewrite Ho.
  destruct (NotifyTransferFinished _ _ _) as [st1|]; [|done]. simpl.
  unfold OutboundTransfer_delete. simpl.
  by destruct (tail (outbound_transfers_ st1)).
Qed.

Lemma dispatched_core t st : same_core st (dispatched t st).
Proof. unfold dispatched. destruct (protocol_ st); split; reflexivity. Qed.

Lemma start_write_negotiated st :
  negotiation_complete_ st = true ->
  start_write st = if write_io_ st then st else set_write_io_ true st.
Proof. intros H. unfold start_write. rewrite H. by destruct (write_io_ st). Qed.

(** X4.  Serving one request on an idle server connection that is not shut
    down (the request is read whole, its response is queued and sent whole)
    succeeds and leaves the connection idle again, on each protocol: the call
    was handed to the messenger, the finished edge of the response transfer
    has fired, the write watcher is stopped, [processing_call_] is clear and
    nothing was logged. *)
Theorem serving_returns_to_idle d t sl st :
  Idle st = true -> direction_ st = SERVER -> processing_call_ st = false ->
  ok (shutdown_status_ st) = true ->
  TransferFinished t = true -> ok (frame_status (parse t)) = true ->
  ExcessData t = None ->
  exists st',
    run d (serve_one t sl) st = Some st' /\
    Idle st' = true /\ write_io_ st' = false /\ processing_call_ st' = false /\
    messenger_queue st' = messenger_queue st ++ [call_of t] /\
    transfer_edges st' = transfer_edges st ++ [(transfers_made st, TransferFinishedEdge)] /\
    log st' = log st /\ shutdowns st' = shutdowns st.
Proof.
  intros (Hin & Ho & Ha & Hh & Hn)%Idle_true Hd Hp Hs Hf Hok Hx.
  unfold serve_one, run, step. generalize (DestroyConnection d). intros DC.
  rewrite ReadHandler_dispatched; try done.
  2:{ destruct (protocol_ st); [by rewrite Hh, lookup_empty|done..]. }
  cbn [mbind option_bind].
  destruct (dispatched_core t st) as [_ _ Hp1 Hd1 _ _ Hn1 Hs1 _ Ho1 _ Hw1 _ _ _ Hm1 _].
  rewrite QueueResponseForCall_queued by (by rewrite ?Hs1, ?Hd1).
  cbn [mbind option_bind].
  rewrite start_write_negotiated by (fields; by rewrite Hn1).
  fields. rewrite Hw1, Ho1, Ho, Hm1. cbn [app].
  unfold GetResponseTransferCallback. rewrite Hp1.
  match goal with |- context [WriteHandler _ _ _ _ ?x] =>
    rewrite (WriteHandler_one d DC
               (mkOutbound (transfers_made st) sl
                  match protocol_ st with
                  | YB => YBResponseTransferCallbacks (call_of t)
                  | Redis => RedisResponseTransferCallbacks (call_of t)
                  | CQL => CQLResponseTransferCallbacks (call_of t)
                  end false false) x)
      by (by destruct (write_io_ st)) end.
  unfold dispatched.
  destruct (protocol_ st) eqn:Ep, (write_io_ st) eqn:Ew.
  all: cbn [callbacks transfer_id].
  all: unfold NotifyTransferFinished, delete_callbacks, Redis_FinishedHandlingACall,
         CQL_FinishedHandlingACall; fields.
  all: rewrite ?Hh, ?lookup_insert_eq, ?Hx; cbn [mbind option_bind call_of ic_call_id].
  all: rewrite ?bool_decide_eq_true_2 by reflexivity; cbn [mbind option_bind].
  all: fields; cbn [tail].
  all: (eexists; split; [reflexivity|]); rewrite Idle_true; fields.
  all: rewrite ?delete_insert_eq, ?delete_empty, ?Ha, ?Hh, ?Hn, ?Hx; repeat split; exact Hp.
Qed.

(** ** The life of a connection *)

Section Lifetime.
Variable d : Status.


Lemma atom_identity st st' :
  atom d st st' ->
  this_ st' = this_ st /\ remote_ st' = remote_ st /\
  protocol_ st' = protocol_ st /\ direction_ st' = direction_ st.
Proof.
  intros H. destruct H;
    repeat match goal with
           | H : same_core _ _ |- _ => destruct H
           | H : torn_down _ _ _ _ |- _ => destruct H
           end;
    unfold EpollRegister, start_write in *;
    repeat match goal with
           | H : context [if ?c then _ else _] |- _ => destruct c
           end;
    simpl in *; repeat split; congruence.
Qed.

Lemma atoms_identity st st' :
  rtc (atom d) st st' ->
  this_ st' = this_ st /\ remote_ st' = remote_ st /\
  protocol_ st' = protocol_ st /\ direction_ st' = direction_ st.
Proof.
  induction 1 as [|x y z Hxy _ IH]; [done|].
  apply atom_identity in Hxy. destruct IH as (?&?&?&?), Hxy as (?&?&?&?).
  repeat split; congruence.
Qed.

Lemma step_identity e st st' :
  step d e st = Some st' ->
  this_ st' = this_ st /\ remote_ st' = remote_ st /\
  protocol_ st' = protocol_ st /\ direction_ st' = direction_ st.
Proof.
  intros Hstep. pose proof (step_atoms _ _ _ _ Hstep) as Hat.
  destruct e; try (by apply atoms_identity).
  - by subst st'.
  - destruct Hat as [(c & _ & _ & _ & ->)|[(c & _ & _ & _ & _ & _ & ->)
                    |(c & _ & _ & _ & _ & _ & ->)]]; try done.
    unfold start_write. by destruct (_ && _).
Qed.

Lemma run_identity tr :
  forall st st',
    run d tr st = Some st' ->
    this_ st' = this_ st /\ remote_ st' = remote_ st /\
    protocol_ st' = protocol_ st /\ direction_ st' = direction_ st.
Proof.
  induction tr as [|e tr IH]; intros st st'; simpl.
  - by intros [= <-].
  - destruct (step d e st) as [st1|] eqn:E; [|done]. simpl. intros Hrun.
    apply IH in Hrun as (?&?&?&?). apply step_identity in E as (?&?&?&?).
    repeat split; congruence.
Qed.

(** X6.  No method changes what [ToString] prints: the address, the direction
    and the remote address of a connection, and its dynamic class, are the
    same after every run. *)
Theorem ToString_is_constant tr st st' :
  run d tr st = Some st' ->
  ToString st' = ToString st /\
  this_ st' = this_ st /\ remote_ st' = remote_ st /\
  protocol_ st' = protocol_ st /\ direction_ st' = direction_ st.
Proof.
  intros H. pose proof (run_identity _ _ _ H) as (H1 & H2 & H3 & H4).
  split; [|done]. unfold ToString. by rewrite H1, H2, H4.
Qed.

Lemma same_core_watching st st' : same_core st st' -> watching st -> watching st'.
Proof.
  intros Hc [Hr Hs]. split.
  - by rewrite (sc_read_io _ _ Hc), (sc_epoll _ _ Hc).
  - by rewrite (sc_socket _ _ Hc), (sc_shutdowns _ _ Hc).
Qed.

Lemma torn_down_watching s st st' : torn_down d s st st' -> watching st'.
Proof.
  intros H. split.
  - by rewrite (td_read_io _ _ _ _ H), (td_epoll _ _ _ _ H).
  - rewrite (td_socket _ _ _ _ H). destruct (td_shutdowns _ _ _ _ H) as (more & -> & _).
    split; [done|]. intros E. by apply app_nil in E as [_ ?].
Qed.

Lemma atom_watching st st' : atom d st st' -> watching st -> watching st'.
Proof.
  intros H Hw. destruct H;
    first [ by eapply torn_down_watching
          | eapply same_core_watching; [eassumption|] ].
  all: destruct Hw as [Hr Hs]; unfold watching, EpollRegister, start_write.
  all: repeat match goal with |- context [if ?c then _ else _] => destruct c end.
  all: simpl; by split.
Qed.

Lemma step_watching e st st' : step d e st = Some st' -> watching st -> watching st'.
Proof.
  intros Hstep. pose proof (step_atoms _ _ _ _ Hstep) as Hat.
  assert (Hrtc : forall x y, rtc (atom d) x y -> watching x -> watching y).
  { clear. induction 1; eauto using atom_watching. }
  destruct e; try (by apply Hrtc).
  - by subst st'.
  - destruct Hat as [(c & _ & _ & _ & ->)|[(c & _ & _ & _ & _ & _ & ->)
                    |(c & _ & _ & _ & _ & _ & ->)]]; try done.
    unfold start_write, watching. by destruct (_ && _).
Qed.

(** X7.  At every point of the life of a connection the read watcher is
    active exactly when the connection is registered with epoll, and the
    socket is open exactly when [Shutdown] has not run. *)
Theorem read_watcher_and_socket this remote p dir heap tr st :
  run d tr (Connection_new this remote p dir heap) = Some st ->
  read_io_ st = is_epoll_registered_ st /\
  (socket_open_ st = true <-> shutdowns st = []).
Proof.
  assert (Hrun : forall tr st0 st, run d tr st0 = Some st -> watching st0 -> watching st).
  { clear. intros tr. induction tr as [|e tr IH]; intros st0 st; simpl.
    - by intros [= <-].
    - destruct (step d e st0) as [st1|] eqn:E; [|done]. simpl.
      intros Hrun Hw. eapply IH; [exact Hrun|]. by eapply step_watching. }
  intros H. apply (Hrun _ _ _ H). by split.
Qed.

(** X8.  On a client connection on which every [MarkNegotiationComplete] is
    directly followed by [EpollRegister], an outbound queue that is not empty
    has its write watcher active unless negotiation is not complete, also when
    calls were queued during the negotiation. *)
Theorem client_armed_on_completion this remote p heap tr st :
  registered_on_completion tr ->
  run d tr (Connection_new this remote p CLIENT heap) = Some st ->
  write_armed st.
Proof.
  assert (Hgen : forall n tr st0 st,
    length tr <= n -> registered_on_completion tr ->
    direction_ st0 = CLIENT -> write_armed st0 ->
    run d tr st0 = Some st -> write_armed st).
  { clear. induction n as [|n IH]; intros tr st0 st Hlen Hreg Hd Hw.
    { destruct tr; [|simpl in Hlen; lia]. by intros [= <-]. }
    destruct tr as [|e tr]; [by intros [= <-]|]. simpl in Hlen.
    assert (Hother : (match e with EvMarkNegotiationComplete => False | _ => True end) ->
                     registered_on_completion tr ->
                     run d (e :: tr) st0 = Some st -> write_armed st).
    { intros He Hreg'. simpl. destruct (step d e st0) as [st1|] eqn:E; [|done]. simpl.
      apply IH; [lia|done| |].
      - apply step_identity in E as (_&_&_&->). done.
      - eapply step_write_armed; [|exact E|exact Hw]. by destruct e. }
    destruct e; try (by apply Hother).
    simpl in Hreg. destruct tr as [|e' tr]; [done|].
    destruct e'; try done. simpl.
    apply IH; [simpl in Hlen; lia|done| |].
    + unfold EpollRegister. by destruct (_ && _).
    + right; left. unfold EpollRegister, MarkNegotiationComplete. simpl.
      rewrite bool_decide_eq_true_2 by done. done. }
  intros Hreg Hrun.
  eapply (Hgen _ tr (Connection_new this remote p CLIENT heap) st);
    [reflexivity|exact Hreg|done|by left|exact Hrun].
Qed.

End Lifetime.

(** ** Invariants through the tear-down *)

(** Tying the knot of the tear-down: an invariant that [Shutdown] keeps when
    the loop over the queue does, and that the destruction of a queued
    transfer keeps when the tear-down does, is kept by [Shutdown]. *)
Section Knot.

Variable d : Status.
Variable I : State -> Prop.
Variable G : Status -> Prop.

Hypothesis G_error : forall s, ok s = false -> G s.
Hypothesis I_Shutdown_with : forall clear s,
  G s -> keeps I clear -> keeps I (Shutdown_with clear s).
Hypothesis I_delete : forall DC t rest st st',
  (forall s, ok s = false -> keeps I (DC s)) ->
  I st -> outbound_transfers_ st = t :: rest ->
  OutboundTransfer_delete d DC t (set_outbound_transfers_ rest st) = Some st' -> I st'.

Lemma clear_outbound_transfers_keeps n : keeps I (clear_outbound_transfers d n).
Proof.
  induction n as [|n IH]; intros st st' HI; simpl.
  - by intros [= <-].
  - destruct (outbound_transfers_ st) as [|t rest] eqn:Eo.
    { by intros [= <-]. }
    destruct (OutboundTransfer_delete _ _ t _) as [st1|] eqn:E1; [|done]. simpl.
    apply IH. eapply I_delete; [|exact HI|exact Eo|exact E1].
    intros s Hs. apply I_Shutdown_with; [by apply G_error|exact IH].
Qed.

Lemma Shutdown_keeps s : G s -> keeps I (Shutdown d s).
Proof.
  intros Hs st st' HI. unfold Shutdown.
  apply I_Shutdown_with; [done|apply clear_outbound_transfers_keeps|done].
Qed.

Lemma run_keeps (allowed : Event -> Prop) tr :
  (forall e, allowed e -> keeps I (step d e)) ->
  Forall allowed tr -> keeps I (run d tr).
Proof.
  intros Hstep. induction tr as [|e tr IH]; intros Hall st st' HI; simpl.
  - by intros [= <-].
  - apply Forall_cons in Hall as [He Hall].
    destruct (step d e st) as [st1|] eqn:E; [|done]. simpl.
    apply IH; [done|]. by eapply Hstep.
Qed.

End Knot.

Lemma HandleTimeout_Some id st st' :
  HandleTimeout id st = Some st' ->
  exists car h c,
    awaiting_response_ st !! id = Some car /\ timeout_timer car = true /\
    car_call car = Some h /\ calls st !! h = Some c /\ IsFinished c = false /\
    st' = set_awaiting_response_ (<[id := mkCar None false]> (awaiting_response_ st))
            (set_calls (<[h := call_finish StTimedOut EdgeTimedOut c]> (calls st)) st).
Proof.
  unfold HandleTimeout.
  destruct (awaiting_response_ st !! id) as [car|] eqn:Ea; [|done]. simpl.
  destruct (timeout_timer car) eqn:Et; [|done].
  unfold HandleOutboundCallTimeout. simpl. rewrite lookup_insert_eq. simpl.
  destruct (car_call car) as [h|] eqn:Ec; [|done]. simpl.
  destruct (calls st !! h) as [c|] eqn:Eh; [|done]. simpl.
  destruct (IsFinished c) eqn:Ef; [done|].
  unfold SetTimedOut, update_call. simpl. rewrite Eh. simpl.
  intros [= <-]. exists car, h, c. repeat split; try done.
  by rewrite insert_insert_eq.
Qed.

Lemma fail_awaiting_calls s l st st' :
  fail_awaiting s l st = Some st' -> st' = set_calls (calls st') st.
Proof. intros H. by apply fail_awaiting_spec in H as [? _]. Qed.

Section OneInFlight.

Variable d : Status.

Section OneInFlightHandlers.

Variable DC : Status -> State -> option State.
Hypothesis DC_keeps : forall s, ok s = false -> keeps one_in_flight (DC s).

Lemma Redis_HandleFinishedTransfer_one st st' :
  one_in_flight st ->
  Redis_HandleFinishedTransfer DC st = Some st' -> one_in_flight st'.
Proof.
  intros HI. pose proof HI as (Hp & Hd & Hq & Hn).
  unfold Redis_HandleFinishedTransfer, Redis_HandleIncomingCall.
  destruct (processing_call_ st) eqn:Ep.
  { by intros [= <-]. }
  destruct (negb _); [done|]. destruct (inbound_ st) as [t|]; [|done]. simpl.
  destruct (ok (frame_status (parse t))) eqn:Eok; simpl.
  - intros [= <-]. repeat split; try done. simpl. rewrite length_app. simpl. lia.
  - destruct (DC _ _) as [st1|] eqn:E1; [|done]. simpl. intros [= <-].
    apply DC_keeps in E1; [done|done|]. repeat split; try done. simpl. by rewrite Ep.
Qed.

(** The destructor of the callbacks, run right after the edge has fired. *)
Lemma delete_callbacks_one t st0 st st' :
  redis_callbacks t ->
  one_in_flight st0 ->
  protocol_ st = protocol_ st0 -> direction_ st = direction_ st0 ->
  Forall redis_callbacks (outbound_transfers_ st) ->
  messenger_queue st = messenger_queue st0 ->
  length (transfer_edges st) = S (length (transfer_edges st0)) ->
  delete_callbacks DC (callbacks t) st = Some st' -> one_in_flight st'.
Proof.
  unfold redis_callbacks. intros Hcb (Hp & Hd & Hq & Hn) Ep Ed Eq Em Ee.
  destruct (callbacks t) as [h|call|call|call]; try done. simpl.
  unfold Redis_FinishedHandlingACall.
  assert (HI : one_in_flight (set_processing_call_ false st)).
  { split; [simpl; congruence|]. split; [simpl; congruence|]. split; [done|].
    simpl. rewrite Em, Ee. destruct (processing_call_ st0); lia. }
  simpl. destruct (inbound_ st) as [i|].
  - destruct (TransferFinished i).
    + by apply Redis_HandleFinishedTransfer_one.
    + by intros [= <-].
  - by intros [= <-].
Qed.

Lemma OutboundTransfer_Abort_one t s st st' :
  redis_callbacks t -> one_in_flight st ->
  OutboundTransfer_Abort DC t s st = Some st' -> one_in_flight st'.
Proof.
  intros Hcb HI. unfold OutboundTransfer_Abort.
  pose proof Hcb as Hcb'. unfold redis_callbacks in Hcb'.
  destruct (callbacks t) as [h|call|call|call] eqn:Ecb; try done.
  cbn [NotifyTransferAborted]. rewrite <- Ecb.
  destruct HI as (? & ? & ? & ?).
  eapply (delete_callbacks_one t st); simpl; try done.
  rewrite length_app. simpl. lia.
Qed.

Lemma OutboundTransfer_delete_one t rest st st' :
  one_in_flight st -> outbound_transfers_ st = t :: rest ->
  OutboundTransfer_delete d DC t (set_outbound_transfers_ rest st) = Some st' ->
  one_in_flight st'.
Proof.
  intros HI Eo. pose proof HI as (Hp & Hd & Hq & Hn).
  rewrite Eo in Hq. apply Forall_cons in Hq as [Ht Hrest].
  assert (HI' : one_in_flight (set_outbound_transfers_ rest st)) by (by repeat split).
  unfold OutboundTransfer_delete. destruct (_ || _).
  - by intros [= <-].
  - by apply OutboundTransfer_Abort_one.
Qed.

Lemma QueueResponseForCall_one call sl st st' :
  one_in_flight st ->
  QueueResponseForCall d DC call sl st = Some st' -> one_in_flight st'.
Proof.
  intros HI. pose proof HI as (Hp & Hd & Hq & Hn).
  unfold QueueResponseForCall, GetResponseTransferCallback. rewrite Hd, Hp. simpl.
  unfold QueueOutbound. simpl.
  destruct (ok (shutdown_status_ st)); simpl.
  - intros [= <-].
    assert (one_in_flight
              (set_outbound_transfers_
                 (outbound_transfers_ st ++
                  [mkOutbound (transfers_made st) sl (RedisResponseTransferCallbacks call)
                     false false])
                 (set_transfers_made (S (transfers_made st)) st))).
    { repeat split; try done. simpl. apply Forall_app. split; [done|].
      by apply Forall_singleton. }
    by destruct (_ && _).
  - destruct (OutboundTransfer_Abort _ _ _ _) as [st1|] eqn:E1; [|done]. simpl.
    unfold OutboundTransfer_delete. simpl. intros [= <-].
    eapply OutboundTransfer_Abort_one; [| |exact E1]; [done|].
    by repeat split.
Qed.

Lemma ReadHandler_one ev_error recv st st' :
  one_in_flight st ->
  ReadHandler DC ev_error recv st = Some st' -> one_in_flight st'.
Proof.
  intros HI. pose proof HI as (Hp & Hd & Hq & Hn).
  unfold ReadHandler. destruct ev_error.
  { by apply DC_keeps. }
  set (sti := match inbound_ st with None => _ | Some _ => st end).
  assert (Hi : one_in_flight sti).
  { unfold sti. by destruct (inbound_ st). }
  clearbody sti. destruct recv as [status t].
  destruct (ok status) eqn:Es; simpl.
  2:{ apply DC_keeps; [done|]. by destruct (bool_decide _). }
  destruct (TransferFinished t); simpl.
  2:{ by intros [= <-]. }
  unfold HandleFinishedTransfer. simpl.
  destruct Hi as (Hp' & ?). rewrite Hp'.
  by apply Redis_HandleFinishedTransfer_one.
Qed.

End OneInFlightHandlers.

Lemma one_in_flight_frame st st' :
  protocol_ st' = protocol_ st -> direction_ st' = direction_ st ->
  outbound_transfers_ st' = outbound_transfers_ st ->
  messenger_queue st' = messenger_queue st ->
  transfer_edges st' = transfer_edges st ->
  processing_call_ st' = processing_call_ st ->
  one_in_flight st -> one_in_flight st'.
Proof. unfold one_in_flight. intros -> -> -> -> -> ->. done. Qed.

Lemma Shutdown_with_one clear s :
  keeps one_in_flight clear -> keeps one_in_flight (Shutdown_with clear s).
Proof.
  intros Hclear st st' HI. unfold Shutdown_with.
  set (sta := match inbound_ _ with Some _ => _ | None => _ end).
  assert (Ha : one_in_flight sta).
  { unfold sta. simpl.
    destruct (inbound_ st) as [t|]; [destruct (TransferStarted t)|];
      by eapply one_in_flight_frame; [..|exact HI]. }
  clearbody sta.
  destruct (fail_awaiting s _ sta) as [stb|] eqn:Eb; [|done]. simpl.
  apply fail_awaiting_calls in Eb.
  destruct (clear _) as [stc|] eqn:Ec; [|done]. simpl. intros [= <-].
  apply Hclear in Ec.
  - by eapply one_in_flight_frame; [..|exact Ec].
  - rewrite Eb. by eapply one_in_flight_frame; [..|exact Ha].
Qed.

Lemma DestroyConnection_one s : keeps one_in_flight (DestroyConnection d s).
Proof.
  apply (Shutdown_keeps d one_in_flight (fun _ => True)); try done.
  - intros clear s' _. apply Shutdown_with_one.
  - intros DC t rest st st' HDC. by apply OutboundTransfer_delete_one.
Qed.

Lemma write_loop_one sends :
  forall st st',
    one_in_flight st -> write_loop d (DestroyConnection d) sends st = Some st' ->
    one_in_flight st'.
Proof.
  induction sends as [|o sends IH]; intros st st' HI; simpl.
  - destruct (outbound_transfers_ st); intros [= <-]; [|done].
    by eapply one_in_flight_frame.
  - destruct (outbound_transfers_ st) as [|t rest] eqn:Eo.
    { intros [= <-]. by eapply one_in_flight_frame. }
    destruct o as [s| |].
    + apply DestroyConnection_one. by eapply one_in_flight_frame.
    + by intros [= <-].
    + pose proof HI as (Hp & Hd & Hq & Hn).
      rewrite Eo in Hq. pose proof Hq as [Ht Hrest]%Forall_cons.
      destruct (SendBuffer_finished _ t st) as [st1|] eqn:E1; [|done]. simpl.
      unfold OutboundTransfer_delete. simpl. apply IH.
      unfold SendBuffer_finished in E1. rewrite Eo in E1.
      pose proof Ht as Ht'. unfold redis_callbacks in Ht'.
      destruct (callbacks t) as [h|call|call|call] eqn:Ecb; try done.
      cbn [NotifyTransferFinished] in E1. rewrite <- Ecb in E1.
      eapply (delete_callbacks_one _ (fun s _ => DestroyConnection_one s) t st) in E1;
        try done.
      * destruct E1 as (? & ? & Hq1 & ?). repeat split; try done. simpl.
        destruct (outbound_transfers_ st1); [done|]. by apply Forall_cons in Hq1 as [_ ?].
      * simpl. apply Forall_cons. split; [|done]. unfold redis_callbacks. simpl.
        by rewrite Ecb.
      * simpl. rewrite length_app. simpl. lia.
Qed.

Lemma step_one e : keeps one_in_flight (step d e).
Proof.
  intros st st' HI. destruct e; simpl.
  - intros [= <-]. unfold EpollRegister.
    destruct (_ && _); by eapply one_in_flight_frame; [..|exact HI].
  - intros [= <-]. by eapply one_in_flight_frame; [..|exact HI].
  - by apply DestroyConnection_one.
  - destruct HI as (_ & Hd & _). unfold QueueOutboundCall.
    destruct (calls st !! call); [|done]. simpl. by rewrite Hd.
  - by apply QueueResponseForCall_one; [intros s _; apply DestroyConnection_one|].
  - by apply ReadHandler_one; [intros s _; apply DestroyConnection_one|].
  - unfold WriteHandler. destruct ev_error.
    { by apply DestroyConnection_one. }
    destruct (outbound_transfers_ st) eqn:Eo.
    + intros [= <-]. by eapply one_in_flight_frame; [..|exact HI].
    + by apply write_loop_one.
  - intros (car & h & c & _ & _ & _ & _ & _ & ->)%HandleTimeout_Some.
    by eapply one_in_flight_frame; [..|exact HI].
Qed.

(** X9.  On a Redis server connection the calls handed to the messenger never
    outnumber the callback edges fired on response transfers by more than one,
    and not at all unless [processing_call_] is set. *)
Theorem Redis_one_call_in_flight this remote heap tr st :
  run d tr (Connection_new this remote Redis SERVER heap) = Some st ->
  length (messenger_queue st)
  <= length (transfer_edges st) + (if processing_call_ st then 1 else 0).
Proof.
  intros Hrun.
  assert (HI : one_in_flight st); [|by destruct HI as (_ & _ & _ & ?)].
  eapply (run_keeps d one_in_flight (fun _ => True) tr); [| | |exact Hrun].
  - intros e _. apply step_one.
  - by apply Forall_forall.
  - unfold one_in_flight. simpl. split; [done|]. split; [done|]. split; [apply Forall_nil_2|lia].
Qed.

End OneInFlight.

(** ** The calls being served *)

Lemma served_frame p st st' :
  protocol_ st' = protocol_ st ->
  calls_being_handled_ st' = calls_being_handled_ st ->
  (exists more, messenger_queue st' = messenger_queue st ++ more) ->
  (p <> Redis ->
   processing_call_ st' = processing_call_ st /\
   (inbound_ st' = inbound_ st \/ inbound_ st' = None \/
    exists t, inbound_ st' = Some t /\ TransferFinished t = false)) ->
  served p st -> served p st'.
Proof.
  intros Ep Eh (more & Em) Ei (Hpr & Hh & He & Hp). unfold served. rewrite Ep, Eh.
  split; [done|]. split; [|split; [done|]].
  - eapply map_Forall_impl; [exact Hh|]. intros id c [? Hin]. split; [done|].
    rewrite Em. apply elem_of_app. by left.
  - intros Hr. destruct (Hp Hr) as [Hpc Hin]. destruct (Ei Hr) as [-> Hi].
    split; [done|]. intros t Ht.
    destruct Hi as [Hi|[Hi|(t' & Hi & Hf)]]; [rewrite Hi in Ht; by apply Hin|congruence|].
    congruence.
Qed.

(** A change that leaves alone what [served] reads, but for an inbound
    transfer that is taken. *)
Ltac frame_served H :=
  eapply served_frame; [..|exact H]; simpl;
  [ reflexivity | reflexivity
  | first [ by exists [] ; rewrite app_nil_r | by eexists ]
  | intros _; split; [reflexivity|]; first [ by left | by right; left ] ].

Section Served.

Variable d : Status.
Variable p : Protocol.

Section ServedHandlers.

Variable DC : Status -> State -> option State.
Hypothesis DC_keeps : forall s, ok s = false -> keeps (served p) (DC s).

Lemma YB_HandleIncomingCall_served t st st' :
  p = YB -> inbound_ st = None ->
  served p st -> YB_HandleIncomingCall DC t st = Some st' -> served p st'.
Proof.
  intros Hp Hi HI. unfold YB_HandleIncomingCall.
  destruct (ok (frame_status (parse t))) eqn:Eok; simpl.
  2:{ apply DC_keeps; [done|]. frame_served HI. }
  destruct (calls_being_handled_ st !! _) eqn:El.
  { apply DC_keeps; [done|]. frame_served HI. }
  intros [= <-]. destruct HI as (Hpr & Hh & He & Hr). split; [done|]. split; [|split]; simpl.
  - apply map_Forall_insert_2.
    + split; [done|]. apply elem_of_app. right. apply list_elem_of_here.
    + eapply map_Forall_impl; [exact Hh|]. intros id c [? Hin]. split; [done|].
      apply elem_of_app. by left.
  - done.
  - done.
Qed.

Lemma served_set_inbound x st :
  (p <> Redis -> match x with Some t => TransferFinished t = false | None => True end) ->
  served p st -> served p (set_inbound_ x st).
Proof.
  intros Hx HI. eapply served_frame; [..|exact HI]; simpl; try done.
  - exists []. by rewrite app_nil_r.
  - intros Hr. split; [done|]. specialize (Hx Hr). destruct x as [t|]; [|by right; left].
    right; right. by exists t.
Qed.

Lemma Redis_HandleFinishedTransfer_served st st' :
  p = Redis ->
  served p st -> Redis_HandleFinishedTransfer DC st = Some st' -> served p st'.
Proof.
  intros Hp HI. unfold Redis_HandleFinishedTransfer, Redis_HandleIncomingCall.
  destruct (processing_call_ st) eqn:Ep.
  { by intros [= <-]. }
  destruct (negb _); [done|]. destruct (inbound_ st) as [t|]; [|done]. simpl.
  destruct (ok (frame_status (parse t))) eqn:Eok; simpl.
  - intros [= <-]. eapply served_frame; [..|exact HI]; simpl;
      [done|done|by eexists|intros Hr; destruct (Hr Hp)].
  - destruct (DC _ _) as [st1|] eqn:E1; [|done]. simpl. intros [= <-].
    apply served_set_inbound; [intros Hr; destruct (Hr Hp)|]. eapply DC_keeps; [| |exact E1]; [done|].
    eapply served_frame; [..|exact HI]; simpl;
      [done|done|by exists []; rewrite app_nil_r|intros Hr; destruct (Hr Hp)].
Qed.

Lemma CQL_HandleFinishedTransfer_served st st' :
  served p st -> CQL_HandleFinishedTransfer st = Some st' -> served p st'.
Proof.
  intros HI. unfold CQL_HandleFinishedTransfer, CQL_HandleIncomingCall.
  destruct (negb _); [done|]. destruct (inbound_ st) as [t|]; [|done]. simpl.
  destruct (ok (frame_status (parse t))); simpl; intros [= <-].
  all: eapply served_frame; [..|exact HI]; simpl; try done.
  all: try (by eexists); try (by exists []; rewrite app_nil_r).
  all: intros _; split; [done|]; by right; left.
Qed.

Lemma delete_callbacks_served cb st st' :
  served p st -> delete_callbacks DC cb st = Some st' -> served p st'.
Proof.
  intros HI. pose proof HI as (Hpr & Hh & He & Hr).
  destruct cb as [h|call|call|call]; simpl.
  - by intros [= <-].
  - destruct (calls_being_handled_ st !! _) as [c|] eqn:El; [|done]. simpl.
    destruct (bool_decide _); [|done]. intros [= <-].
    split; [done|]. split; [|split]; simpl.
    + by apply map_Forall_delete.
    + intros Hy. rewrite (He Hy). apply delete_empty.
    + done.
  - unfold Redis_FinishedHandlingACall. simpl.
    destruct (decide (p = Redis)) as [Hp|Hp].
    + assert (HI' : served p (set_processing_call_ false st)).
      { eapply served_frame; [..|exact HI]; simpl; try done.
        by exists []; rewrite app_nil_r. }
      destruct (inbound_ st) as [i|]; [destruct (TransferFinished i)|].
      * by apply Redis_HandleFinishedTransfer_served.
      * by intros [= <-].
      * by intros [= <-].
    + destruct (Hr Hp) as [Hpc Hin].
      assert (HI' : served p (set_processing_call_ false st)).
      { eapply served_frame; [..|exact HI]; simpl; try done.
        - by exists []; rewrite app_nil_r.
        - intros _. split; [by rewrite Hpc|by left]. }
      destruct (inbound_ st) as [i|] eqn:Ei; [|by intros [= <-]].
      rewrite (Hin i eq_refl). by intros [= <-].
  - unfold CQL_FinishedHandlingACall.
    destruct (inbound_ st) as [i|]; [destruct (TransferFinished i)|].
    + by apply CQL_HandleFinishedTransfer_served.
    + by intros [= <-].
    + by intros [= <-].
Qed.

Lemma OutboundTransfer_Abort_served t s st st' :
  served p st -> OutboundTransfer_Abort DC t s st = Some st' -> served p st'.
Proof.
  intros HI. unfold OutboundTransfer_Abort.
  assert (HI' : forall sev msg,
    served p (LOG sev msg (fire_transfer_edge (transfer_id t) (TransferAbortedEdge s) st))).
  { intros sev msg. frame_served HI. }
  destruct (callbacks t) as [h|call|call|call] eqn:Ecb; cbn [NotifyTransferAborted].
  - intros [= <-]. apply HI'.
  - apply delete_callbacks_served, HI'.
  - apply delete_callbacks_served, HI'.
  - apply delete_callbacks_served, HI'.
Qed.

Lemma OutboundTransfer_delete_served t rest st st' :
  served p st ->
  OutboundTransfer_delete d DC t (set_outbound_transfers_ rest st) = Some st' ->
  served p st'.
Proof.
  intros HI.
  assert (HI' : served p (set_outbound_transfers_ rest st)) by frame_served HI.
  unfold OutboundTransfer_delete. destruct (_ || _).
  - by intros [= <-].
  - by apply OutboundTransfer_Abort_served.
Qed.

Lemma QueueResponseForCall_served call sl st st' :
  served p st -> QueueResponseForCall d DC call sl st = Some st' -> served p st'.
Proof.
  intros HI. unfold QueueResponseForCall. destruct (negb _); [done|]. simpl.
  unfold QueueOutbound. simpl.
  destruct (ok (shutdown_status_ st)); simpl.
  - intros [= <-]. destruct (_ && _); frame_served HI.
  - destruct (OutboundTransfer_Abort _ _ _ _) as [st1|] eqn:E1; [|done]. simpl.
    unfold OutboundTransfer_delete. simpl. intros [= <-].
    eapply OutboundTransfer_Abort_served; [|exact E1]. frame_served HI.
Qed.

Lemma HandleCallResponse_served t st st' :
  served p st -> HandleCallResponse t st = Some st' -> served p st'.
Proof.
  intros HI. unfold HandleCallResponse. destruct (negb _); [done|]. simpl.
  destruct (awaiting_response_ st !! _) as [car|].
  - destruct (car_call car) as [h|].
    + intros (c & _ & ->)%update_call_Some. frame_served HI.
    + intros [= <-]. frame_served HI.
  - intros [= <-]. frame_served HI.
Qed.

Lemma ReadHandler_served ev_error recv st st' :
  served p st -> ReadHandler DC ev_error recv st = Some st' -> served p st'.
Proof.
  intros HI. unfold ReadHandler. destruct ev_error.
  { by apply DC_keeps. }
  set (sti := match inbound_ st with None => _ | Some _ => st end).
  assert (Hi : served p sti).
  { unfold sti. destruct (inbound_ st); [done|]. by apply served_set_inbound. }
  clearbody sti. destruct recv as [status t].
  destruct (ok status) eqn:Es; simpl.
  2:{ apply DC_keeps; [done|]. destruct (bool_decide _); frame_served Hi. }
  destruct (TransferFinished t) eqn:Ef; simpl.
  2:{ intros [= <-]. apply served_set_inbound; [|done]. by rewrite Ef. }
  unfold HandleFinishedTransfer. simpl.
  pose proof Hi as (Hpr & Hh & He & Hr).
  assert (Hn : served p (set_inbound_ None (set_inbound_ (Some t) sti))).
  { eapply served_frame; [..|exact Hi]; simpl; try done.
    - exists []. by rewrite app_nil_r.
    - intros _. split; [done|]. by right; left. }
  destruct (protocol_ sti) eqn:Ep.
  - unfold YB_HandleFinishedTransfer. simpl. destruct (direction_ sti).
    + by apply HandleCallResponse_served.
    + by apply YB_HandleIncomingCall_served.
  - apply Redis_HandleFinishedTransfer_served; [done|].
    eapply served_frame; [..|exact Hi]; simpl; try done.
    exists []. by rewrite app_nil_r.
  - unfold CQL_HandleFinishedTransfer. simpl. destruct (negb _); [done|]. simpl.
    unfold CQL_HandleIncomingCall.
    destruct (ok (frame_status (parse t))); simpl; intros [= <-]; frame_served Hn.
Qed.

End ServedHandlers.

Lemma Shutdown_with_served clear s :
  keeps (served p) clear -> keeps (served p) (Shutdown_with clear s).
Proof.
  intros Hclear st st' HI. unfold Shutdown_with.
  set (sta := match inbound_ _ with Some _ => _ | None => _ end).
  assert (Ha : served p sta).
  { unfold sta. simpl.
    destruct (inbound_ st) as [t|]; [destruct (TransferStarted t)|]; frame_served HI. }
  clearbody sta.
  destruct (fail_awaiting s _ sta) as [stb|] eqn:Eb; [|done]. simpl.
  apply fail_awaiting_calls in Eb.
  destruct (clear _) as [stc|] eqn:Ec; [|done]. simpl. intros [= <-].
  apply Hclear in Ec.
  - frame_served Ec.
  - rewrite Eb. frame_served Ha.
Qed.

Lemma DestroyConnection_served s : keeps (served p) (DestroyConnection d s).
Proof.
  apply (Shutdown_keeps d (served p) (fun _ => True)); try done.
  - intros clear s' _. apply Shutdown_with_served.
  - intros DC t rest st st' HDC HI _. by apply OutboundTransfer_delete_served.
Qed.

Lemma write_loop_served sends :
  forall st st',
    served p st -> write_loop d (DestroyConnection d) sends st = Some st' -> served p st'.
Proof.
  induction sends as [|o sends IH]; intros st st' HI; simpl.
  - destruct (outbound_transfers_ st); intros [= <-]; [|done]. frame_served HI.
  - destruct (outbound_transfers_ st) as [|t rest] eqn:Eo.
    { intros [= <-]. frame_served HI. }
    destruct o as [s| |].
    + apply DestroyConnection_served. frame_served HI.
    + by intros [= <-].
    + destruct (SendBuffer_finished _ t st) as [st1|] eqn:E1; [|done]. simpl.
      unfold OutboundTransfer_delete. simpl. apply IH.
      assert (H1 : served p st1).
      { unfold SendBuffer_finished in E1.
        match type of E1 with NotifyTransferFinished _ _ ?x = _ =>
          assert (Hx : served p x) by frame_served HI end.
        destruct (callbacks t) as [h|call|call|call] eqn:Ecb; cbn [NotifyTransferFinished] in E1.
        - destruct (calls _ !! h) as [c|]; [|done]. simpl in E1.
          destruct (IsFinished c).
          + destruct (IsTimedOut c); [|done]. by injection E1 as <-.
          + apply update_call_Some in E1 as (c' & _ & ->). frame_served Hx.
        - eapply delete_callbacks_served; [|exact Hx|exact E1].
          intros s _. apply DestroyConnection_served.
        - eapply delete_callbacks_served; [|exact Hx|exact E1].
          intros s _. apply DestroyConnection_served.
        - eapply delete_callbacks_served; [|exact Hx|exact E1].
          intros s _. apply DestroyConnection_served. }
      frame_served H1.
Qed.

Lemma step_served e : keeps (served p) (step d e).
Proof.
  intros st st' HI. destruct e; simpl.
  - intros [= <-]. unfold EpollRegister. destruct (_ && _); frame_served HI.
  - intros [= <-]. frame_served HI.
  - by apply DestroyConnection_served.
  - intros [(c & _ & _ & _ & ->)|[(c & _ & _ & _ & _ & _ & ->)
            |(c & _ & _ & _ & _ & _ & ->)]]%QueueOutboundCall_cases.
    + frame_served HI.
    + frame_served HI.
    + unfold start_write. destruct (_ && _); frame_served HI.
  - by apply QueueResponseForCall_served; [intros s _; apply DestroyConnection_served|].
  - by apply ReadHandler_served; [intros s _; apply DestroyConnection_served|].
  - unfold WriteHandler. destruct ev_error.
    { by apply DestroyConnection_served. }
    destruct (outbound_transfers_ st) eqn:Eo.
    + intros [= <-]. frame_served HI.
    + by apply write_loop_served.
  - intros (car & h & c & _ & _ & _ & _ & _ & ->)%HandleTimeout_Some. frame_served HI.
Qed.

Lemma run_served this remote dir heap tr st :
  run d tr (Connection_new this remote p dir heap) = Some st -> served p st.
Proof.
  intros Hrun.
  eapply (run_keeps d (served p) (fun _ => True) tr); [| | |exact Hrun].
  - intros e _. apply step_served.
  - by apply Forall_forall.
  - split; [done|]. split; [apply map_Forall_empty|]. by split.
Qed.

End Served.

Section ServedRuns.

Variable d : Status.

(** X10.  Every entry of [calls_being_handled_] is filed under the call id of
    its call, on a YB connection, and its call was handed to the messenger; on
    a Redis or a CQL connection the map stays empty. *)
Theorem calls_being_handled_are_dispatched this remote p dir heap tr st :
  run d tr (Connection_new this remote p dir heap) = Some st ->
  (forall id c,
     calls_being_handled_ st !! id = Some c ->
     p = YB /\ ic_call_id c = id /\ c ∈ messenger_queue st) /\
  (p <> YB -> calls_being_handled_ st = ∅).
Proof.
  intros (Hp & Hh & He & _)%run_served. split; [|done].
  intros id c Hc. destruct (Hh id c Hc) as [? ?]. split; [|done].
  destruct (decide (p = YB)) as [|Hn]; [done|]. by rewrite (He Hn), lookup_empty in Hc.
Qed.

(** X11.  A YB or a CQL connection never keeps a finished inbound transfer and
    never sets [processing_call_]; [CQLConnection::FinishedHandlingACall]
    therefore changes nothing at any point of a run. *)
Theorem finished_transfer_never_parked this remote p dir heap tr st :
  p <> Redis ->
  run d tr (Connection_new this remote p dir heap) = Some st ->
  (forall t, inbound_ st = Some t -> TransferFinished t = false) /\
  processing_call_ st = false /\
  CQL_FinishedHandlingACall st = Some st.
Proof.
  intros Hp (_ & _ & _ & Hr)%run_served. destruct (Hr Hp) as [Hpc Hin].
  repeat split; try done. unfold CQL_FinishedHandlingACall.
  destruct (inbound_ st) as [t|]; [|done]. by rewrite (Hin t eq_refl).
Qed.

End ServedRuns.

(** ** Calls that timed out *)

Lemma outstanding_mono id st0 st st' :
  (next_call_id_ st <= next_call_id_ st')%Z ->
  (exists more, shutdowns st' = shutdowns st ++ more) ->
  (exists more, log st' = log st ++ more) ->
  (tombstone id st ->
   tombstone id st' \/ length (shutdowns st0) < length (shutdowns st') \/
   (VLOG1, LogResponseAfterTimeout id) ∈ log st') ->
  outstanding id st0 st -> outstanding id st0 st'.
Proof.
  intros Hn (ms & Hs) (ml & Hl) Ht (H1 & H2 & H3 & H4). unfold outstanding.
  rewrite Hs, Hl, length_app. split; [done|]. split; [lia|]. split; [lia|].
  destruct H4 as [H4|[H4|H4]].
  - specialize (Ht H4). by rewrite Hs, Hl, length_app in Ht.
  - right; left. lia.
  - right; right. apply elem_of_app. by left.
Qed.

(** A change to members other than the pending map. *)
Ltac frame_outstanding H :=
  eapply outstanding_mono; [..|exact H]; simpl;
  [ first [ reflexivity | lia ]
  | first [ by exists []; rewrite app_nil_r | by eexists ]
  | first [ by exists []; rewrite app_nil_r | by eexists ]
  | by left ].

Section Outstanding.

Variable d : Status.
Variable id : Z.
Variable st0 : State.

Section OutstandingHandlers.

Variable DC : Status -> State -> option State.
Hypothesis DC_keeps : forall s, ok s = false -> keeps (outstanding id st0) (DC s).

Lemma YB_HandleIncomingCall_outstanding t st st' :
  (outstanding id st0) st -> YB_HandleIncomingCall DC t st = Some st' -> (outstanding id st0) st'.
Proof.
  intros HI. unfold YB_HandleIncomingCall.
  destruct (ok (frame_status (parse t))) eqn:Eok; simpl.
  2:{ apply DC_keeps; [done|]. frame_outstanding HI. }
  destruct (calls_being_handled_ st !! _) eqn:El.
  { apply DC_keeps; [done|]. frame_outstanding HI. }
  intros [= <-]. frame_outstanding HI.
Qed.

Lemma Redis_HandleFinishedTransfer_outstanding st st' :
  (outstanding id st0) st -> Redis_HandleFinishedTransfer DC st = Some st' -> (outstanding id st0) st'.
Proof.
  intros HI. unfold Redis_HandleFinishedTransfer, Redis_HandleIncomingCall.
  destruct (processing_call_ st) eqn:Ep.
  { by intros [= <-]. }
  destruct (negb _); [done|]. destruct (inbound_ st) as [t|]; [|done]. simpl.
  destruct (ok (frame_status (parse t))) eqn:Eok; simpl.
  - intros [= <-]. frame_outstanding HI.
  - destruct (DC _ _) as [st1|] eqn:E1; [|done]. simpl. intros [= <-].
    apply DC_keeps in E1; [|done|frame_outstanding HI]. frame_outstanding E1.
Qed.

Lemma CQL_HandleFinishedTransfer_outstanding st st' :
  (outstanding id st0) st -> CQL_HandleFinishedTransfer st = Some st' -> (outstanding id st0) st'.
Proof.
  intros HI. unfold CQL_HandleFinishedTransfer, CQL_HandleIncomingCall.
  destruct (negb _); [done|]. destruct (inbound_ st) as [t|]; [|done]. simpl.
  destruct (ok (frame_status (parse t))); simpl; intros [= <-]; frame_outstanding HI.
Qed.

Lemma delete_callbacks_outstanding cb st st' :
  (outstanding id st0) st -> delete_callbacks DC cb st = Some st' -> (outstanding id st0) st'.
Proof.
  intros HI. destruct cb as [h|call|call|call]; simpl.
  - by intros [= <-].
  - destruct (calls_being_handled_ st !! _) as [c|] eqn:El; [|done]. simpl.
    destruct (bool_decide _); [|done]. intros [= <-]. frame_outstanding HI.
  - unfold Redis_FinishedHandlingACall. simpl.
    assert (HI' : (outstanding id st0) (set_processing_call_ false st)) by frame_outstanding HI.
    destruct (inbound_ st) as [i|]; [destruct (TransferFinished i)|].
    + by apply Redis_HandleFinishedTransfer_outstanding.
    + by intros [= <-].
    + by intros [= <-].
  - unfold CQL_FinishedHandlingACall.
    destruct (inbound_ st) as [i|]; [destruct (TransferFinished i)|].
    + by apply CQL_HandleFinishedTransfer_outstanding.
    + by intros [= <-].
    + by intros [= <-].
Qed.

Lemma OutboundTransfer_Abort_outstanding t s st st' :
  (outstanding id st0) st -> OutboundTransfer_Abort DC t s st = Some st' -> (outstanding id st0) st'.
Proof.
  intros HI. unfold OutboundTransfer_Abort.
  assert (HI' : forall sev msg,
    (outstanding id st0) (LOG sev msg (fire_transfer_edge (transfer_id t) (TransferAbortedEdge s) st))).
  { intros sev msg. frame_outstanding HI. }
  destruct (callbacks t) as [h|call|call|call] eqn:Ecb; cbn [NotifyTransferAborted].
  - intros [= <-]. apply HI'.
  - apply delete_callbacks_outstanding, HI'.
  - apply delete_callbacks_outstanding, HI'.
  - apply delete_callbacks_outstanding, HI'.
Qed.

Lemma OutboundTransfer_delete_outstanding t rest st st' :
  (outstanding id st0) st ->
  OutboundTransfer_delete d DC t (set_outbound_transfers_ rest st) = Some st' -> (outstanding id st0) st'.
Proof.
  intros HI.
  assert (HI' : (outstanding id st0) (set_outbound_transfers_ rest st)) by frame_outstanding HI.
  unfold OutboundTransfer_delete. destruct (_ || _).
  - by intros [= <-].
  - by apply OutboundTransfer_Abort_outstanding.
Qed.

Lemma QueueResponseForCall_outstanding call sl st st' :
  (outstanding id st0) st -> QueueResponseForCall d DC call sl st = Some st' -> (outstanding id st0) st'.
Proof.
  intros HI. unfold QueueResponseForCall. destruct (negb _); [done|]. simpl.
  unfold QueueOutbound. simpl.
  destruct (ok (shutdown_status_ st)); simpl.
  - intros [= <-]. destruct (_ && _); frame_outstanding HI.
  - destruct (OutboundTransfer_Abort _ _ _ _) as [st1|] eqn:E1; [|done]. simpl.
    unfold OutboundTransfer_delete. simpl. intros [= <-].
    eapply OutboundTransfer_Abort_outstanding; [|exact E1]. frame_outstanding HI.
Qed.

Lemma HandleCallResponse_outstanding t st st' :
  (outstanding id st0) st -> HandleCallResponse t st = Some st' -> (outstanding id st0) st'.
Proof.
  intros HI. unfold HandleCallResponse. destruct (negb _); [done|]. simpl.
  destruct (awaiting_response_ st !! _) as [car|] eqn:Ea.
  - destruct (car_call car) as [h|] eqn:Ec.
    + intros (c & _ & ->)%update_call_Some.
      eapply outstanding_mono; [..|exact HI]; simpl;
        [done|by exists []; rewrite app_nil_r|by exists []; rewrite app_nil_r|].
      intros (b & Hb). left. exists b. simpl. rewrite lookup_delete_ne; [done|].
      intros E. simpl in Ea. rewrite E, Hb in Ea. injection Ea as <-. done.
    + intros [= <-].
      eapply outstanding_mono; [..|exact HI]; simpl;
        [done|by exists []; rewrite app_nil_r|by eexists|].
      intros (b & Hb).
      destruct (decide (frame_call_id (parse t) = id)) as [->|Hne].
      * right; right. apply elem_of_app. right. apply list_elem_of_here.
      * left. exists b. simpl. by rewrite lookup_delete_ne.
  - intros [= <-]. frame_outstanding HI.
Qed.

Lemma ReadHandler_outstanding ev_error recv st st' :
  (outstanding id st0) st -> ReadHandler DC ev_error recv st = Some st' -> (outstanding id st0) st'.
Proof.
  intros HI. unfold ReadHandler. destruct ev_error.
  { by apply DC_keeps. }
  set (sti := match inbound_ st with None => _ | Some _ => st end).
  assert (Hi : (outstanding id st0) sti).
  { unfold sti. destruct (inbound_ st); [done|]. frame_outstanding HI. }
  clearbody sti. destruct recv as [status t].
  destruct (ok status) eqn:Es; simpl.
  2:{ apply DC_keeps; [done|]. destruct (bool_decide _); frame_outstanding Hi. }
  destruct (TransferFinished t) eqn:Ef; simpl.
  2:{ intros [= <-]. frame_outstanding Hi. }
  unfold HandleFinishedTransfer. simpl.
  assert (Hj : (outstanding id st0) (set_inbound_ (Some t) sti)) by frame_outstanding Hi.
  assert (Hn : (outstanding id st0) (set_inbound_ None (set_inbound_ (Some t) sti))) by frame_outstanding Hi.
  destruct (protocol_ sti).
  - unfold YB_HandleFinishedTransfer. simpl. destruct (direction_ sti).
    + by apply HandleCallResponse_outstanding.
    + by apply YB_HandleIncomingCall_outstanding.
  - by apply Redis_HandleFinishedTransfer_outstanding.
  - by apply CQL_HandleFinishedTransfer_outstanding.
Qed.

End OutstandingHandlers.

Lemma Shutdown_with_outstanding clear s :
  keeps (outstanding id st0) clear -> keeps (outstanding id st0) (Shutdown_with clear s).
Proof.
  intros Hclear st st' HI. unfold Shutdown_with.
  set (sta := match inbound_ _ with Some _ => _ | None => _ end).
  assert (Ha : (outstanding id st0) sta /\ length (shutdowns st0) < length (shutdowns sta)).
  { destruct HI as (H1 & H2 & H3 & H4). unfold sta. simpl.
    destruct (inbound_ st) as [t|]; [destruct (TransferStarted t)|].
    all: split; [|simpl; rewrite length_app; simpl; lia].
    all: unfold outstanding; simpl; rewrite length_app; simpl.
    all: split; [done|]; split; [done|]; split; [lia|]; right; left; lia. }
  clearbody sta. destruct Ha as [Ha Hlen].
  destruct (fail_awaiting s _ sta) as [stb|] eqn:Eb; [|done]. simpl.
  apply fail_awaiting_calls in Eb.
  destruct (clear _) as [stc|] eqn:Ec; [|done]. simpl. intros [= <-].
  apply Hclear in Ec.
  - frame_outstanding Ec.
  - rewrite Eb. destruct Ha as (H1 & H2 & H3 & H4). unfold outstanding. simpl.
    split; [done|]. split; [done|]. split; [done|]. by right; left.
Qed.

Lemma DestroyConnection_outstanding s : keeps (outstanding id st0) (DestroyConnection d s).
Proof.
  apply (Shutdown_keeps d (outstanding id st0) (fun _ => True)); try done.
  - intros clear s' _. apply Shutdown_with_outstanding.
  - intros DC t rest st st' HDC HI _. by apply OutboundTransfer_delete_outstanding.
Qed.

Lemma write_loop_outstanding sends :
  forall st st',
    (outstanding id st0) st -> write_loop d (DestroyConnection d) sends st = Some st' -> (outstanding id st0) st'.
Proof.
  induction sends as [|o sends IH]; intros st st' HI; simpl.
  - destruct (outbound_transfers_ st); intros [= <-]; [|done]. frame_outstanding HI.
  - destruct (outbound_transfers_ st) as [|t rest] eqn:Eo.
    { intros [= <-]. frame_outstanding HI. }
    destruct o as [s| |].
    + apply DestroyConnection_outstanding. frame_outstanding HI.
    + by intros [= <-].
    + destruct (SendBuffer_finished _ t st) as [st1|] eqn:E1; [|done]. simpl.
      unfold OutboundTransfer_delete. simpl. apply IH.
      assert (H1 : (outstanding id st0) st1).
      { unfold SendBuffer_finished in E1.
        match type of E1 with NotifyTransferFinished _ _ ?x = _ =>
          assert (Hx : (outstanding id st0) x) by frame_outstanding HI end.
        destruct (callbacks t) as [h|call|call|call] eqn:Ecb; cbn [NotifyTransferFinished] in E1.
        - destruct (calls _ !! h) as [c|]; [|done]. simpl in E1.
          destruct (IsFinished c).
          + destruct (IsTimedOut c); [|done]. by injection E1 as <-.
          + apply update_call_Some in E1 as (c' & _ & ->). frame_outstanding Hx.
        - eapply delete_callbacks_outstanding; [|exact Hx|exact E1].
          intros s _. apply DestroyConnection_outstanding.
        - eapply delete_callbacks_outstanding; [|exact Hx|exact E1].
          intros s _. apply DestroyConnection_outstanding.
        - eapply delete_callbacks_outstanding; [|exact Hx|exact E1].
          intros s _. apply DestroyConnection_outstanding. }
      frame_outstanding H1.
Qed.

Lemma step_outstanding e : keeps (outstanding id st0) (step d e).
Proof.
  intros st st' HI. destruct e; simpl.
  - intros [= <-]. unfold EpollRegister. destruct (_ && _); frame_outstanding HI.
  - intros [= <-]. frame_outstanding HI.
  - by apply DestroyConnection_outstanding.
  - intros [(c & _ & _ & _ & ->)|[(c & _ & _ & _ & _ & _ & ->)
            |(c & _ & _ & _ & _ & _ & ->)]]%QueueOutboundCall_cases.
    + frame_outstanding HI.
    + frame_outstanding HI.
    + assert (Hx : forall x, (outstanding id st0) x -> (outstanding id st0) (start_write x)).
      { intros x Hx. unfold start_write. destruct (_ && _); [|done]. frame_outstanding Hx. }
      apply Hx. eapply outstanding_mono; [..|exact HI]; simpl;
        [lia|by exists []; rewrite app_nil_r|by exists []; rewrite app_nil_r|].
      intros (b & Hb). left. exists b. simpl. rewrite lookup_insert_ne; [done|].
      destruct HI as (H1 & H2 & _). lia.
  - by apply QueueResponseForCall_outstanding; [intros s _; apply DestroyConnection_outstanding|].
  - by apply ReadHandler_outstanding; [intros s _; apply DestroyConnection_outstanding|].
  - unfold WriteHandler. destruct ev_error.
    { by apply DestroyConnection_outstanding. }
    destruct (outbound_transfers_ st) eqn:Eo.
    + intros [= <-]. frame_outstanding HI.
    + by apply write_loop_outstanding.
  - intros (car & h & c & Hc & _ & Hh & _ & _ & ->)%HandleTimeout_Some.
    eapply outstanding_mono; [..|exact HI]; simpl;
      [done|by exists []; rewrite app_nil_r|by exists []; rewrite app_nil_r|].
    intros (b & Hb). left. exists b. simpl. rewrite lookup_insert_ne; [done|].
    intros E. rewrite E, Hb in Hc. injection Hc as <-. done.
Qed.

End Outstanding.

Section OutstandingRuns.

Variable d : Status.

(** X12.  After [HandleOutboundCallTimeout] on a pending call the connection
    is not idle again before the connection is shut down or the late response
    to that call id is read: the entry, its call cleared, stays in the pending
    map through every other method. *)
Theorem timed_out_call_keeps_connection_busy id st st1 tr st' :
  (id < next_call_id_ st)%Z ->
  HandleOutboundCallTimeout id st = Some st1 ->
  run d tr st1 = Some st' ->
  Idle st' = true ->
  length (shutdowns st) < length (shutdowns st') \/
  (VLOG1, LogResponseAfterTimeout id) ∈ log st'.
Proof.
  intros Hid Ht Hrun Hidle.
  assert (HI : outstanding id st1 st1).
  { unfold HandleOutboundCallTimeout in Ht.
    destruct (awaiting_response_ st !! id) as [car|]; [|done]. simpl in Ht.
    destruct (car_call car) as [h|]; [|done]. simpl in Ht.
    destruct (calls st !! h) as [c|]; [|done]. simpl in Ht.
    destruct (IsFinished c); [done|].
    destruct (SetTimedOut h st) as [st2|] eqn:E2; [|done]. simpl in Ht.
    apply update_call_Some in E2 as (c' & _ & ->). injection Ht as <-.
    unfold outstanding. simpl. split; [done|]. split; [done|]. split; [done|].
    left. eexists. simpl. apply lookup_insert_eq. }
  assert (Hs : shutdowns st1 = shutdowns st).
  { unfold HandleOutboundCallTimeout in Ht.
    destruct (awaiting_response_ st !! id) as [car|]; [|done]. simpl in Ht.
    destruct (car_call car) as [h|]; [|done]. simpl in Ht.
    destruct (calls st !! h) as [c|]; [|done]. simpl in Ht.
    destruct (IsFinished c); [done|].
    destruct (SetTimedOut h st) as [st2|] eqn:E2; [|done]. simpl in Ht.
    apply update_call_Some in E2 as (c' & _ & ->). by injection Ht as <-. }
  assert (HI' : outstanding id st1 st').
  { eapply (run_keeps d (outstanding id st1) (fun _ => True) tr); [| |exact HI|exact Hrun].
    - intros e _. apply step_outstanding.
    - by apply Forall_forall. }
  destruct HI' as (_ & _ & _ & [(b & Hb)|[H|H]]).
  - apply Idle_true in Hidle as (_ & _ & Ha & _). by rewrite Ha, lookup_empty in Hb.
  - left. by rewrite <- Hs.
  - by right.
Qed.

End OutstandingRuns.

(** ** After the shutdown; the write watcher of a server *)

(** Invariants that read the shutdown status, the outbound queue, the pending
    map and the socket only. *)
Section StatusInvariant.

Variable d : Status.
Variable I : State -> Prop.
Hypothesis I_frame : forall st st',
  shutdown_status_ st' = shutdown_status_ st ->
  outbound_transfers_ st' = outbound_transfers_ st ->
  awaiting_response_ st' = awaiting_response_ st ->
  socket_open_ st' = socket_open_ st ->
  I st -> I st'.
Variable DC : Status -> State -> option State.
Hypothesis DC_keeps : forall s, ok s = false -> keeps I (DC s).

Ltac frame H := eapply I_frame; [..|exact H]; reflexivity.

Lemma YB_HandleIncomingCall_status t st st' :
  I st -> YB_HandleIncomingCall DC t st = Some st' -> I st'.
Proof.
  intros HI. unfold YB_HandleIncomingCall.
  destruct (ok (frame_status (parse t))) eqn:Eok; simpl.
  2:{ apply DC_keeps; [done|]. frame HI. }
  destruct (calls_being_handled_ st !! _) eqn:El.
  { apply DC_keeps; [done|]. frame HI. }
  intros [= <-]. frame HI.
Qed.

Lemma Redis_HandleFinishedTransfer_status st st' :
  I st -> Redis_HandleFinishedTransfer DC st = Some st' -> I st'.
Proof.
  intros HI. unfold Redis_HandleFinishedTransfer, Redis_HandleIncomingCall.
  destruct (processing_call_ st) eqn:Ep.
  { by intros [= <-]. }
  destruct (negb _); [done|]. destruct (inbound_ st) as [t|]; [|done]. simpl.
  destruct (ok (frame_status (parse t))) eqn:Eok; simpl.
  - intros [= <-]. frame HI.
  - destruct (DC _ _) as [st1|] eqn:E1; [|done]. simpl. intros [= <-].
    apply DC_keeps in E1; [|done|frame HI]. frame E1.
Qed.

Lemma CQL_HandleFinishedTransfer_status st st' :
  I st -> CQL_HandleFinishedTransfer st = Some st' -> I st'.
Proof.
  intros HI. unfold CQL_HandleFinishedTransfer, CQL_HandleIncomingCall.
  destruct (negb _); [done|]. destruct (inbound_ st) as [t|]; [|done]. simpl.
  destruct (ok (frame_status (parse t))); simpl; intros [= <-]; frame HI.
Qed.

Lemma delete_callbacks_status cb st st' :
  I st -> delete_callbacks DC cb st = Some st' -> I st'.
Proof.
  intros HI. destruct cb as [h|call|call|call]; simpl.
  - by intros [= <-].
  - destruct (calls_being_handled_ st !! _) as [c|] eqn:El; [|done]. simpl.
    destruct (bool_decide _); [|done]. intros [= <-]. frame HI.
  - unfold Redis_FinishedHandlingACall. simpl.
    assert (HI' : I (set_processing_call_ false st)) by frame HI.
    destruct (inbound_ st) as [i|]; [destruct (TransferFinished i)|].
    + by apply Redis_HandleFinishedTransfer_status.
    + by intros [= <-].
    + by intros [= <-].
  - unfold CQL_FinishedHandlingACall.
    destruct (inbound_ st) as [i|]; [destruct (TransferFinished i)|].
    + by apply CQL_HandleFinishedTransfer_status.
    + by intros [= <-].
    + by intros [= <-].
Qed.

Lemma OutboundTransfer_Abort_status t s st st' :
  I st -> OutboundTransfer_Abort DC t s st = Some st' -> I st'.
Proof.
  intros HI. unfold OutboundTransfer_Abort.
  assert (HI' : forall sev msg,
    I (LOG sev msg (fire_transfer_edge (transfer_id t) (TransferAbortedEdge s) st))).
  { intros sev msg. frame HI. }
  destruct (callbacks t) as [h|call|call|call] eqn:Ecb; cbn [NotifyTransferAborted].
  - intros [= <-]. apply HI'.
  - apply delete_callbacks_status, HI'.
  - apply delete_callbacks_status, HI'.
  - apply delete_callbacks_status, HI'.
Qed.

Lemma OutboundTransfer_delete_status t st st' :
  I st -> OutboundTransfer_delete d DC t st = Some st' -> I st'.
Proof.
  intros HI. unfold OutboundTransfer_delete. destruct (_ || _).
  - by intros [= <-].
  - by apply OutboundTransfer_Abort_status.
Qed.

End StatusInvariant.

Section ShutDown.

Variable d : Status.

Lemma clear_outbound_transfers_not_ok n :
  keeps shutdown_status_not_ok (clear_outbound_transfers d n).
Proof.
  apply (clear_outbound_transfers_keeps d shutdown_status_not_ok (fun s => ok s = false)).
  - done.
  - intros clear s Hs Hclear st st' _. unfold Shutdown_with.
    set (sta := match inbound_ _ with Some _ => _ | None => _ end).
    assert (Ha : shutdown_status_not_ok sta).
    { unfold sta, shutdown_status_not_ok. simpl.
      by destruct (inbound_ st) as [t|]; [destruct (TransferStarted t)|]. }
    clearbody sta.
    destruct (fail_awaiting s _ sta) as [stb|] eqn:Eb; [|done]. simpl.
    apply fail_awaiting_calls in Eb.
    destruct (clear _) as [stc|] eqn:Ec; [|done]. simpl. intros [= <-].
    apply Hclear in Ec; [done|]. by rewrite Eb.
  - intros DC t rest st st' HDC HI _.
    apply (OutboundTransfer_delete_status d shutdown_status_not_ok); try done.
    unfold shutdown_status_not_ok. by intros ?? ->.
Qed.

Lemma Shutdown_shut_down s st st' :
  ok s = false -> Shutdown d s st = Some st' -> shut_down st'.
Proof.
  intros Hs H. pose proof (Shutdown_torn_down _ _ _ _ H) as Htd.
  split; [|by destruct Htd].
  revert H. unfold Shutdown, Shutdown_with.
  set (sta := match inbound_ _ with Some _ => _ | None => _ end).
  assert (Ha : shutdown_status_not_ok sta).
  { unfold sta, shutdown_status_not_ok. simpl.
    by destruct (inbound_ st) as [t|]; [destruct (TransferStarted t)|]. }
  clearbody sta.
  destruct (fail_awaiting s _ sta) as [stb|] eqn:Eb; [|done]. simpl.
  apply fail_awaiting_calls in Eb.
  destruct (clear_outbound_transfers _ _ _) as [stc|] eqn:Ec; [|done]. simpl.
  intros [= <-].
  apply clear_outbound_transfers_not_ok in Ec; [done|]. by rewrite Eb.
Qed.

Lemma shut_down_frame st st' :
  shutdown_status_ st' = shutdown_status_ st ->
  outbound_transfers_ st' = outbound_transfers_ st ->
  awaiting_response_ st' = awaiting_response_ st ->
  socket_open_ st' = socket_open_ st ->
  shut_down st -> shut_down st'.
Proof. unfold shut_down. by intros -> -> -> ->. Qed.

Lemma DestroyConnection_shut_down s :
  ok s = false -> keeps shut_down (DestroyConnection d s).
Proof. intros Hs st st' _. by apply Shutdown_shut_down. Qed.

Ltac frame H := eapply shut_down_frame; [..|exact H]; reflexivity.

Lemma step_shut_down e :
  error_if_shutdown e = true -> keeps shut_down (step d e).
Proof.
  intros He st st' HI. pose proof HI as (Hs & Ho & Ha & Hc). destruct e; simpl.
  - intros [= <-]. unfold EpollRegister. destruct (_ && _); frame HI.
  - intros [= <-]. frame HI.
  - apply DestroyConnection_shut_down; [by apply negb_true_iff in He|done].
  - unfold QueueOutboundCall. destruct (calls st !! call) as [c|]; [|done]. simpl.
    destruct (negb _); [done|]. rewrite Hs. simpl.
    intros (c' & _ & ->)%update_call_Some. frame HI.
  - unfold QueueResponseForCall. destruct (negb _); [done|]. simpl.
    unfold QueueOutbound. simpl. rewrite Hs. simpl.
    destruct (OutboundTransfer_Abort _ _ _ _) as [st1|] eqn:E1; [|done]. simpl.
    unfold OutboundTransfer_delete. simpl. intros [= <-].
    eapply (OutboundTransfer_Abort_status shut_down shut_down_frame); [| |exact E1].
    + intros s. apply DestroyConnection_shut_down.
    + frame HI.
  - unfold ReadHandler. destruct ev_error.
    { by apply DestroyConnection_shut_down. }
    set (sti := match inbound_ st with None => _ | Some _ => st end).
    assert (Hi : shut_down sti).
    { unfold sti. destruct (inbound_ st); [done|]. frame HI. }
    clearbody sti. destruct recv as [status t].
    destruct (ok status) eqn:Es; simpl.
    2:{ apply DestroyConnection_shut_down; [done|]. destruct (bool_decide _); frame Hi. }
    destruct (TransferFinished t) eqn:Ef; simpl.
    2:{ intros [= <-]. frame Hi. }
    unfold HandleFinishedTransfer. simpl.
    assert (Hj : shut_down (set_inbound_ (Some t) sti)) by frame Hi.
    assert (Hn : shut_down (set_inbound_ None (set_inbound_ (Some t) sti))) by frame Hi.
    destruct (protocol_ sti).
    + unfold YB_HandleFinishedTransfer. simpl. destruct (direction_ sti).
      * unfold HandleCallResponse. destruct (negb _); [done|]. simpl.
        destruct Hi as (_ & _ & -> & _). rewrite lookup_empty. intros [= <-]. frame Hn.
      * apply (YB_HandleIncomingCall_status shut_down shut_down_frame); [|done].
        intros s. apply DestroyConnection_shut_down.
    + apply (Redis_HandleFinishedTransfer_status shut_down shut_down_frame); [|done].
      intros s. apply DestroyConnection_shut_down.
    + apply (CQL_HandleFinishedTransfer_status shut_down shut_down_frame). done.
  - unfold WriteHandler. destruct ev_error.
    { by apply DestroyConnection_shut_down. }
    rewrite Ho. intros [= <-]. frame HI.
  - unfold HandleTimeout. by rewrite Ha, lookup_empty.
Qed.

(** X13.  After a [Shutdown] with a status that is not OK, whatever is invoked
    afterwards (further [Shutdown]s with such a status included), the shutdown
    status is not OK, the outbound queue and the pending map are empty and the
    socket is closed; [QueueOutboundCall] then only fails the call with the
    shutdown status. *)
Theorem shutdown_is_final s st0 st tr st' :
  ok s = false ->
  Shutdown d s st0 = Some st ->
  shutdowns_with_errors tr ->
  run d tr st = Some st' ->
  ok (shutdown_status_ st') = false /\
  outbound_transfers_ st' = [] /\ awaiting_response_ st' = ∅ /\
  socket_open_ st' = false /\
  forall h,
    direction_ st' = CLIENT -> is_Some (calls st' !! h) ->
    QueueOutboundCall d (DestroyConnection d) h st'
    = SetFailed h (shutdown_status_ st') st'.
Proof.
  intros Hs Hsh Htr Hrun.
  assert (HI : shut_down st').
  { eapply (run_keeps d shut_down _ tr); [|exact Htr| |exact Hrun].
    - intros e He. by apply step_shut_down.
    - by eapply Shutdown_shut_down. }
  destruct HI as (H1 & H2 & H3 & H4). repeat split; try done.
  intros h Hd [c Hc]. unfold QueueOutboundCall. rewrite Hc, Hd. simpl. by rewrite H1.
Qed.

End ShutDown.

Section WriteOnDemand.

Variable d : Status.

Lemma write_on_demand_core st st' :
  same_core st st' -> write_on_demand st -> write_on_demand st'.
Proof.
  intros Hc [Hd Hw]. unfold write_on_demand.
  by rewrite (sc_direction _ _ Hc), (sc_write_io _ _ Hc), (sc_outbound _ _ Hc).
Qed.

Lemma write_on_demand_torn s st st' :
  torn_down d s st st' -> direction_ st = SERVER -> write_on_demand st'.
Proof.
  intros Ht Hd. split; [by rewrite (td_direction _ _ _ _ Ht)|].
  by rewrite (td_write_io _ _ _ _ Ht).
Qed.

Lemma write_on_demand_via st st' :
  via (DestroyConnection d) st st' -> write_on_demand st -> write_on_demand st'.
Proof.
  intros [H|[s H]]%via_Shutdown_torn_down Hw.
  - by eapply write_on_demand_core.
  - eapply write_on_demand_torn; [exact H|]. by destruct Hw.
Qed.

Lemma DestroyConnection_write_on_demand s st0 st st' :
  same_core st st0 -> write_on_demand st ->
  DestroyConnection d s st0 = Some st' -> write_on_demand st'.
Proof.
  intros Hc Hw H. eapply write_on_demand_via; [|exact Hw].
  eapply via_destroy; [exact Hc|exact H|apply same_core_refl].
Qed.

Lemma step_write_on_demand e : keeps write_on_demand (step d e).
Proof.
  intros st st' HI. pose proof HI as [Hd Hw]. destruct e; simpl.
  - intros [= <-]. unfold EpollRegister. rewrite Hd. simpl. by split.
  - intros [= <-]. by split.
  - intros H. eapply DestroyConnection_write_on_demand; [|exact HI|exact H].
    apply same_core_refl.
  - unfold QueueOutboundCall. destruct (calls st !! call); [|done]. simpl. by rewrite Hd.
  - unfold QueueResponseForCall. rewrite Hd. simpl. unfold QueueOutbound. simpl.
    destruct (ok (shutdown_status_ st)); simpl.
    + intros [= <-]. split; [by destruct (_ && _)|]. intros _.
      destruct (_ && _); simpl; by destruct (outbound_transfers_ st).
    + unfold OutboundTransfer_Abort.
      destruct (NotifyTransferAborted _ _ _ _) as [st1|] eqn:E1; [|done]. simpl.
      unfold OutboundTransfer_delete. simpl. intros [= <-].
      apply NotifyTransferAborted_via in E1.
      eapply write_on_demand_via; [exact E1|]. by split.
  - unfold ReadHandler. destruct ev_error.
    { intros H. eapply DestroyConnection_write_on_demand; [|exact HI|exact H].
      apply same_core_refl. }
    set (sti := match inbound_ st with None => _ | Some _ => st end).
    assert (Hi : same_core st sti).
    { unfold sti. destruct (inbound_ st); [apply same_core_refl|]. split; reflexivity. }
    clearbody sti. destruct recv as [status t].
    destruct (ok status) eqn:Es; simpl.
    2:{ intros H. eapply DestroyConnection_write_on_demand; [|exact HI|exact H].
        eapply same_core_trans; [exact Hi|]. destruct (bool_decide _); split; reflexivity. }
    destruct (TransferFinished t) eqn:Ef; simpl.
    2:{ intros [= <-]. eapply write_on_demand_core; [|exact HI].
        eapply same_core_trans; [exact Hi|]. split; reflexivity. }
    assert (Hj : write_on_demand (set_inbound_ (Some t) sti)).
    { eapply write_on_demand_core; [|exact HI].
      eapply same_core_trans; [exact Hi|]. split; reflexivity. }
    unfold HandleFinishedTransfer. simpl. destruct (protocol_ sti).
    + unfold YB_HandleFinishedTransfer. simpl.
      rewrite (sc_direction _ _ Hi), Hd.
      intros H%YB_HandleIncomingCall_via. eapply write_on_demand_via; [exact H|].
      eapply write_on_demand_core; [|exact Hj]. split; reflexivity.
    + intros H%Redis_HandleFinishedTransfer_via. by eapply write_on_demand_via.
    + intros H%CQL_HandleFinishedTransfer_via. by eapply write_on_demand_core.
  - intros H. split.
    + apply WriteHandler_atoms, atoms_identity in H as (_ & _ & _ & ->). done.
    + intros Hw' Ho. revert H. unfold WriteHandler. destruct ev_error.
      { intros H%Shutdown_torn_down. by rewrite (td_write_io _ _ _ _ H) in Hw'. }
      destruct (outbound_transfers_ st) eqn:Eo.
      * intros [= <-]. done.
      * intros H%write_loop_stops; [|done]. by rewrite H in Hw'.
  - intros (car & h & c & _ & _ & _ & _ & _ & ->)%HandleTimeout_Some. by split.
Qed.

(** X14.  On a server connection the write watcher is active only while the
    outbound queue is not empty. *)
Theorem server_writes_on_demand this remote p heap tr st :
  run d tr (Connection_new this remote p SERVER heap) = Some st ->
  write_io_ st = true -> outbound_transfers_ st <> [].
Proof.
  intros Hrun.
  assert (HI : write_on_demand st); [|by destruct HI].
  eapply (run_keeps d write_on_demand (fun _ => True) tr); [| | |exact Hrun].
  - intros e _. apply step_write_on_demand.
  - by apply Forall_forall.
  - by split.
Qed.

End WriteOnDemand.

(** ** A call and its response *)

Lemma bind_Some_l {A B} (f : A -> option B) (x : A) : Some x ≫= f = f x.
Proof. reflexivity. Qed.

Lemma QueueOutboundCall_enqueue d DC h c st :
  direction_ st = CLIENT -> calls st !! h = Some c ->
  ok (shutdown_status_ st) = true -> call_id_ c = None ->
  ok (serialized_ c).1 = true ->
  QueueOutboundCall d DC h st = Some (enqueue h c st).
Proof.
  intros Hd Hc Hs Hid Hser. unfold QueueOutboundCall, enqueue.
  rewrite Hc, Hd, Hs. simpl. unfold call_id_assigned. rewrite Hid.
  unfold set_call_id, update_call. simpl. rewrite Hc. simpl.
  destruct (serialized_ c) as [s sl] eqn:Es. simpl in Hser. rewrite Hser. simpl.
  unfold SetQueued, update_call. simpl. rewrite lookup_insert_eq. simpl.
  rewrite insert_insert_eq. unfold QueueOutbound, start_write. fields. rewrite Hs.
  reflexivity.
Qed.

Lemma ReadHandler_response DC status t st :
  ok status = true -> direction_ st = CLIENT -> protocol_ st = YB ->
  TransferFinished t = true ->
  ReadHandler DC false (status, t) st = HandleCallResponse t (set_inbound_ None st).
Proof.
  intros Hs Hd Hp Hf. unfold ReadHandler. rewrite Hs, Hf. simpl.
  unfold HandleFinishedTransfer, YB_HandleFinishedTransfer.
  destruct (inbound_ st) as [i|] eqn:Ei; fields; rewrite Hp; fields; rewrite Hd; reflexivity.
Qed.

(** The transfer of a call is sent whole: the call is sent, unless it has
    timed out. *)
Lemma WriteHandler_sent d DC tr h c st :
  outbound_transfers_ st = [tr] -> callbacks tr = CallTransferCallbacks h ->
  calls st !! h = Some c -> IsFinished c = false ->
  WriteHandler d DC false [SendComplete] st
  = Some (set_write_io_ false
            (set_outbound_transfers_ []
               (set_calls (<[h := call_set_state StSent c]> (calls st))
                  (fire_transfer_edge (transfer_id tr) TransferFinishedEdge st)))).
Proof.
  intros Ho Hcb Hc Hf. rewrite (WriteHandler_one d DC tr st Ho), Hcb.
  cbn [NotifyTransferFinished]. fields. rewrite Hc. cbn [mbind option_bind]. rewrite Hf.
  unfold SetSent, update_call. fields. rewrite Hc. reflexivity.
Qed.

(** The response to a pending call is read whole. *)
Lemma ReadHandler_delivered DC status t car h c st :
  ok status = true -> direction_ st = CLIENT -> protocol_ st = YB ->
  TransferFinished t = true -> ok (frame_status (parse t)) = true ->
  awaiting_response_ st !! frame_call_id (parse t) = Some car ->
  car_call car = Some h -> calls st !! h = Some c ->
  ReadHandler DC false (status, t) st
  = Some (set_calls
            (<[h := call_finish
                      (StResponded (mkCallResponse (frame_call_id (parse t))
                                      (frame_body (parse t))))
                      (EdgeResponse (mkCallResponse (frame_call_id (parse t))
                                       (frame_body (parse t)))) c]> (calls st))
            (set_awaiting_response_
               (delete (frame_call_id (parse t)) (awaiting_response_ st))
               (set_inbound_ None st))).
Proof.
  intros Hs Hd Hp Hf Hok Ha Hcar Hc. rewrite ReadHandler_response by done.
  unfold HandleCallResponse. rewrite Hok. cbn [negb]. fields. cbn [resp_call_id].
  rewrite Ha, Hcar. unfold SetResponse, update_call. fields. by rewrite Hc.
Qed.

Section RoundTrip.

Variable d : Status.

(** X15.  [Shutdown] with an OK status closes the socket but leaves
    [QueueOutboundCall] open: a call queued afterwards on the client
    connection is accepted, it is entered in the pending map under the next
    call id and its transfer is queued on the closed connection, the call
    staying in the queued state with no edge fired. *)
Theorem Shutdown_with_OK_status_is_not_final s st st1 h c :
  ok s = true ->
  Forall yb_callbacks (outbound_transfers_ st) ->
  direction_ st = CLIENT ->
  Shutdown d s st = Some st1 ->
  calls st1 !! h = Some c -> call_id_ c = None -> ok (serialized_ c).1 = true ->
  exists st2,
    QueueOutboundCall d (DestroyConnection d) h st1 = Some st2 /\
    socket_open_ st2 = false /\
    awaiting_response_ st2
    = {[ next_call_id_ st := mkCar (Some h) (timeout_initialized_ c) ]} /\
    outbound_transfers_ st2
    = [mkOutbound (transfers_made st) (serialized_ c).2 (CallTransferCallbacks h)
         false false] /\
    (exists c', calls st2 !! h = Some c' /\ state_ c' = StQueued /\ fired_ c' = fired_ c).
Proof.
  intros Hs Hyb Hd Hsh Hc Hid Hser.
  pose proof (Shutdown_torn_down _ _ _ _ Hsh) as Htd.
  apply Shutdown_YB in Hsh as (_ & Hss & _); [|done].
  exists (enqueue h c st1). split.
  - apply QueueOutboundCall_enqueue; try done.
    + by rewrite (td_direction _ _ _ _ Htd).
    + by rewrite Hss.
  - unfold enqueue, start_write.
    destruct (_ && _); fields;
      rewrite (td_socket _ _ _ _ Htd), (td_awaiting _ _ _ _ Htd), (td_outbound _ _ _ _ Htd),
        (td_next_call_id _ _ _ _ Htd), (td_made _ _ _ _ Htd), lookup_insert_eq.
    all: split; [reflexivity|]; split; [reflexivity|]; split; [reflexivity|].
    all: eexists; split; [reflexivity|]; split; reflexivity.
Qed.

(** X16.  On an idle YB client connection that is not shut down, a call that
    serializes is queued, its transfer sent whole and the response that
    carries its call id read whole: the call ends with that call id, in the
    responded state, with the response edge as the one edge fired on it; no
    other call changes, the connection is idle again with its write watcher
    stopped, the next call id is one more, the finished edge of the transfer
    has fired and nothing was logged. *)
Theorem call_and_response_round_trip h c t st :
  Idle st = true -> direction_ st = CLIENT -> protocol_ st = YB ->
  ok (shutdown_status_ st) = true ->
  calls st !! h = Some c -> call_id_ c = None -> ok (serialized_ c).1 = true ->
  TransferFinished t = true -> ok (frame_status (parse t)) = true ->
  frame_call_id (parse t) = next_call_id_ st ->
  let r := mkCallResponse (next_call_id_ st) (frame_body (parse t)) in
  exists st',
    run d (call_and_response h t) st = Some st' /\
    calls st' !! h
    = Some (mkOutboundCall (Some (next_call_id_ st)) (StResponded r) (serialized_ c)
              (timeout_initialized_ c) (fired_ c ++ [EdgeResponse r])) /\
    (forall h', h' <> h -> calls st' !! h' = calls st !! h') /\
    Idle st' = true /\ write_io_ st' = false /\
    next_call_id_ st' = (next_call_id_ st + 1)%Z /\
    transfer_edges st' = transfer_edges st ++ [(transfers_made st, TransferFinishedEdge)] /\
    log st' = log st.
Proof.
  intros (Hin & Ho & Ha & Hh & Hn)%Idle_true Hd Hp Hs Hc Hid Hser Hf Hok Hfid r.
  unfold call_and_response, run, step. generalize (DestroyConnection d). intros DC.
  rewrite (QueueOutboundCall_enqueue d DC h c) by done.
  rewrite bind_Some_l.
  set (tr := mkOutbound (transfers_made st) (serialized_ c).2 (CallTransferCallbacks h)
               false false).
  set (c1 := call_set_state StQueued (call_set_call_id (next_call_id_ st) c)).
  assert (H1 : outbound_transfers_ (enqueue h c st) = [tr] /\
               calls (enqueue h c st) !! h = Some c1 /\
               direction_ (enqueue h c st) = CLIENT /\
               protocol_ (enqueue h c st) = YB).
  { unfold enqueue, start_write. destruct (_ && _); fields.
    all: by rewrite Ho, lookup_insert_eq. }
  destruct H1 as (Ho1 & Hc1 & Hd1 & Hp1).
  rewrite (WriteHandler_sent d DC tr h c1 _ Ho1 eq_refl Hc1 eq_refl).
  rewrite bind_Some_l.
  match goal with |- context [ReadHandler _ _ _ ?x] => set (st2 := x) end.
  assert (H2 : awaiting_response_ st2 !! frame_call_id (parse t)
               = Some (mkCar (Some h) (timeout_initialized_ c)) /\
               calls st2 !! h = Some (call_set_state StSent c1) /\
               direction_ st2 = CLIENT /\ protocol_ st2 = YB).
  { unfold st2, enqueue, start_write. destruct (_ && _); fields.
    all: by rewrite Hfid, !lookup_insert_eq. }
  destruct H2 as (Ha2 & Hc2 & Hd2 & Hp2).
  rewrite (ReadHandler_delivered DC Status_OK t _ _ _ st2 eq_refl Hd2 Hp2 Hf Hok Ha2 eq_refl Hc2).
  eexists. split; [reflexivity|]. rewrite Idle_true.
  unfold st2, enqueue, start_write. destruct (_ && _); fields.
  all: rewrite Hfid, Ha, !lookup_insert_eq, delete_insert_eq, delete_empty.
  all: split; [reflexivity|].
  all: split; [by intros h' Hne; rewrite !lookup_insert_ne|].
  all: by rewrite Hh, Hn.
Qed.

End RoundTrip.

(** ** Introspection and aborted tasks *)

Section Introspection.

Variable d : Status.

(** X17.  [DumpPB] on a client connection lists exactly the calls that the
    pending map holds with a live handle: a call that has timed out is no
    longer listed although its entry is still in the map, and nothing is
    listed after [Shutdown].  The credentials dumped are the ones last set,
    and none are dumped before negotiation is complete. *)
Theorem DumpPB_calls_in_flight uc st :
  direction_ st = CLIENT ->
  (forall h,
     OutboundCallPB h ∈ calls_in_flight (DumpPB (mkCredentialed st uc)).2 <-> live h st) /\
  (forall id car h st',
     awaiting_response_ st !! id = Some car -> car_call car = Some h ->
     (forall id' car', awaiting_response_ st !! id' = Some car' ->
                       car_call car' = Some h -> id' = id) ->
     HandleOutboundCallTimeout id st = Some st' ->
     is_Some (awaiting_response_ st' !! id) /\
     OutboundCallPB h ∉ calls_in_flight (DumpPB (mkCredentialed st' uc)).2) /\
  (forall s st',
     Shutdown d s st = Some st' ->
     calls_in_flight (DumpPB (mkCredentialed st' uc)).2 = []) /\
  (forall uc',
     remote_user_credentials (DumpPB (set_user_credentials uc' (mkCredentialed st uc))).2
     = if negotiation_complete_ st then Some uc' else None).
Proof.
  assert (Hdump : forall x h,
    direction_ x = CLIENT ->
    OutboundCallPB h ∈ calls_in_flight (DumpPB (mkCredentialed x uc)).2 <-> live h x).
  { intros x h Hx. unfold DumpPB, live. simpl. rewrite Hx, list_elem_of_omap. split.
    - intros ([id car] & Hin%elem_of_map_to_list & Hc). simpl in Hc.
      exists id, car. split; [done|]. destruct (car_call car); [|done]. by injection Hc as ->.
    - intros (id & car & Hin & Hc). exists (id, car). split; [by apply elem_of_map_to_list|].
      simpl. by rewrite Hc. }
  intros Hd. split; [|split; [|split]].
  - intros h. by apply Hdump.
  - intros id car h st' Ha Hc Huniq Ht. unfold HandleOutboundCallTimeout in Ht.
    rewrite Ha in Ht. simpl in Ht. rewrite Hc in Ht. simpl in Ht.
    destruct (calls st !! h) as [c|]; [|done]. simpl in Ht.
    destruct (IsFinished c); [done|].
    destruct (SetTimedOut h st) as [st2|] eqn:E2; [|done]. simpl in Ht.
    apply update_call_Some in E2 as (c' & _ & ->). injection Ht as <-.
    split; [simpl; rewrite lookup_insert_eq; by eexists|].
    intros Hin. apply Hdump in Hin; [|done].
    destruct Hin as (id' & car' & Hid' & Hc'). simpl in Hid'.
    destruct (decide (id' = id)) as [->|Hne].
    + rewrite lookup_insert_eq in Hid'. by injection Hid' as <-.
    + rewrite lookup_insert_ne in Hid' by done. by destruct (Hne (Huniq id' car' Hid' Hc')).
  - intros s st' Hsh%Shutdown_torn_down. unfold DumpPB. simpl.
    rewrite (td_direction _ _ _ _ Hsh), Hd, (td_awaiting _ _ _ _ Hsh).
    by rewrite map_to_list_empty.
  - intros uc'. reflexivity.
Qed.

(** X18.  [QueueTransferTask::Abort] on a transfer that was not queued fires
    the aborted edge with the status given, as the one callback edge of the
    transfer, the destructor that follows firing none.  The callbacks of a YB
    response then take the call out of [calls_being_handled_], with a warning
    in the log, the outbound queue being left as it is. *)
Theorem aborted_task_fires_one_edge t status st st' :
  edges_of (transfer_id t) st = [] ->
  transfer_id t ∉ transfer_id <$> outbound_transfers_ st ->
  QueueTransferTask_Abort d (DestroyConnection d) t status st = Some st' ->
  edges_of (transfer_id t) st' = [(transfer_id t, TransferAbortedEdge status)] /\
  (forall call,
     callbacks t = YBResponseTransferCallbacks call ->
     calls_being_handled_ st !! ic_call_id call = Some call /\
     calls_being_handled_ st' = delete (ic_call_id call) (calls_being_handled_ st) /\
     outbound_transfers_ st' = outbound_transfers_ st /\
     log st' = log st ++ [(WARNING, LogTornDownBeforeSendResponse call)]).
Proof.
  intros He Hni. unfold QueueTransferTask_Abort.
  destruct (OutboundTransfer_Abort _ _ _ _) as [st1|] eqn:E1; [|done]. simpl.
  unfold OutboundTransfer_delete. simpl. rewrite orb_true_r. intros [= <-]. split.
  - unfold OutboundTransfer_Abort in E1. apply NotifyTransferAborted_via in E1.
    apply via_Shutdown_torn_down in E1 as [Hs|[s Ht]].
    + unfold edges_of in *. rewrite (sc_edges _ _ Hs). simpl.
      by rewrite filter_app, He, filter_cons_True.
    + unfold edges_of in *. rewrite (td_edges _ _ _ _ Ht). simpl.
      rewrite !filter_app, He, filter_cons_True by done. simpl.
      assert (Hd : filter (fun e : nat * TransferEdge => e.1 = transfer_id t)
                     (destroyed_edges d (outbound_transfers_ st)) = []).
      { apply destroyed_edges_other. done. }
      by rewrite Hd.
  - intros call Hcb. unfold OutboundTransfer_Abort in E1. rewrite Hcb in E1.
    simpl in E1. destruct (calls_being_handled_ st !! _) as [c|] eqn:El; [|done].
    simpl in E1. destruct (bool_decide _) eqn:Eb; [|done].
    apply bool_decide_eq_true in Eb as ->. by injection E1 as <-.
Qed.

(** X19.  [EpollRegister] on a client connection whose negotiation is complete
    starts the write watcher although nothing is queued; the write event that
    follows sends nothing, logs the warning that there is nothing to write and
    stops the watcher. *)
Theorem client_registration_wakes_writer sends st :
  direction_ st = CLIENT -> negotiation_complete_ st = true ->
  outbound_transfers_ st = [] ->
  write_io_ (EpollRegister st) = true /\
  WriteHandler d (DestroyConnection d) false sends (EpollRegister st)
  = Some (set_write_io_ false (LOG WARNING LogNothingToWrite (EpollRegister st))).
Proof.
  intros Hd Hn Ho. unfold EpollRegister. rewrite Hd, Hn. simpl. split; [done|].
  unfold WriteHandler. simpl. by rewrite Ho.
Qed.

End Introspection.

(** ** Shutting down twice; pipelining *)

Lemma ReadHandler_parked DC status t st :
  ok status = true -> protocol_ st = Redis -> processing_call_ st = true ->
  TransferFinished t = true ->
  ReadHandler DC false (status, t) st = Some (set_inbound_ (Some t) st).
Proof.
  intros Hs Hp Hpc Hf. unfold ReadHandler. rewrite Hs, Hf. simpl.
  unfold HandleFinishedTransfer, Redis_HandleFinishedTransfer.
  destruct (inbound_ st) as [i|] eqn:Ei; fields; rewrite Hp, Hpc; reflexivity.
Qed.

Section Pipelining.

Variable d : Status.

(** X20.  A second [Shutdown] succeeds and changes nothing but the shutdown
    status, which becomes the status of the second one, and the log, which
    gets the warning about the inbound transfer again when one was started: no
    call changes, no callback edge fires and no call is handed to the
    messenger. *)
Theorem Shutdown_twice s1 s2 st st1 :
  Shutdown d s1 st = Some st1 ->
  exists st2,
    Shutdown d s2 st1 = Some st2 /\
    shutdown_status_ st2 = s2 /\ shutdowns st2 = shutdowns st1 ++ [s2] /\
    calls st2 = calls st1 /\ transfer_edges st2 = transfer_edges st1 /\
    messenger_queue st2 = messenger_queue st1 /\
    calls_being_handled_ st2 = calls_being_handled_ st1 /\
    awaiting_response_ st2 = ∅ /\ outbound_transfers_ st2 = [] /\
    is_epoll_registered_ st2 = false /\ socket_open_ st2 = false /\
    log st2 = log st1 ++
              match inbound_ st1 with
              | Some t =>
                  if TransferStarted t then [(WARNING, LogShutdownPendingInbound s2)] else []
              | None => []
              end.
Proof.
  intros H%Shutdown_torn_down.
  pose proof (td_awaiting _ _ _ _ H) as Ha. pose proof (td_outbound _ _ _ _ H) as Ho.
  unfold Shutdown, Shutdown_with. rewrite Ho. fields.
  destruct (inbound_ st1) as [t|]; [destruct (TransferStarted t)|]; fields.
  all: rewrite Ha, map_to_list_empty; cbn [fail_awaiting length clear_outbound_transfers].
  all: rewrite !bind_Some_l; eexists; split; [reflexivity|]; fields.
  all: rewrite ?app_nil_r; repeat split; exact Ho.
Qed.

(** X21.  Two requests that parse, read whole one after the other on a server
    connection that handles no call, are both handed to the messenger by a YB
    connection (the call ids being different) and by a CQL connection; a Redis
    connection hands over the first and keeps the second as its inbound
    transfer.  The connection stays registered and is not shut down. *)
Theorem requests_pipeline_but_on_Redis t1 t2 st :
  direction_ st = SERVER -> processing_call_ st = false ->
  calls_being_handled_ st = ∅ ->
  TransferFinished t1 = true -> ok (frame_status (parse t1)) = true ->
  TransferFinished t2 = true -> ok (frame_status (parse t2)) = true ->
  ExcessData t1 = None ->
  frame_call_id (parse t1) <> frame_call_id (parse t2) ->
  exists st',
    run d (two_requests t1 t2) st = Some st' /\
    messenger_queue st'
    = messenger_queue st ++
      match protocol_ st with
      | Redis => [call_of t1]
      | YB | CQL => [call_of t1; call_of t2]
      end /\
    inbound_ st' = match protocol_ st with Redis => Some t2 | YB | CQL => None end /\
    is_epoll_registered_ st' = is_epoll_registered_ st /\
    shutdowns st' = shutdowns st.
Proof.
  intros Hd Hpc Hh Hf1 Hok1 Hf2 Hok2 Hx Hne.
  unfold two_requests, run, step. generalize (DestroyConnection d). intros DC.
  rewrite ReadHandler_dispatched; try done.
  2:{ destruct (protocol_ st); [by rewrite Hh, lookup_empty|done..]. }
  rewrite bind_Some_l.
  destruct (protocol_ st) eqn:Ep.
  - rewrite ReadHandler_dispatched; try done.
    all: unfold dispatched; rewrite ?Ep; fields; try done.
    2:{ rewrite Ep. fields. rewrite Hh, lookup_insert_ne by done. apply lookup_empty. }
    rewrite bind_Some_l. eexists. split; [reflexivity|].
    rewrite Ep. fields. by rewrite <- app_assoc.
  - rewrite ReadHandler_parked; try done.
    all: unfold dispatched; rewrite ?Ep; fields; try done.
    rewrite bind_Some_l. eexists. split; [reflexivity|]. fields. done.
  - rewrite ReadHandler_dispatched; try done.
    all: unfold dispatched; rewrite ?Ep; fields; try done.
    2:{ by rewrite Ep. }
    rewrite bind_Some_l. eexists. split; [reflexivity|].
    rewrite Ep. fields. by rewrite <- app_assoc.
Qed.

End Pipelining.

(** ** The properties at work on the example runs *)

Lemma ex_fresh_heap : fresh_heap ex_heap.
Proof. unfold fresh_heap. apply (bool_decide_unpack _). vm_compute. exact I. Qed.

(** C1 on a run: the call whose request does not serialize takes the id 2, the
    call rejected after the shutdown takes none. *)
Lemma call_ids_count_up_witness :
  assigned_call_ids ex_destroyed
    [EvQueueOutboundCall 0; EvQueueOutboundCall 3; EvTimeout 1; EvQueueOutboundCall 1;
     EvShutdown ex_network_error; EvQueueOutboundCall 2] ex_client
  = [Some 1%Z; Some 2%Z; Some 3%Z] /\
  NoDup (assigned_call_ids ex_destroyed
           [EvQueueOutboundCall 0; EvQueueOutboundCall 3; EvTimeout 1; EvQueueOutboundCall 1;
            EvShutdown ex_network_error; EvQueueOutboundCall 2] ex_client).
Proof.
  split; [vm_compute; reflexivity|].
  exact (proj2 (call_ids_count_up ex_destroyed "0x1" "10.0.0.2:7100" YB CLIENT ex_heap
                  [EvQueueOutboundCall 0; EvQueueOutboundCall 3; EvTimeout 1;
                   EvQueueOutboundCall 1; EvShutdown ex_network_error;
                   EvQueueOutboundCall 2])).
Defined.

(** C2 on a run: two calls are pending when the connection is shut down. *)
Lemma Shutdown_completeness_witness :
  exists st',
    Shutdown ex_destroyed ex_network_error
      (after ex_destroyed [EvQueueOutboundCall 0; EvQueueOutboundCall 1] ex_client) = Some st' /\
    awaiting_response_ st' = ∅ /\
    outbound_transfers_ st' = [] /\
    is_epoll_registered_ st' = false /\
    forall id car h,
      awaiting_response_
        (after ex_destroyed [EvQueueOutboundCall 0; EvQueueOutboundCall 1] ex_client) !! id
      = Some car ->
      car_call car = Some h ->
      exists c, calls st' !! h = Some c /\
                state_ c = StFailed ex_network_error /\
                last (fired_ c) = Some (EdgeFailed ex_network_error).
Proof.
  exists (after ex_destroyed
            [EvQueueOutboundCall 0; EvQueueOutboundCall 1; EvShutdown ex_network_error]
            ex_client).
  assert (E : Shutdown ex_destroyed ex_network_error
                (after ex_destroyed [EvQueueOutboundCall 0; EvQueueOutboundCall 1] ex_client)
              = Some (after ex_destroyed
                        [EvQueueOutboundCall 0; EvQueueOutboundCall 1;
                         EvShutdown ex_network_error] ex_client)).
  { vm_compute. reflexivity. }
  split; [exact E|].
  exact (Shutdown_completeness ex_destroyed ex_network_error _ _ E).
Defined.

(** C3 as stated fails: the request of call 3 does not serialize, the call
    fails with that status, which is no network error and not the status of
    the shutdown that follows. *)
Lemma failed_status_counterexample :
  exists st c,
    run ex_destroyed [EvQueueOutboundCall 3; EvShutdown ex_network_error] ex_client = Some st /\
    calls st !! 3 = Some c /\
    fired_ c = [EdgeFailed ex_not_serializable] /\
    code ex_not_serializable <> kNetworkError /\
    shutdowns st = [ex_network_error] /\
    ex_not_serializable ∉ shutdowns st.
Proof.
  eexists _, _. split; [vm_compute; reflexivity|]. split; [vm_compute; reflexivity|].
  split; [reflexivity|]. split; [discriminate|]. split; [reflexivity|].
  simpl. intros H%list_elem_of_singleton. discriminate H.
Qed.

(** C3 on the example run, followed by a shutdown: the three calls time out,
    are answered and fail with the network error of the shutdown. *)
Lemma outbound_call_completes_once_witness :
  exists st',
    Shutdown ex_destroyed ex_network_error (after ex_destroyed ex_client_run ex_client)
    = Some st' /\
    (fired_ <$> calls st' !! 0 = Some [EdgeTimedOut]) /\
    (fired_ <$> calls st' !! 1 = Some [EdgeResponse (mkCallResponse 2 "P2")]) /\
    (fired_ <$> calls st' !! 2 = Some [EdgeFailed ex_network_error]) /\
    forall h, h ∈ queued_calls ex_client_run ->
      exists c e, calls st' !! h = Some c /\ fired_ c = [e] /\ failure_expected st' c e.
Proof.
  exists (after ex_destroyed (ex_client_run ++ [EvShutdown ex_network_error]) ex_client).
  assert (E : Shutdown ex_destroyed ex_network_error
                (after ex_destroyed ex_client_run ex_client)
              = Some (after ex_destroyed (ex_client_run ++ [EvShutdown ex_network_error])
                        ex_client)).
  { vm_compute. reflexivity. }
  split; [exact E|]. do 3 (split; [vm_compute; reflexivity|]).
  assert (Hrun : run ex_destroyed ex_client_run ex_client
                 = Some (after ex_destroyed ex_client_run ex_client)).
  { vm_compute. reflexivity. }
  assert (Hnd : NoDup (queued_calls ex_client_run)).
  { apply (bool_decide_unpack _). vm_compute. exact I. }
  exact (proj2 (proj2 (outbound_call_completes_once ex_destroyed "0x1" "10.0.0.2:7100" YB
                         CLIENT ex_heap ex_client_run _ ex_fresh_heap Hnd Hrun))
           ex_network_error _ E).
Defined.

(** C4 on a run: call 0, pending under the id 1, times out. *)
Lemma late_response_after_timeout_witness :
  exists st1,
    HandleOutboundCallTimeout 1 (after ex_destroyed [EvQueueOutboundCall 0] ex_client)
    = Some st1 /\
    (exists c1, calls st1 !! 0 = Some c1 /\ state_ c1 = StTimedOut /\
                fired_ c1 = [] ++ [EdgeTimedOut]) /\
    awaiting_response_ st1 !! 1%Z = Some (mkCar None true) /\
    forall transfer st2 car2,
      awaiting_response_ st2 !! 1%Z = Some car2 ->
      car_call car2 = None ->
      ok (frame_status (parse transfer)) = true ->
      frame_call_id (parse transfer) = 1%Z ->
      exists st3,
        HandleCallResponse transfer st2 = Some st3 /\
        awaiting_response_ st3 !! 1%Z = None /\
        calls st3 = calls st2 /\
        log_warnings st3 = log_warnings st2.
Proof.
  apply (late_response_after_timeout 1 (mkCar (Some 0) true) 0
           (call_set_state StQueued (call_set_call_id 1 (ex_call true)))
           (after ex_destroyed [EvQueueOutboundCall 0] ex_client)).
  - vm_compute. reflexivity.
  - reflexivity.
  - vm_compute. reflexivity.
  - reflexivity.
Defined.

(** C5 on a run: a second frame with the call id 42. *)
Lemma YB_duplicate_call_id_witness :
  exists st',
    YB_HandleIncomingCall (DestroyConnection ex_destroyed) (ex_frame 42 "again")
      (after ex_destroyed
         [EvEpollRegister; EvReadHandler false (Status_OK, ex_frame 42 "request")]
         (ex_server YB)) = Some st' /\
    messenger_queue st' = [mkInboundCall 42 "request"] /\
    shutdown_status_ st' = STATUS2 kRuntimeError "Received duplicate call id" "42" /\
    shutdowns st' = [] ++ [STATUS2 kRuntimeError "Received duplicate call id" "42"] /\
    is_epoll_registered_ st' = false /\
    read_io_ st' = false /\ write_io_ st' = false /\ socket_open_ st' = false.
Proof.
  assert (Hok : ok (frame_status (parse (ex_frame 42 "again"))) = true) by reflexivity.
  assert (Hyb : Forall yb_callbacks
                  (outbound_transfers_
                     (after ex_destroyed
                        [EvEpollRegister;
                         EvReadHandler false (Status_OK, ex_frame 42 "request")]
                        (ex_server YB)))).
  { vm_compute. apply Forall_nil_2. }
  assert (Hdup : is_Some
                   (calls_being_handled_
                      (after ex_destroyed
                         [EvEpollRegister;
                          EvReadHandler false (Status_OK, ex_frame 42 "request")]
                         (ex_server YB)) !! 42%Z)).
  { vm_compute. eexists. reflexivity. }
  eexists. split; [vm_compute; reflexivity|].
  apply (proj2 (proj2 (proj2
           (proj1 (YB_duplicate_call_id ex_destroyed _ _ Hok Hyb) Hdup)))).
  vm_compute. reflexivity.
Defined.

(** C6 on a run: a CQL server connection reads a frame that does not parse and
    stays registered and open. *)
Lemma CQL_parse_failure_witness :
  run ex_destroyed [EvEpollRegister; EvReadHandler false (Status_OK, ex_bad_frame)]
    (ex_server CQL)
  = Some (set_inbound_ None
            (LOG WARNING (LogBadData (STATUS kCorruption "bad header"))
               (EpollRegister (ex_server CQL)))) /\
  CQL_HandleIncomingCall ex_bad_frame (EpollRegister (ex_server CQL))
  = Some (LOG WARNING (LogBadData (frame_status (parse ex_bad_frame)))
            (EpollRegister (ex_server CQL))) /\
  is_epoll_registered_
    (LOG WARNING (LogBadData (STATUS kCorruption "bad header"))
       (EpollRegister (ex_server CQL))) = true.
Proof.
  split; [vm_compute; reflexivity|]. split; [|reflexivity].
  apply (CQL_parse_failure_keeps_connection_open ex_destroyed ex_bad_frame
           (EpollRegister (ex_server CQL))).
  reflexivity.
Defined.



(** C8 as stated fails: a call is queued while the connection negotiates, and
    [MarkNegotiationComplete] then leaves the write watcher stopped. *)
Lemma write_watcher_counterexample :
  exists st,
    run ex_destroyed [EvEpollRegister; EvQueueOutboundCall 0; EvMarkNegotiationComplete]
      ex_client = Some st /\
    outbound_transfers_ st <> [] /\
    write_io_ st = false /\
    negotiation_complete_ st = true /\
    ~ write_armed st.
Proof.
  eexists. split; [vm_compute; reflexivity|].
  split; [discriminate|]. split; [reflexivity|]. split; [reflexivity|].
  intros [H|[H|H]]; discriminate H.
Qed.

(** C8 on a run in which the calls are queued after the negotiation. *)
Lemma write_watcher_follows_queue_witness :
  write_armed
    (after ex_destroyed
       [EvMarkNegotiationComplete; EvEpollRegister; EvQueueOutboundCall 0;
        EvQueueOutboundCall 1; EvWriteHandler false [SendComplete; SendPartial]]
       ex_client) /\
  write_io_
    (after ex_destroyed
       [EvMarkNegotiationComplete; EvEpollRegister; EvQueueOutboundCall 0;
        EvQueueOutboundCall 1; EvWriteHandler false [SendComplete; SendPartial]]
       ex_client) = true.
Proof.
  split; [|vm_compute; reflexivity].
  apply (proj1 (write_watcher_follows_queue ex_destroyed) "0x1" "10.0.0.2:7100" YB CLIENT
           ex_heap
           [EvMarkNegotiationComplete; EvEpollRegister; EvQueueOutboundCall 0;
            EvQueueOutboundCall 1; EvWriteHandler false [SendComplete; SendPartial]]).
  - vm_compute. repeat split.
  - vm_compute. reflexivity.
Defined.

(** C9 on a run: two Redis requests arrive in one read. *)
Lemma Redis_single_call_in_flight_witness :
  processing_call_
    (after ex_destroyed [EvEpollRegister; EvReadHandler false (Status_OK, ex_two_requests)]
       (ex_server Redis)) = true /\
  Redis_HandleFinishedTransfer (DestroyConnection ex_destroyed)
    (after ex_destroyed [EvEpollRegister; EvReadHandler false (Status_OK, ex_two_requests)]
       (ex_server Redis))
  = Some (after ex_destroyed
            [EvEpollRegister; EvReadHandler false (Status_OK, ex_two_requests)]
            (ex_server Redis)) /\
  exists st',
    Redis_FinishedHandlingACall (DestroyConnection ex_destroyed)
      (after ex_destroyed [EvEpollRegister; EvReadHandler false (Status_OK, ex_two_requests)]
         (ex_server Redis)) = Some st' /\
    messenger_queue st' = [mkInboundCall 0 "GET a"; mkInboundCall 0 "GET b"] /\
    processing_call_ st' = true /\
    inbound_ st' = None.
Proof.
  split; [vm_compute; reflexivity|]. split.
  - apply (proj1 (Redis_single_call_in_flight ex_destroyed _)). vm_compute. reflexivity.
  - eexists. split; [vm_compute; reflexivity|]. vm_compute. repeat split.
Defined.

(** C10 on a run: a response with the call id 7, which was never assigned. *)
Lemma response_not_pending_ignored_witness :
  exists st',
    HandleCallResponse (ex_frame 7 "P7")
      (after ex_destroyed [EvQueueOutboundCall 0] ex_client) = Some st' /\
    st' = LOG WARNING (LogResponseNotPending 7)
            (after ex_destroyed [EvQueueOutboundCall 0] ex_client) /\
    calls st' = calls (after ex_destroyed [EvQueueOutboundCall 0] ex_client) /\
    awaiting_response_ st'
    = awaiting_response_ (after ex_destroyed [EvQueueOutboundCall 0] ex_client) /\
    shutdowns st' = shutdowns (after ex_destroyed [EvQueueOutboundCall 0] ex_client) /\
    shutdown_status_ st'
    = shutdown_status_ (after ex_destroyed [EvQueueOutboundCall 0] ex_client) /\
    is_epoll_registered_ st'
    = is_epoll_registered_ (after ex_destroyed [EvQueueOutboundCall 0] ex_client) /\
    log_warnings st'
    = log_warnings (after ex_destroyed [EvQueueOutboundCall 0] ex_client)
      ++ [LogResponseNotPending 7].
Proof.
  apply (response_not_pending_ignored (ex_frame 7 "P7")
           (after ex_destroyed [EvQueueOutboundCall 0] ex_client)).
  - reflexivity.
  - vm_compute. reflexivity.
Defined.

(** ** The further properties at work on example runs *)

(** X1 on a run: a client with two calls pending is shut down. *)
Lemma Shutdown_before_delete_witness :
  Connection_delete (after ex_destroyed [EvShutdown ex_network_error] ex_two_pending)
  = Some () /\
  Connection_delete (EpollRegister ex_client) = None.
Proof.
  split.
  - apply (proj1 (Shutdown_before_delete ex_destroyed) ex_network_error ex_two_pending).
    vm_compute. reflexivity.
  - apply (proj2 (Shutdown_before_delete ex_destroyed)).
Defined.

(** X2 on a run: a receive fails on a client with two calls pending. *)
Lemma io_errors_fail_pending_calls_witness :
  torn_with ex_network_error ex_two_pending
    (after ex_destroyed
       [EvReadHandler false (ex_network_error, new_InboundTransfer)] ex_two_pending).
Proof.
  apply (proj1 (proj2 (io_errors_fail_pending_calls ex_destroyed ex_two_pending
                         (after ex_destroyed
                            [EvReadHandler false (ex_network_error, new_InboundTransfer)]
                            ex_two_pending)))
           ex_network_error new_InboundTransfer).
  - vm_compute. reflexivity.
  - vm_compute. reflexivity.
Defined.

(** X3 on a run: a YB server reads the request 42. *)
Lemma dispatched_call_and_Idle_witness :
  messenger_queue
    (after ex_destroyed [EvReadHandler false (Status_OK, ex_frame 42 "request")]
       (ex_open (ex_server YB)))
  = messenger_queue (ex_open (ex_server YB)) ++ [call_of (ex_frame 42 "request")] /\
  Idle (after ex_destroyed [EvReadHandler false (Status_OK, ex_frame 42 "request")]
          (ex_open (ex_server YB)))
  = match protocol_ (ex_open (ex_server YB)) with YB => false | Redis | CQL => true end.
Proof.
  apply (dispatched_call_and_Idle ex_destroyed (ex_frame 42 "request")
           (ex_open (ex_server YB))
           (after ex_destroyed [EvReadHandler false (Status_OK, ex_frame 42 "request")]
              (ex_open (ex_server YB)))).
  all: vm_compute; reflexivity.
Defined.

(** X4 on a run: a YB server serves the request 42. *)
Lemma serving_returns_to_idle_witness :
  exists st',
    run ex_destroyed (serve_one (ex_frame 42 "request") ["response"]) (ex_open (ex_server YB))
    = Some st' /\
    Idle st' = true /\ write_io_ st' = false /\ processing_call_ st' = false /\
    messenger_queue st'
    = messenger_queue (ex_open (ex_server YB)) ++ [call_of (ex_frame 42 "request")] /\
    transfer_edges st'
    = transfer_edges (ex_open (ex_server YB))
      ++ [(transfers_made (ex_open (ex_server YB)), TransferFinishedEdge)] /\
    log st' = log (ex_open (ex_server YB)) /\
    shutdowns st' = shutdowns (ex_open (ex_server YB)).
Proof.
  apply (serving_returns_to_idle ex_destroyed (ex_frame 42 "request") ["response"]
           (ex_open (ex_server YB))).
  all: vm_compute; reflexivity.
Defined.


(** X6 on the example run of the client. *)
Lemma ToString_is_constant_witness :
  ToString (after ex_destroyed ex_client_run ex_client) = ToString ex_client /\
  this_ (after ex_destroyed ex_client_run ex_client) = this_ ex_client /\
  remote_ (after ex_destroyed ex_client_run ex_client) = remote_ ex_client /\
  protocol_ (after ex_destroyed ex_client_run ex_client) = protocol_ ex_client /\
  direction_ (after ex_destroyed ex_client_run ex_client) = direction_ ex_client.
Proof.
  apply (ToString_is_constant ex_destroyed ex_client_run ex_client
           (after ex_destroyed ex_client_run ex_client)).
  vm_compute. reflexivity.
Defined.

(** X7 on the example run of the client, followed by a shutdown. *)
Lemma read_watcher_and_socket_witness :
  read_io_ (after ex_destroyed (ex_client_run ++ [EvShutdown ex_network_error]) ex_client)
  = is_epoll_registered_
      (after ex_destroyed (ex_client_run ++ [EvShutdown ex_network_error]) ex_client) /\
  (socket_open_
     (after ex_destroyed (ex_client_run ++ [EvShutdown ex_network_error]) ex_client) = true
   <-> shutdowns
         (after ex_destroyed (ex_client_run ++ [EvShutdown ex_network_error]) ex_client)
       = []).
Proof.
  apply (read_watcher_and_socket ex_destroyed "0x1" "10.0.0.2:7100" YB CLIENT ex_heap
           (ex_client_run ++ [EvShutdown ex_network_error])
           (after ex_destroyed (ex_client_run ++ [EvShutdown ex_network_error]) ex_client)).
  vm_compute. reflexivity.
Defined.

(** X8 on a run: a call is queued while the connection negotiates. *)
Lemma client_armed_on_completion_witness :
  write_armed
    (after ex_destroyed
       [EvQueueOutboundCall 0; EvMarkNegotiationComplete; EvEpollRegister;
        EvQueueOutboundCall 1] ex_client).
Proof.
  apply (client_armed_on_completion ex_destroyed "0x1" "10.0.0.2:7100" YB ex_heap
           [EvQueueOutboundCall 0; EvMarkNegotiationComplete; EvEpollRegister;
            EvQueueOutboundCall 1]
           (after ex_destroyed
              [EvQueueOutboundCall 0; EvMarkNegotiationComplete; EvEpollRegister;
               EvQueueOutboundCall 1] ex_client)).
  - vm_compute. exact I.
  - vm_compute. reflexivity.
Defined.

(** X9 on a run: the second request is dispatched when the first is answered. *)
Lemma Redis_one_call_in_flight_witness :
  length (messenger_queue (after ex_destroyed ex_redis_run (ex_server Redis)))
  <= length (transfer_edges (after ex_destroyed ex_redis_run (ex_server Redis)))
     + (if processing_call_ (after ex_destroyed ex_redis_run (ex_server Redis))
        then 1 else 0).
Proof.
  apply (Redis_one_call_in_flight ex_destroyed "0x2" "10.0.0.3:51000" ∅ ex_redis_run
           (after ex_destroyed ex_redis_run (ex_server Redis))).
  vm_compute. reflexivity.
Defined.

(** X10 on a run: a YB server has read the request 42. *)
Lemma calls_being_handled_are_dispatched_witness :
  (forall id c,
     calls_being_handled_ (after ex_destroyed ex_request_run (ex_server YB)) !! id = Some c ->
     YB = YB /\ ic_call_id c = id /\
     c ∈ messenger_queue (after ex_destroyed ex_request_run (ex_server YB))) /\
  (YB <> YB -> calls_being_handled_ (after ex_destroyed ex_request_run (ex_server YB)) = ∅).
Proof.
  apply (calls_being_handled_are_dispatched ex_destroyed "0x2" "10.0.0.3:51000" YB SERVER ∅
           ex_request_run (after ex_destroyed ex_request_run (ex_server YB))).
  vm_compute. reflexivity.
Defined.

(** X11 on a run: a CQL server has read a request. *)
Lemma finished_transfer_never_parked_witness :
  (forall t,
     inbound_ (after ex_destroyed ex_request_run (ex_server CQL)) = Some t ->
     TransferFinished t = false) /\
  processing_call_ (after ex_destroyed ex_request_run (ex_server CQL)) = false /\
  CQL_FinishedHandlingACall (after ex_destroyed ex_request_run (ex_server CQL))
  = Some (after ex_destroyed ex_request_run (ex_server CQL)).
Proof.
  apply (finished_transfer_never_parked ex_destroyed "0x2" "10.0.0.3:51000" CQL SERVER ∅
           ex_request_run (after ex_destroyed ex_request_run (ex_server CQL))).
  - discriminate.
  - vm_compute. reflexivity.
Defined.

(** X12 on a run: the call pending under the id 1 times out, and its response arrives. *)
Lemma timed_out_call_keeps_connection_busy_witness :
  length (shutdowns ex_one_pending)
  < length (shutdowns
              (after ex_destroyed [EvReadHandler false (Status_OK, ex_frame 1 "P1")]
                 (default ex_one_pending (HandleOutboundCallTimeout 1 ex_one_pending)))) \/
  (VLOG1, LogResponseAfterTimeout 1)
  ∈ log (after ex_destroyed [EvReadHandler false (Status_OK, ex_frame 1 "P1")]
           (default ex_one_pending (HandleOutboundCallTimeout 1 ex_one_pending))).
Proof.
  apply (timed_out_call_keeps_connection_busy ex_destroyed 1 ex_one_pending
           (default ex_one_pending (HandleOutboundCallTimeout 1 ex_one_pending))
           [EvReadHandler false (Status_OK, ex_frame 1 "P1")]
           (after ex_destroyed [EvReadHandler false (Status_OK, ex_frame 1 "P1")]
              (default ex_one_pending (HandleOutboundCallTimeout 1 ex_one_pending)))).
  - vm_compute. reflexivity.
  - vm_compute. reflexivity.
  - vm_compute. reflexivity.
  - vm_compute. reflexivity.
Defined.

(** X13 on a run: the connection is shut down, then registered, used and shut down again. *)
Lemma shutdown_is_final_witness :
  ok (shutdown_status_
        (after ex_destroyed (EvShutdown ex_network_error :: ex_late_run) ex_two_pending))
  = false /\
  outbound_transfers_
    (after ex_destroyed (EvShutdown ex_network_error :: ex_late_run) ex_two_pending) = [] /\
  awaiting_response_
    (after ex_destroyed (EvShutdown ex_network_error :: ex_late_run) ex_two_pending) = ∅ /\
  socket_open_
    (after ex_destroyed (EvShutdown ex_network_error :: ex_late_run) ex_two_pending)
  = false /\
  forall h,
    direction_
      (after ex_destroyed (EvShutdown ex_network_error :: ex_late_run) ex_two_pending)
    = CLIENT ->
    is_Some
      (calls (after ex_destroyed (EvShutdown ex_network_error :: ex_late_run) ex_two_pending)
         !! h) ->
    QueueOutboundCall ex_destroyed (DestroyConnection ex_destroyed) h
      (after ex_destroyed (EvShutdown ex_network_error :: ex_late_run) ex_two_pending)
    = SetFailed h
        (shutdown_status_
           (after ex_destroyed (EvShutdown ex_network_error :: ex_late_run) ex_two_pending))
        (after ex_destroyed (EvShutdown ex_network_error :: ex_late_run) ex_two_pending).
Proof.
  apply (shutdown_is_final ex_destroyed ex_network_error ex_two_pending
           (after ex_destroyed [EvShutdown ex_network_error] ex_two_pending)
           ex_late_run
           (after ex_destroyed (EvShutdown ex_network_error :: ex_late_run) ex_two_pending)).
  - reflexivity.
  - vm_compute. reflexivity.
  - apply (bool_decide_unpack _). vm_compute. exact I.
  - vm_compute. reflexivity.
Defined.

(** X14 on a run: the response of a CQL server is queued. *)
Lemma server_writes_on_demand_witness :
  outbound_transfers_ (after ex_destroyed ex_cql_run (ex_server CQL)) <> [].
Proof.
  apply (server_writes_on_demand ex_destroyed "0x2" "10.0.0.3:51000" CQL ∅ ex_cql_run
           (after ex_destroyed ex_cql_run (ex_server CQL))).
  - vm_compute. reflexivity.
  - vm_compute. reflexivity.
Defined.

(** X15 on a run: the call 0 is queued after a shutdown with the OK status. *)
Lemma Shutdown_with_OK_status_is_not_final_witness :
  exists st2,
    QueueOutboundCall ex_destroyed (DestroyConnection ex_destroyed) 0
      (after ex_destroyed [EvShutdown Status_OK] ex_client) = Some st2 /\
    socket_open_ st2 = false /\
    awaiting_response_ st2
    = {[ next_call_id_ ex_client := mkCar (Some 0) (timeout_initialized_ (ex_call true)) ]} /\
    outbound_transfers_ st2
    = [mkOutbound (transfers_made ex_client) (serialized_ (ex_call true)).2
         (CallTransferCallbacks 0) false false] /\
    (exists c', calls st2 !! 0 = Some c' /\ state_ c' = StQueued /\
                fired_ c' = fired_ (ex_call true)).
Proof.
  apply (Shutdown_with_OK_status_is_not_final ex_destroyed Status_OK ex_client
           (after ex_destroyed [EvShutdown Status_OK] ex_client) 0 (ex_call true)).
  - reflexivity.
  - vm_compute. apply Forall_nil_2.
  - reflexivity.
  - vm_compute. reflexivity.
  - vm_compute. reflexivity.
  - reflexivity.
  - reflexivity.
Defined.

(** X16 on a run: the call 0 takes the id 1 and is answered. *)
Lemma call_and_response_round_trip_witness :
  exists st',
    run ex_destroyed (call_and_response 0 (ex_frame 1 "P1")) (ex_open ex_client) = Some st' /\
    calls st' !! 0
    = Some (mkOutboundCall (Some (next_call_id_ (ex_open ex_client))) (StResponded
                 (mkCallResponse (next_call_id_ (ex_open ex_client))
                    (frame_body (parse (ex_frame 1 "P1")))))
              (serialized_ (ex_call true)) (timeout_initialized_ (ex_call true))
              (fired_ (ex_call true)
               ++ [EdgeResponse
                     (mkCallResponse (next_call_id_ (ex_open ex_client))
                        (frame_body (parse (ex_frame 1 "P1"))))])) /\
    (forall h', h' <> 0 -> calls st' !! h' = calls (ex_open ex_client) !! h') /\
    Idle st' = true /\ write_io_ st' = false /\
    next_call_id_ st' = (next_call_id_ (ex_open ex_client) + 1)%Z /\
    transfer_edges st'
    = transfer_edges (ex_open ex_client)
      ++ [(transfers_made (ex_open ex_client), TransferFinishedEdge)] /\
    log st' = log (ex_open ex_client).
Proof.
  apply (call_and_response_round_trip ex_destroyed 0 (ex_call true) (ex_frame 1 "P1")
           (ex_open ex_client)).
  all: vm_compute; reflexivity.
Defined.

(** X17 on a client with two calls pending. *)
Lemma DumpPB_calls_in_flight_witness :
  (forall h,
     OutboundCallPB h ∈ calls_in_flight (DumpPB (mkCredentialed ex_two_pending "alice")).2
     <-> live h ex_two_pending) /\
  (forall id car h st',
     awaiting_response_ ex_two_pending !! id = Some car -> car_call car = Some h ->
     (forall id' car', awaiting_response_ ex_two_pending !! id' = Some car' ->
                       car_call car' = Some h -> id' = id) ->
     HandleOutboundCallTimeout id ex_two_pending = Some st' ->
     is_Some (awaiting_response_ st' !! id) /\
     OutboundCallPB h ∉ calls_in_flight (DumpPB (mkCredentialed st' "alice")).2) /\
  (forall s st',
     Shutdown ex_destroyed s ex_two_pending = Some st' ->
     calls_in_flight (DumpPB (mkCredentialed st' "alice")).2 = []) /\
  (forall uc',
     remote_user_credentials
       (DumpPB (set_user_credentials uc' (mkCredentialed ex_two_pending "alice"))).2
     = if negotiation_complete_ ex_two_pending then Some uc' else None).
Proof.
  apply (DumpPB_calls_in_flight ex_destroyed "alice" ex_two_pending).
  vm_compute. reflexivity.
Defined.

(** X18 on a run: the response to the request 42 is aborted with its task. *)
Lemma aborted_task_fires_one_edge_witness :
  exists st',
    QueueTransferTask_Abort ex_destroyed (DestroyConnection ex_destroyed) ex_response
      ex_network_error ex_serving = Some st' /\
    edges_of (transfer_id ex_response) st'
    = [(transfer_id ex_response, TransferAbortedEdge ex_network_error)] /\
    calls_being_handled_ st' = ∅.
Proof.
  eexists. split; [vm_compute; reflexivity|]. split; [|vm_compute; reflexivity].
  apply (proj1 (aborted_task_fires_one_edge ex_destroyed ex_response ex_network_error
                  ex_serving _ eq_refl
                  ltac:(vm_compute; apply not_elem_of_nil)
                  ltac:(vm_compute; reflexivity))).
Defined.

(** X19 on the client, once negotiation is complete. *)
Lemma client_registration_wakes_writer_witness :
  write_io_ (EpollRegister (MarkNegotiationComplete ex_client)) = true /\
  WriteHandler ex_destroyed (DestroyConnection ex_destroyed) false [SendComplete]
    (EpollRegister (MarkNegotiationComplete ex_client))
  = Some (set_write_io_ false
            (LOG WARNING LogNothingToWrite
               (EpollRegister (MarkNegotiationComplete ex_client)))).
Proof.
  apply (client_registration_wakes_writer ex_destroyed [SendComplete]
           (MarkNegotiationComplete ex_client)).
  all: reflexivity.
Defined.

(** X20 on a run: a client with two calls pending is shut down twice. *)
Lemma Shutdown_twice_witness :
  exists st2,
    Shutdown ex_destroyed ex_destroyed
      (after ex_destroyed [EvShutdown ex_network_error] ex_two_pending) = Some st2 /\
    shutdown_status_ st2 = ex_destroyed /\
    shutdowns st2
    = shutdowns (after ex_destroyed [EvShutdown ex_network_error] ex_two_pending)
      ++ [ex_destroyed] /\
    calls st2 = calls (after ex_destroyed [EvShutdown ex_network_error] ex_two_pending) /\
    transfer_edges st2
    = transfer_edges (after ex_destroyed [EvShutdown ex_network_error] ex_two_pending) /\
    messenger_queue st2
    = messenger_queue (after ex_destroyed [EvShutdown ex_network_error] ex_two_pending) /\
    calls_being_handled_ st2
    = calls_being_handled_
        (after ex_destroyed [EvShutdown ex_network_error] ex_two_pending) /\
    awaiting_response_ st2 = ∅ /\ outbound_transfers_ st2 = [] /\
    is_epoll_registered_ st2 = false /\ socket_open_ st2 = false /\
    log st2
    = log (after ex_destroyed [EvShutdown ex_network_error] ex_two_pending) ++
      match inbound_ (after ex_destroyed [EvShutdown ex_network_error] ex_two_pending) with
      | Some t =>
          if TransferStarted t
          then [(WARNING, LogShutdownPendingInbound ex_destroyed)] else []
      | None => []
      end.
Proof.
  apply (Shutdown_twice ex_destroyed ex_network_error ex_destroyed ex_two_pending
           (after ex_destroyed [EvShutdown ex_network_error] ex_two_pending)).
  vm_compute. reflexivity.
Defined.

(** X21 on a run: a Redis server reads two requests. *)
Lemma requests_pipeline_but_on_Redis_witness :
  exists st',
    run ex_destroyed (two_requests (ex_frame 0 "GET a") (ex_frame 1 "GET b"))
      (ex_open (ex_server Redis)) = Some st' /\
    messenger_queue st'
    = messenger_queue (ex_open (ex_server Redis)) ++
      match protocol_ (ex_open (ex_server Redis)) with
      | Redis => [call_of (ex_frame 0 "GET a")]
      | YB | CQL => [call_of (ex_frame 0 "GET a"); call_of (ex_frame 1 "GET b")]
      end /\
    inbound_ st'
    = match protocol_ (ex_open (ex_server Redis)) with
      | Redis => Some (ex_frame 1 "GET b")
      | YB | CQL => None
      end /\
    is_epoll_registered_ st' = is_epoll_registered_ (ex_open (ex_server Redis)) /\
    shutdowns st' = shutdowns (ex_open (ex_server Redis)).
Proof.
  apply (requests_pipeline_but_on_Redis ex_destroyed (ex_frame 0 "GET a") (ex_frame 1 "GET b")
           (ex_open (ex_server Redis))).
  all: try (vm_compute; reflexivity).
  discriminate.
Defined.
